(** * Matrixify pricing / tagging reconciliation engine

    A shallow embedding of the Matrixify reconciliation scripts
    (the no-VAT script with the FAIL-FAST structure checks, its VAT
    predecessor, [src/matrixify-run.mjs] and the dependency-free
    "Matrixify CSV Processor").

    Numbers.  The scripts compute on JavaScript numbers.  They are
    embedded as real numbers: [Math.exp] is [exp], [Math.log10 x] is
    [ln x / ln 10], [Math.pow] is [Rpower], [Math.min]/[Math.max] are
    [Rmin]/[Rmax] and [Math.round x] is [floor (x + 1/2)].  Rounding
    error, overflow, NaN and the infinities of IEEE-754 arithmetic are
    outside this model; a value that [toNumberOrNull] maps to [null]
    is [None].

    The classifier [determineTypeArigato] uses only [+], [-], [*] and
    comparisons; it is embedded a second time on the binary64 numbers
    of the machine ([Module B64], primitive floats, round to nearest
    even), where its decision is the script's bit for bit; statements
    about all doubles are proved there from the specification of the
    operations in [SpecFloat], with the rounding errors made explicit
    ([B2R], [u64]).  The
    output stage of [src/matrixify-run.mjs] tests its numbers with
    [Number.isFinite]; [Module MatrixifyMain] therefore carries
    [JSNumber]s, finite or not.  A theorem that rests on finite
    prices names the range of its inputs ([priced_in_range]).

    Strings.  Tags, ids and cells are [string]s (byte strings);
    [toLowerCase] acts on the ASCII letters and [trim] removes the
    ASCII white space characters. *)

From Stdlib Require Import Floats.
From Stdlib Require Import Reals Lra Lia List String Ascii Bool ZArith.
Import ListNotations.

Open Scope string_scope.
Open Scope list_scope.
Open Scope R_scope.

(** ** JavaScript numeric primitives on the real model *)

Definition Rgtb (x y : R) : bool := if Rlt_dec y x then true else false.
Definition Rgeb (x y : R) : bool := if Rle_dec y x then true else false.
Definition Rltb (x y : R) : bool := if Rlt_dec x y then true else false.

(** [Math.round]: the nearest integer, halves towards plus infinity. *)
Definition Math_round (x : R) : R := IZR (Zfloor (x + / 2)).

Definition Math_log10 (x : R) : R := ln x / ln 10.
Definition Math_pow (x y : R) : R := Rpower x y.
Definition Math_exp (x : R) : R := exp x.

(** [function clamp(x, a, b) { return Math.max(a, Math.min(b, x)); }] *)
Definition clamp (x a b : R) : R := Rmax a (Rmin b x).

(** [function round2(x) { return Math.round(x * 100) / 100; }] *)
Definition round2 (x : R) : R := Math_round (x * 100) / 100.

(** ** JavaScript string primitives *)

Definition is_upper (c : ascii) : bool :=
  let n := nat_of_ascii c in (65 <=? n)%nat && (n <=? 90)%nat.

Definition lower_ascii (c : ascii) : ascii :=
  if is_upper c then ascii_of_nat (nat_of_ascii c + 32) else c.

Fixpoint toLowerCase (s : string) : string :=
  match s with
  | EmptyString => EmptyString
  | String c r => String (lower_ascii c) (toLowerCase r)
  end.

(** Tab, line feed, vertical tab, form feed, carriage return, space. *)
Definition is_space (c : ascii) : bool :=
  let n := nat_of_ascii c in
  ((9 <=? n)%nat && (n <=? 13)%nat) || (n =? 32)%nat.

Fixpoint trimStart (s : string) : string :=
  match s with
  | EmptyString => EmptyString
  | String c r => if is_space c then trimStart r else s
  end.

Fixpoint trimEnd (s : string) : string :=
  match s with
  | EmptyString => EmptyString
  | String c r =>
      match trimEnd r with
      | EmptyString => if is_space c then EmptyString else String c EmptyString
      | r' => String c r'
      end
  end.

Definition trim (s : string) : string := trimEnd (trimStart s).

(** [Array.prototype.includes] on an array of strings. *)
Definition includes (l : list string) (x : string) : bool :=
  existsb (String.eqb x) l.

(** Truthiness of a string: non-empty. *)
Definition truthy (s : string) : bool :=
  match s with EmptyString => false | _ => true end.

(** [function normTag(t) { return String(t || "").toLowerCase().trim(); }] *)
Definition normTag (t : string) : string := trim (toLowerCase t).

(** ** Regimes *)

Inductive Regime : Type := Skip | Used | Standard | LowMargin.

Definition Regime_eqb (a b : Regime) : bool :=
  match a, b with
  | Skip, Skip | Used, Used | Standard, Standard | LowMargin, LowMargin => true
  | _, _ => false
  end.

(** The string a regime is in the scripts. *)
Definition regime_name (r : Regime) : string :=
  match r with
  | Skip => "skip"
  | Used => "used"
  | Standard => "standard"
  | LowMargin => "low-margin"
  end.

(** [const TYPE_TAGS = ["used", "standard", "low-margin"];] *)
Definition TYPE_TAGS : list string := ["used"; "standard"; "low-margin"].

(** ** Classifier *)

(** [hasUsedGateway(tagsArr)] *)
Definition hasUsedGateway (tagsArr : list string) : bool :=
  let lower := map normTag tagsArr in
  includes lower "preowned / defect" || includes lower "preloved".

(** [hasCnfdnt(tagsArr)] *)
Definition hasCnfdnt (tagsArr : list string) : bool :=
  let lower := map normTag tagsArr in
  includes lower "cnfdnt".

(** The constants of a classifier; [vat] is [None] where the script
    applies no VAT scaling to the fee base. *)
Record ClassifierCfg : Type := {
  cl_d_max : R;
  cl_ship_cost : R;
  cl_cust_ship : R;
  cl_aff_rate : R;
  cl_other_rate : R;
  cl_vat : option R
}.

Section Classifier.
Variable cfg : ClassifierCfg.

Definition P_sale_max (M : R) : R := M * (1 - cl_d_max cfg).
Definition affiliate_fee (M : R) : R := P_sale_max M * cl_aff_rate cfg.
Definition gross_with_ship (M : R) : R := P_sale_max M + cl_cust_ship cfg.
Definition other_fee (M : R) : R :=
  match cl_vat cfg with
  | None => gross_with_ship M * cl_other_rate cfg
  | Some t => (gross_with_ship M * (1 + t)) * cl_other_rate cfg
  end.

(** The projected worst-case margin [G]. *)
Definition margin_G (M C : R) : R :=
  P_sale_max M - C - cl_ship_cost cfg - affiliate_fee M - other_fee M.

(** [determineTypeArigato(M, C, tagsArr)] *)
Definition determineTypeWith (M C : R) (tagsArr : list string) : Regime :=
  if negb (Rgtb M 0) || negb (Rgtb C 0) then Skip
  else if hasUsedGateway tagsArr then Used
  else if Rgeb (margin_G M C) 0 then Standard else LowMargin.
End Classifier.

(** ** The classifier on binary64 numbers *)

Set Warnings "-inexact-float".

Module B64.

(** The constants of [determineTypeArigato] in the no-VAT script, as
    the doubles their decimal literals denote. *)
Definition d_max : float := 0.51.
Definition ship_cost : float := 12.9.
Definition cust_ship : float := 8.5.
Definition aff_rate : float := 0.12.
Definition other_rate : float := 0.0455.

(** The projected worst-case margin [G], with the operations in the
    order of the script. *)
Definition margin_G (M C : float) : float :=
  let P_sale_max := (M * (1 - d_max))%float in
  let affiliate_fee := (P_sale_max * aff_rate)%float in
  let gross_with_ship := (P_sale_max + cust_ship)%float in
  let other_fee := (gross_with_ship * other_rate)%float in
  (P_sale_max - C - ship_cost - affiliate_fee - other_fee)%float.

(** [determineTypeArigato(M, C, tagsArr)]; [M > 0] is [0 < M] and
    [G >= 0] is [0 <= G], both false on NaN. *)
Definition determineTypeArigato (M C : float) (tagsArr : list string)
  : Regime :=
  if negb (0 <? M)%float || negb (0 <? C)%float then Skip
  else if hasUsedGateway tagsArr then Used
  else if (0 <=? margin_G M C)%float then Standard else LowMargin.

End B64.

(** ** Binary64 numbers as real numbers

    The operations on machine floats are specified by [SpecFloat] on
    sign, mantissa and exponent.  The definitions below read such a
    datum as a real number, so that a statement about the doubles of
    the script can be proved by real arithmetic with explicit rounding
    errors. *)

(** [2^e] for an integer exponent. *)
Definition b2 (e : Z) : R := powerRZ 2 e.

(** The unit roundoff of binary64, [2^-53]. *)
Definition u64 : R := / 9007199254740992.

(** The real number a binary64 datum denotes.  NaN and the infinities
    denote none; they are told apart by [SFfin]. *)
Definition SF2R (x : spec_float) : R :=
  match x with
  | S754_finite s m e =>
      if s then - (IZR (Zpos m) * b2 e) else IZR (Zpos m) * b2 e
  | _ => 0
  end.

(** A zero or a finite number. *)
Definition SFfin (x : spec_float) : bool :=
  match x with
  | S754_zero _ | S754_finite _ _ _ => true
  | _ => false
  end.

(** A negative number or minus infinity. *)
Definition SFneg (x : spec_float) : bool :=
  match x with
  | S754_finite true _ _ | S754_infinity true => true
  | _ => false
  end.

Definition B2R (x : float) : R := SF2R (Prim2SF x).
Definition Bfin (x : float) : bool := SFfin (Prim2SF x).
Definition Bneg (x : float) : bool := SFneg (Prim2SF x).

(** The state of the right shift of [SpecFloat] after [k] steps on the
    mantissa [m]: the quotient, and the round and sticky bits as facts
    about the remainder. *)
Definition shr_inv (m k : Z) (rec : shr_record) : Prop :=
  let rem := (m - shr_m rec * 2 ^ k)%Z in
  (0 <= shr_m rec)%Z
  /\ (0 <= rem < 2 ^ k)%Z
  /\ (shr_r rec = true <-> (2 ^ k <= 2 * rem)%Z)
  /\ (shr_s rec = true <-> rem <> 0%Z /\ (2 * rem)%Z <> (2 ^ k)%Z).

(** The datum [binary_round_aux] builds from a rounded mantissa and its
    exponent: overflow to infinity above the exponent 971. *)
Definition encode (sx : bool) (m1 e1 : Z) : spec_float :=
  match m1 with
  | Z0 => S754_zero sx
  | Zpos p => if (e1 <=? 971)%Z then S754_finite sx p e1 else S754_infinity sx
  | Zneg _ => S754_nan
  end.

(** [res] is the datum of sign [sx] for the rounded magnitude [r]:
    infinity when [r] reaches [2^1024]. *)
Definition rounds_to (sx : bool) (res : spec_float) (r : R) : Prop :=
  (res = S754_infinity sx /\ b2 1024 <= r)
  \/ (res = S754_zero sx /\ r = 0)
  \/ (exists p e1, res = S754_finite sx p e1 /\ r = IZR (Zpos p) * b2 e1).

(** ** Pricing model *)

Record CostPlus : Type := {
  alpha : R; beta : R; gamma : R; N_ : R; K0 : R; k_ : R
}.

Record StdParams : Type := {
  d_max : R; mu0 : R; beta_disc : R; gamma_M : R;
  rho : R; d_ref : R; M_ref : R
}.

Record Pricing : Type := {
  ok : bool;
  price_new : R;
  as_low_as : R
}.

(** [{ ok: false }]: the two numeric fields are absent and never read
    ([pricing.ok] guards every use). *)
Definition pricing_not_ok : Pricing :=
  {| ok := false; price_new := 0; as_low_as := 0 |}.

Section PricingModel.
Variables (U LM : CostPlus) (STD : StdParams).

Definition sM (P : CostPlus) (M : R) : R :=
  1 / (1 + Math_exp ((M - K0 P) / k_ P)).

Definition price_raw (P : CostPlus) (M C : R) : R :=
  C * (1 + alpha P + beta P * Math_log10 (M / C) + gamma P * sM P M) + N_ P.

Definition P_hidden_raw (M C : R) : R :=
  let d := clamp (1 - C / M) 0 (99 / 100) in
  let L_d := Math_log10 (1 / (1 - d)) in
  let L_dref := Math_log10 (1 / (1 - d_ref STD)) in
  let mu_d := mu0 STD + beta_disc STD * (L_d - L_dref) in
  let m_shape := Math_pow (M / M_ref STD) (- gamma_M STD) in
  let A_M := (M * m_shape) / (1 - d_max STD) in
  let B_d := (1 - rho STD) * (1 + mu_d) * (1 - d)
             + rho STD * (1 + mu0 STD) * (1 - d_ref STD) in
  A_M * B_d.

(** The price before the final [round2]: the value of the script's
    variable [price_new] at the [return]. *)
Definition price_unrounded (M C : R) (type : Regime) : R :=
  match type with
  | Used => Rmin M (price_raw U M C)
  | LowMargin => Rmin M (price_raw LM M C)
  | Standard => Rmin M (P_hidden_raw M C)
  | Skip => M
  end.

Definition as_low_as_unrounded (M C : R) (type : Regime) : R :=
  match type with
  | Standard => (1 - d_max STD) * Rmin M (P_hidden_raw M C)
  | _ => 0
  end.

(** [computePricing(M, C, type)] *)
Definition computePricingWith (M C : R) (type : Regime) : Pricing :=
  if negb (Rgtb M 0) || negb (Rgtb C 0) then pricing_not_ok
  else {| ok := true;
          price_new := round2 (price_unrounded M C type);
          as_low_as := round2 (as_low_as_unrounded M C type) |}.
End PricingModel.

(** ** Strings that hold numbers *)

(** A JavaScript string is given by its characters ([Lit]) or is the
    decimal text [String(x)] of a number [x] ([NumStr]).  The real model
    does not compute the characters of [String(x)]; what the scripts use
    of it is that it is never empty, holds no comma, and that [Number]
    reads [x] back from it. *)
Inductive Text : Type :=
  | Lit (s : string)
  | NumStr (x : R).

(** The JavaScript values the numeric helpers receive. *)
Inductive JSVal : Type :=
  | VUndef
  | VNull
  | VNum (x : R)
  | VText (t : Text).

Definition VStr (s : string) : JSVal := VText (Lit s).

(** A parsed number: finite, or one of NaN and the two infinities. *)
Inductive JSNumber : Type :=
  | Fin (r : R)
  | NotFinite.

Definition digit_val (base : nat) (c : ascii) : option Z :=
  let n := nat_of_ascii c in
  let v :=
    if (48 <=? n)%nat && (n <=? 57)%nat then Some (n - 48)%nat
    else if (97 <=? n)%nat && (n <=? 102)%nat then Some (n - 87)%nat
    else if (65 <=? n)%nat && (n <=? 70)%nat then Some (n - 55)%nat
    else None in
  match v with
  | Some d => if (d <? base)%nat then Some (Z.of_nat d) else None
  | None => None
  end.

(** The longest prefix of digits of [s] in [base]: its value on top of
    [acc], the number of digits read on top of [cnt], and the rest. *)
Fixpoint read_digits (base : nat) (s : string) (acc : Z) (cnt : nat)
  : Z * nat * string :=
  match s with
  | EmptyString => (acc, cnt, s)
  | String c r =>
      match digit_val base c with
      | Some d => read_digits base r (Z.of_nat base * acc + d)%Z (S cnt)
      | None => (acc, cnt, s)
      end
  end.

(** [0x..], [0o..], [0b..]: digits in the base, nothing after them. *)
Definition radix_literal (base : nat) (s : string) : JSNumber :=
  match read_digits base s 0%Z 0%nat with
  | (v, S _, EmptyString) => Fin (IZR v)
  | _ => NotFinite
  end.

Definition read_sign (s : string) : bool * string :=
  match s with
  | String "-" r => (true, r)
  | String "+" r => (false, r)
  | _ => (false, s)
  end.

(** The exponent part: empty, or [e]/[E], a sign and digits. *)
Definition read_exponent (s : string) : option Z :=
  match s with
  | EmptyString => Some 0%Z
  | String c r =>
      if (Ascii.eqb c "e" || Ascii.eqb c "E")%bool then
        let '(neg, r1) := read_sign r in
        match read_digits 10 r1 0%Z 0%nat with
        | (e, S _, EmptyString) => Some (if neg then (- e)%Z else e)
        | _ => None
        end
      else None
  end.

(** An unsigned decimal literal: digits, an optional fraction, an
    optional exponent; at least one digit before the exponent. *)
Definition decimal_literal (s : string) : JSNumber :=
  let '(ip, ni, r1) := read_digits 10 s 0%Z 0%nat in
  let '(fp, nf, r2) :=
    match r1 with
    | String "." r => read_digits 10 r 0%Z 0%nat
    | _ => (0%Z, 0%nat, r1)
    end in
  match (ni + nf)%nat, read_exponent r2 with
  | S _, Some e =>
      Fin (IZR (ip * 10 ^ Z.of_nat nf + fp) * powerRZ 10 (e - Z.of_nat nf))
  | _, _ => NotFinite
  end.

(** [Number(s)] on a string given by its characters: white space is
    trimmed, the empty string is 0, then a radix literal or a signed
    decimal literal; anything else (and [Infinity]) is not finite. *)
Definition Number_of_string (s : string) : JSNumber :=
  match trim s with
  | EmptyString => Fin 0
  | String "0" (String c r) as t =>
      if (Ascii.eqb c "x" || Ascii.eqb c "X")%bool then radix_literal 16 r
      else if (Ascii.eqb c "o" || Ascii.eqb c "O")%bool then radix_literal 8 r
      else if (Ascii.eqb c "b" || Ascii.eqb c "B")%bool then radix_literal 2 r
      else decimal_literal t
  | t =>
      let '(neg, r) := read_sign t in
      match decimal_literal r with
      | Fin x => Fin (if neg then - x else x)
      | NotFinite => NotFinite
      end
  end.

Definition Number_ (t : Text) : JSNumber :=
  match t with
  | Lit s => Number_of_string s
  | NumStr x => Fin x
  end.

(** [String(v)] for the values the helpers receive. *)
Definition String_ (v : JSVal) : Text :=
  match v with
  | VUndef => Lit "undefined"
  | VNull => Lit "null"
  | VNum x => NumStr x
  | VText t => t
  end.

(** [v ?? d] *)
Definition nullish (v d : JSVal) : JSVal :=
  match v with
  | VUndef | VNull => d
  | _ => v
  end.

(** [s.replace(",", ".")]: the first comma only. *)
Fixpoint replace_comma (s : string) : string :=
  match s with
  | EmptyString => EmptyString
  | String c r => if Ascii.eqb c "," then String "." r else String c (replace_comma r)
  end.

Definition Text_replace_comma (t : Text) : Text :=
  match t with
  | Lit s => Lit (replace_comma s)
  | NumStr x => NumStr x
  end.

Definition Text_trim (t : Text) : Text :=
  match t with
  | Lit s => Lit (trim s)
  | NumStr x => NumStr x
  end.

Definition Text_truthy (t : Text) : bool :=
  match t with
  | Lit s => truthy s
  | NumStr _ => true
  end.

Definition finite_or_null (n : JSNumber) : option R :=
  match n with
  | Fin r => Some r
  | NotFinite => None
  end.

(** [o != null] *)
Definition not_null (o : option R) : bool :=
  match o with Some _ => true | None => false end.

(** A number or [null] as a JavaScript value. *)
Definition of_nullable (o : option R) : JSVal :=
  match o with
  | Some x => VNum x
  | None => VNull
  end.

(** ** Tag reconciler *)

Record TagDiff : Type := {
  desiredTagsArr : list string;
  tags_to_add : list string;
  tags_to_remove : list string;
  doTags : bool
}.

(** [t => !TYPE_TAGS.includes(normTag(t))] *)
Definition not_type_tag (t : string) : bool :=
  negb (includes TYPE_TAGS (normTag t)).

(** The loop [for (const t of TYPE_TAGS) if (t !== desiredType &&
    curLower.includes(t)) tags_to_remove.push(t);] *)
Definition other_type_tags (curLower : list string) (desiredType : string)
  : list string :=
  filter (fun t => negb (String.eqb t desiredType) && includes curLower t)
         TYPE_TAGS.

(** [computeTagDiff(currentTagsArr, desiredType)] of the no-VAT script
    and of its VAT predecessor. *)
Definition computeTagDiff (cur : list string) (desiredType : string) : TagDiff :=
  let curLower := map normTag cur in
  if negb (includes TYPE_TAGS desiredType) then
    {| desiredTagsArr := cur; tags_to_add := []; tags_to_remove := [];
       doTags := false |}
  else
    let tags_to_add :=
      if negb (includes curLower desiredType) then [desiredType] else [] in
    let tags_to_remove := other_type_tags curLower desiredType in
    let doTags :=
      (0 <? List.length tags_to_add)%nat || (0 <? List.length tags_to_remove)%nat in
    let cleaned := filter not_type_tag cur in
    let desiredTagsArr :=
      if negb (includes (map normTag cleaned) desiredType)
      then cleaned ++ [desiredType] else cleaned in
    {| desiredTagsArr := desiredTagsArr; tags_to_add := tags_to_add;
       tags_to_remove := tags_to_remove; doTags := doTags |}.

(** [computeTagOps(currentTags, desiredType)] of [src/matrixify-run.mjs]. *)
Definition computeTagOps (cur : list string) (desiredType : string) : TagDiff :=
  let curLower := map normTag cur in
  let tags_to_add :=
    if includes TYPE_TAGS desiredType && negb (includes curLower desiredType)
    then [desiredType] else [] in
  let tags_to_remove := other_type_tags curLower desiredType in
  let cleaned := filter not_type_tag cur in
  let desiredTags :=
    if includes TYPE_TAGS desiredType
       && negb (includes (map normTag cleaned) desiredType)
    then cleaned ++ [desiredType] else cleaned in
  let doTags :=
    (0 <? List.length tags_to_add)%nat || (0 <? List.length tags_to_remove)%nat in
  {| desiredTagsArr := desiredTags; tags_to_add := tags_to_add;
     tags_to_remove := tags_to_remove; doTags := doTags |}.

(** The reconciler as [main] of [src/matrixify-run.mjs] calls it:
    [computeTagOps] for a type regime, the current tags otherwise. *)
Definition tagOps_guarded (missingMC : bool) (tags : list string)
  (type : string) : TagDiff :=
  if negb missingMC && includes TYPE_TAGS type then computeTagOps tags type
  else {| desiredTagsArr := tags; tags_to_add := []; tags_to_remove := [];
          doTags := false |}.

(** ** Products and variants *)

Record Variant : Type := {
  variantId : string;
  pos : R;
  price : option R;
  compareAt : option R;
  cost : option R
}.

Record Product : Type := {
  productId : string;
  title : string;
  handle : string;
  status : string;
  tagsArr : list string;
  asLowAsCurrent : Text;
  variants : list Variant
}.

(** [x ?? d] on a nullable number. *)
Definition orElse (o : option R) (d : R) : R :=
  match o with Some x => x | None => d end.

(** The position sentinel of a row without a usable position. *)
Definition POS_SENTINEL : R := 999999.

(** [s.replace(/^"|"$/g, "")]: a leading and a trailing double quote
    are removed. *)
Definition dquote : ascii := ascii_of_nat 34.

Fixpoint strip_trailing_quote (s : string) : string :=
  match s with
  | EmptyString => EmptyString
  | String c EmptyString => if Ascii.eqb c dquote then EmptyString else s
  | String c r => String c (strip_trailing_quote r)
  end.

Definition strip_quotes (s : string) : string :=
  match s with
  | String c r => if Ascii.eqb c dquote then strip_trailing_quote r
                  else strip_trailing_quote s
  | EmptyString => EmptyString
  end.

(** A cell [cells[i]] of a tokenised record: [None] is [undefined]
    (the record is shorter than the header). *)
Definition cell_val (c : option string) : JSVal :=
  match c with
  | Some s => VStr s
  | None => VUndef
  end.

(** [(cells[i] ?? "").trim().replace(/^"|"$/g, "")] *)
Definition clean_cell (c : option string) : string :=
  strip_quotes (trim (match c with Some s => s | None => "" end)).

(** The base variant: [p.variants.reduce((best, v) => (!best || v.pos <
    best.pos) ? v : best, null)]. *)
Definition pick_base_step (best : option Variant) (v : Variant) : option Variant :=
  match best with
  | None => Some v
  | Some b => if Rltb (pos v) (pos b) then Some v else Some b
  end.

Definition pick_base (vs : list Variant) : option Variant :=
  fold_left pick_base_step vs None.

(** ** Instruction rows *)

(** One row of an import file, by column. *)
Record Row : Type := {
  col_ID : string;
  col_Command : string;
  col_Tags : string;
  col_TagsCommand : string;
  col_Status : string;
  col_VariantID : string;
  col_VariantCommand : string;
  col_VariantPrice : Text;
  col_Metafield : Text
}.

(** A computation that may [throw]. *)
Inductive Outcome (A : Type) : Type :=
  | Done (a : A)
  | Throw (msg : string).
Arguments Done {A} a.
Arguments Throw {A} msg.

Definition bind {A B : Type} (m : Outcome A) (f : A -> Outcome B) : Outcome B :=
  match m with
  | Done a => f a
  | Throw msg => Throw msg
  end.

Notation "x <- m ;; k" := (bind m (fun x => k))
  (at level 61, m at next level, right associativity).

(** [arr.join(", ")] *)
Definition join_tags (l : list string) : string := String.concat ", " l.

(** ** The engine shared by the no-VAT script and its VAT predecessor *)

(** [function toNumberOrNull(x) { const n = Number(String(x ??
    "").replace(",", ".")); return Number.isFinite(n) ? n : null; }] *)
Definition toNumberOrNull (x : JSVal) : option R :=
  let n := Number_ (Text_replace_comma (String_ (nullish x (VStr "")))) in
  finite_or_null n.

(** [na > -Infinity] for [na] a number or [null]: [null] converts to
    0, and every finite number exceeds minus infinity. *)
Definition gt_neg_infinity (na : option R) : bool := true.

(** [approxEqualMoney(a, b)]; in [na - nb] a [null] converts to 0. *)
Definition approxEqualMoney (a b : JSVal) : bool :=
  let na := toNumberOrNull a in
  let nb := toNumberOrNull b in
  if negb (gt_neg_infinity na) || negb (gt_neg_infinity nb) then false
  else Rltb (Rabs (orElse na 0 - orElse nb 0)) (5 / 1000).

(** The variant a record contributes: the five reads of [cells] in
    [main] and the [push]. *)
Definition variant_of_cells (cVid cPos cPrice cCompare cCost : option string)
  : Variant :=
  {| variantId := clean_cell cVid;
     pos := orElse (toNumberOrNull (cell_val cPos)) POS_SENTINEL;
     price := toNumberOrNull (cell_val cPrice);
     compareAt := toNumberOrNull (cell_val cCompare);
     cost := toNumberOrNull (cell_val cCost) |}.

(** What [main] decides for one product. *)
Record Decision : Type := {
  base : option Variant;
  msrpGross : R;
  M_used : R;
  C_used : R;
  missingMC : bool;
  doDraft : bool;
  desiredType : Regime;
  pricing : Pricing;
  desiredPriceNew : option R;
  desiredAsLowAs : option R;
  tagDiff : TagDiff;
  variantsToUpdate : list string;
  doPrice : bool;
  doMetafield : bool;
  needsChange : bool
}.

(** [v.variantId && !approxEqualMoney(v.price, desiredPriceNew)] *)
Definition needs_price (desiredPriceNew : option R) (v : Variant) : bool :=
  truthy (variantId v)
  && negb (approxEqualMoney (of_nullable (price v))
                            (of_nullable desiredPriceNew)).

Section Engine.
Variable cfg : ClassifierCfg.
Variables (U LM : CostPlus) (STD : StdParams).
(** The reference price the engine uses, from the gross one. *)
Variable net : R -> R.

Definition decideWith (p : Product) : Decision :=
  let base := pick_base (variants p) in
  let msrpGross := orElse (match base with Some b => compareAt b | None => None end) 0 in
  let M := if Rgtb msrpGross 0 then net msrpGross else 0 in
  let C := orElse (match base with Some b => cost b | None => None end) 0 in
  let missingMC := negb (Rgtb M 0 && Rgtb C 0) in
  let doDraft :=
    missingMC && negb (String.eqb (toLowerCase (status p)) "draft") in
  let desiredType :=
    if missingMC then Skip else determineTypeWith cfg M C (tagsArr p) in
  let typed := negb missingMC && includes TYPE_TAGS (regime_name desiredType) in
  let pricing :=
    if typed then computePricingWith U LM STD M C desiredType else pricing_not_ok in
  let desiredPriceNew := if ok pricing then Some (price_new pricing) else None in
  let desiredAsLowAs :=
    if ok pricing && Regime_eqb desiredType Standard
       && Rgtb (as_low_as pricing) 0
    then Some (as_low_as pricing) else None in
  let tagDiff :=
    if typed then computeTagDiff (tagsArr p) (regime_name desiredType)
    else {| desiredTagsArr := tagsArr p; tags_to_add := [];
            tags_to_remove := []; doTags := false |} in
  let variantsToUpdate :=
    if negb missingMC && not_null desiredPriceNew
    then map variantId (filter (needs_price desiredPriceNew) (variants p))
    else [] in
  let doPrice := (0 <? List.length variantsToUpdate)%nat in
  let currentMf := toNumberOrNull (VText (asLowAsCurrent p)) in
  let doMetafield :=
    negb missingMC && Regime_eqb desiredType Standard
    && not_null desiredAsLowAs
    && negb (not_null currentMf
             && approxEqualMoney (of_nullable currentMf)
                                 (of_nullable desiredAsLowAs)) in
  let needsChange := doDraft || doTags tagDiff || doPrice || doMetafield in
  {| base := base; msrpGross := msrpGross; M_used := M; C_used := C;
     missingMC := missingMC; doDraft := doDraft; desiredType := desiredType;
     pricing := pricing; desiredPriceNew := desiredPriceNew;
     desiredAsLowAs := desiredAsLowAs; tagDiff := tagDiff;
     variantsToUpdate := variantsToUpdate; doPrice := doPrice;
     doMetafield := doMetafield; needsChange := needsChange |}.
End Engine.

(** ** The no-VAT script (with the FAIL-FAST structure checks) *)

Module NoVat.

Definition classifier : ClassifierCfg :=
  {| cl_d_max := 51 / 100; cl_ship_cost := 129 / 10; cl_cust_ship := 85 / 10;
     cl_aff_rate := 12 / 100; cl_other_rate := 455 / 10000; cl_vat := None |}.

Definition determineTypeArigato : R -> R -> list string -> Regime :=
  determineTypeWith classifier.

Definition U : CostPlus :=
  {| alpha := 25 / 100; beta := 120 / 100; gamma := 20 / 100;
     N_ := 35; K0 := 200; k_ := 200 |}.
Definition LM : CostPlus :=
  {| alpha := 40 / 100; beta := 90 / 100; gamma := 0;
     N_ := 35; K0 := 500; k_ := 300 |}.
Definition STD : StdParams :=
  {| d_max := 51 / 100; mu0 := 75 / 100; beta_disc := 0;
     gamma_M := 23 / 100; rho := 40 / 100; d_ref := 91 / 100;
     M_ref := 25000 |}.

Definition computePricing : R -> R -> Regime -> Pricing :=
  computePricingWith U LM STD.

(** [const M = msrpGross > 0 ? msrpGross : 0;] *)
Definition decide : Product -> Decision :=
  decideWith classifier U LM STD (fun msrpGross => msrpGross).

(** The five flags of a product's preview row. *)
Record Flags : Type := {
  f_doDraft : bool;
  f_doTags : bool;
  f_doPrice : bool;
  f_doMetafield : bool;
  f_needsChange : bool
}.

(** A product tagged CNFDNT is ignored: its preview row has every
    flag [false] and [main] continues with the next product. *)
Definition flags (p : Product) : Flags :=
  if hasCnfdnt (tagsArr p) then
    {| f_doDraft := false; f_doTags := false; f_doPrice := false;
       f_doMetafield := false; f_needsChange := false |}
  else
    let d := decide p in
    {| f_doDraft := doDraft d; f_doTags := doTags (tagDiff d);
       f_doPrice := doPrice d; f_doMetafield := doMetafield d;
       f_needsChange := needsChange d |}.

(** [base?.variantId || (p.variants[0]?.variantId ?? "")] *)
Definition primaryVariantId (p : Product) (d : Decision) : string :=
  let b := match base d with Some b => variantId b | None => "" end in
  if truthy b then b
  else match variants p with v :: _ => variantId v | [] => "" end.

(** The metafield cell of a product's rows: the new value for a
    standard product, the current one otherwise. *)
Definition mfCell (p : Product) (d : Decision) : Text :=
  if negb (missingMC d) && Regime_eqb (desiredType d) Standard
     && not_null (desiredAsLowAs d)
  then String_ (of_nullable (desiredAsLowAs d))
  else if Text_truthy (asLowAsCurrent p) then asLowAsCurrent p else Lit "".

Definition secondary_row (p : Product) (d : Decision) (cell : Text)
  (vid : string) : Row :=
  {| col_ID := productId p; col_Command := "UPDATE"; col_Tags := "";
     col_TagsCommand := ""; col_Status := ""; col_VariantID := vid;
     col_VariantCommand := "UPDATE";
     col_VariantPrice := String_ (of_nullable (desiredPriceNew d));
     col_Metafield := cell |}.

(** The rows of the full import file for one product. *)
Definition full_rows (p : Product) (d : Decision) : Outcome (list Row) :=
  let typed := negb (missingMC d)
               && includes TYPE_TAGS (regime_name (desiredType d)) in
  let fullDoTags := typed in
  let fullTagsCellOut :=
    if fullDoTags then join_tags (desiredTagsArr (tagDiff d)) else "" in
  let fullTagsCmdOut := if fullDoTags then "REPLACE" else "" in
  let fullMfCell := mfCell p d in
  let fullDoPrice :=
    typed && ok (pricing d) && not_null (desiredPriceNew d) in
  let pvid := primaryVariantId p d in
  let fullPrimaryHasPriceUpdate := fullDoPrice && truthy pvid in
  let idOut := if fullPrimaryHasPriceUpdate then pvid else "" in
  let cmdOut := if fullPrimaryHasPriceUpdate then "UPDATE" else "" in
  let priceOut :=
    if fullPrimaryHasPriceUpdate
    then String_ (of_nullable (desiredPriceNew d)) else Lit "" in
  if truthy idOut && negb (Text_truthy priceOut) then
    Throw "FAIL-FAST: FULL: Variant ID gesetzt, aber Variant Price leer."
  else
    let primary :=
      {| col_ID := productId p; col_Command := "UPDATE";
         col_Tags := fullTagsCellOut; col_TagsCommand := fullTagsCmdOut;
         col_Status := if doDraft d then "Draft" else "";
         col_VariantID := idOut; col_VariantCommand := cmdOut;
         col_VariantPrice := priceOut; col_Metafield := fullMfCell |} in
    let others :=
      if fullDoPrice then
        map (fun v => secondary_row p d fullMfCell (variantId v))
            (filter (fun v => negb (negb (truthy (variantId v))
                                    || String.eqb (variantId v) pvid))
                    (variants p))
      else [] in
    Done (primary :: others).

(** The rows of the only-changes import file for one product that
    needs a change. *)
Definition only_changes_rows (p : Product) (d : Decision) : Outcome (list Row) :=
  let cell := mfCell p d in
  let tagsCellOut :=
    if doTags (tagDiff d) then join_tags (desiredTagsArr (tagDiff d)) else "" in
  let tagsCmdOut := if doTags (tagDiff d) then "REPLACE" else "" in
  let pvid := primaryVariantId p d in
  let primaryHasPriceUpdate :=
    doPrice d && truthy pvid && includes (variantsToUpdate d) pvid in
  let idOut := if primaryHasPriceUpdate then pvid else "" in
  let cmdOut := if primaryHasPriceUpdate then "UPDATE" else "" in
  let priceOut :=
    if primaryHasPriceUpdate
    then String_ (of_nullable (desiredPriceNew d)) else Lit "" in
  if truthy idOut && negb (Text_truthy priceOut) then
    Throw "FAIL-FAST: ONLY-CHANGES: Variant ID gesetzt, aber Variant Price leer."
  else
    let primary :=
      {| col_ID := productId p; col_Command := "UPDATE";
         col_Tags := tagsCellOut; col_TagsCommand := tagsCmdOut;
         col_Status := if doDraft d then "Draft" else "";
         col_VariantID := idOut; col_VariantCommand := cmdOut;
         col_VariantPrice := priceOut; col_Metafield := cell |} in
    let others :=
      if doPrice d then
        map (secondary_row p d cell)
            (filter (fun vid => negb (negb (truthy vid) || String.eqb vid pvid))
                    (variantsToUpdate d))
      else [] in
    Done (primary :: others).

Record ChangeItem : Type := {
  ci_productId : string;
  ci_type : Regime;
  ci_doDraft : bool;
  ci_doTags : bool;
  ci_doPrice : bool;
  ci_doMetafield : bool
}.

(** What [main] has accumulated. *)
Record State : Type := {
  importFullRows : list Row;
  importOnlyChangesRows : list Row;
  changeItems : list ChangeItem;
  drafted : nat;
  cnfdntIgnored : nat
}.

Definition init : State :=
  {| importFullRows := []; importOnlyChangesRows := []; changeItems := [];
     drafted := 0; cnfdntIgnored := 0 |}.

(** The body of [for (const p of products.values())]. *)
Definition step (st : State) (p : Product) : Outcome State :=
  if hasCnfdnt (tagsArr p) then
    Done {| importFullRows := importFullRows st;
            importOnlyChangesRows := importOnlyChangesRows st;
            changeItems := changeItems st;
            drafted := drafted st;
            cnfdntIgnored := S (cnfdntIgnored st) |}
  else
    let d := decide p in
    let drafted' := if doDraft d then S (drafted st) else drafted st in
    full <- full_rows p d ;;
    if negb (needsChange d) then
      Done {| importFullRows := importFullRows st ++ full;
              importOnlyChangesRows := importOnlyChangesRows st;
              changeItems := changeItems st;
              drafted := drafted';
              cnfdntIgnored := cnfdntIgnored st |}
    else
      only <- only_changes_rows p d ;;
      Done {| importFullRows := importFullRows st ++ full;
              importOnlyChangesRows := importOnlyChangesRows st ++ only;
              changeItems :=
                changeItems st ++
                  [{| ci_productId := productId p; ci_type := desiredType d;
                      ci_doDraft := doDraft d; ci_doTags := doTags (tagDiff d);
                      ci_doPrice := doPrice d;
                      ci_doMetafield := doMetafield d |}];
              drafted := drafted';
              cnfdntIgnored := cnfdntIgnored st |}.

Fixpoint run (st : State) (products : list Product) : Outcome State :=
  match products with
  | [] => Done st
  | p :: rest => st' <- step st p ;; run st' rest
  end.

(** The loop of [main] over the products in first-encounter order. *)
Definition main_loop (products : list Product) : Outcome State :=
  run init products.

(** The test-20 selection: [[...pick(std, 8), ...pick(lm, 6),
    ...pick(used, 6)].slice(0, 20)]. *)
Definition of_type (t : Regime) (items : list ChangeItem) : list ChangeItem :=
  filter (fun x => Regime_eqb (ci_type x) t) items.

Definition picked (items : list ChangeItem) : list ChangeItem :=
  firstn 20 (firstn 8 (of_type Standard items)
             ++ firstn 6 (of_type LowMargin items)
             ++ firstn 6 (of_type Used items)).

Definition testRows (st : State) : list Row :=
  let pickedIds := map ci_productId (picked (changeItems st)) in
  filter (fun r => includes pickedIds (col_ID r)) (importOnlyChangesRows st).

End NoVat.

(** ** The VAT predecessor of the no-VAT script *)

Module Vat.

Definition T_VAT : R := 20 / 100.

Definition classifier : ClassifierCfg :=
  {| cl_d_max := 55 / 100; cl_ship_cost := 129 / 10; cl_cust_ship := 85 / 10;
     cl_aff_rate := 12 / 100; cl_other_rate := 455 / 10000;
     cl_vat := Some T_VAT |}.

Definition determineTypeArigato : R -> R -> list string -> Regime :=
  determineTypeWith classifier.

Definition U : CostPlus :=
  {| alpha := 15 / 100; beta := 110 / 100; gamma := 20 / 100;
     N_ := 40; K0 := 500; k_ := 500 |}.
Definition LM : CostPlus :=
  {| alpha := 16 / 100; beta := 25 / 100; gamma := 40 / 100;
     N_ := 35; K0 := 300; k_ := 500 |}.
Definition STD : StdParams :=
  {| d_max := 50 / 100; mu0 := 75 / 100; beta_disc := 20 / 100;
     gamma_M := 23 / 100; rho := 60 / 100; d_ref := 90 / 100;
     M_ref := 25000 |}.

Definition computePricing : R -> R -> Regime -> Pricing :=
  computePricingWith U LM STD.

(** [const M_net = msrpGross > 0 ? (msrpGross / (1 + T_VAT)) : 0;] *)
Definition decide : Product -> Decision :=
  decideWith classifier U LM STD (fun msrpGross => msrpGross / (1 + T_VAT)).

(** [base?.variantId || (p.variants[0]?.variantId ?? "")] *)
Definition primaryVariantId (p : Product) (d : Decision) : string :=
  let b := match base d with Some b => variantId b | None => "" end in
  if truthy b then b
  else match variants p with v :: _ => variantId v | [] => "" end.

(** "Metafield safety": the new value when the metafield changes, the
    current one otherwise. *)
Definition mfCell (p : Product) (d : Decision) : Text :=
  if doMetafield d then String_ (of_nullable (desiredAsLowAs d))
  else if Text_truthy (asLowAsCurrent p) then asLowAsCurrent p else Lit "".

Definition secondary_row (p : Product) (d : Decision) (cell : Text)
  (vid : string) : Row :=
  {| col_ID := productId p; col_Command := "UPDATE"; col_Tags := "";
     col_TagsCommand := ""; col_Status := ""; col_VariantID := vid;
     col_VariantCommand := "UPDATE";
     col_VariantPrice := String_ (of_nullable (desiredPriceNew d));
     col_Metafield := cell |}.

(** The rows [main] pushes for one product that needs a change. *)
Definition only_changes_rows (p : Product) (d : Decision) : list Row :=
  let pvid := primaryVariantId p d in
  let cell := mfCell p d in
  let tagsCellOut :=
    if doTags (tagDiff d) then join_tags (desiredTagsArr (tagDiff d)) else "" in
  let tagsCmdOut := if doTags (tagDiff d) then "REPLACE" else "" in
  let primaryHasPriceUpdate :=
    doPrice d && truthy pvid && includes (variantsToUpdate d) pvid in
  let primary :=
    {| col_ID := productId p; col_Command := "UPDATE";
       col_Tags := tagsCellOut; col_TagsCommand := tagsCmdOut;
       col_Status := if doDraft d then "Draft" else "";
       col_VariantID := pvid;
       col_VariantCommand := if primaryHasPriceUpdate then "UPDATE" else "";
       col_VariantPrice :=
         if primaryHasPriceUpdate
         then String_ (of_nullable (desiredPriceNew d)) else Lit "";
       col_Metafield := cell |} in
  let others :=
    if doPrice d then
      map (secondary_row p d cell)
          (filter (fun vid => negb (negb (truthy vid) || String.eqb vid pvid))
                  (variantsToUpdate d))
    else [] in
  primary :: others.

(** The rows of the only-changes file for a product: none when nothing
    changes. *)
Definition rows (p : Product) : list Row :=
  let d := decide p in
  if negb (needsChange d) then [] else only_changes_rows p d.

End Vat.

(** ** [src/matrixify-run.mjs] *)

Module MatrixifyRun.

Definition T_VAT : R := 20 / 100.

Definition classifier : ClassifierCfg := Vat.classifier.

Definition determineTypeArigato : R -> R -> list string -> Regime :=
  determineTypeWith classifier.

Definition U : CostPlus :=
  {| alpha := 15 / 100; beta := 110 / 100; gamma := 20 / 100;
     N_ := 40; K0 := 500; k_ := 500 |}.
Definition LM : CostPlus :=
  {| alpha := 16 / 100; beta := 25 / 100; gamma := 40 / 100;
     N_ := 35; K0 := 300; k_ := 500 |}.
Definition STD : StdParams :=
  {| d_max := 50 / 100; mu0 := 75 / 100; beta_disc := 20 / 100;
     gamma_M := 23 / 100; rho := 60 / 100; d_ref := 90 / 100;
     M_ref := 25000 |}.

Definition computePricing : R -> R -> Regime -> Pricing :=
  computePricingWith U LM STD.

(** [function toNumberOrNull(x) { const s = String(x ?? "").trim();
    if (!s) return null; const n = Number(s.replace(",", "."));
    return Number.isFinite(n) ? n : null; }] *)
Definition toNumberOrNull (x : JSVal) : option R :=
  let s := Text_trim (String_ (nullish x (VStr ""))) in
  if negb (Text_truthy s) then None
  else finite_or_null (Number_ (Text_replace_comma s)).

(** A variant as [readMatrixify] pushes it; a column the record lacks
    reads as the empty string ([vals[i] ?? ""], then [|| ""]). *)
Definition variant_of_row (rVid rPos rPrice rCompare rCost : string) : Variant :=
  {| variantId := rVid;
     pos := orElse (toNumberOrNull (VStr rPos)) POS_SENTINEL;
     price := toNumberOrNull (VStr rPrice);
     compareAt := toNumberOrNull (VStr rCompare);
     cost := toNumberOrNull (VStr rCost) |}.

(** [Array.prototype.sort] with [(a, b) => a.position - b.position]:
    a stable sort, here by insertion. *)
Fixpoint insert_by_position (v : Variant) (sorted : list Variant) : list Variant :=
  match sorted with
  | [] => [v]
  | w :: rest =>
      if Rltb (pos w - pos v) 0 then w :: insert_by_position v rest
      else if Rgtb (pos w - pos v) 0 then v :: sorted
      else w :: insert_by_position v rest
  end.

Definition sort_by_position (vs : list Variant) : list Variant :=
  fold_left (fun sorted v => insert_by_position v sorted) vs [].

(** [function pickBaseVariant(p)]: the first of the sorted copy. *)
Definition pickBaseVariant (vs : list Variant) : option Variant :=
  match sort_by_position vs with
  | v :: _ => Some v
  | [] => None
  end.

(** One pass of the selection over a list of product ids: stop at
    [TEST_SIZE], skip an id already picked. *)
Fixpoint add_upto (TEST_SIZE : nat) (pids pick : list string) : list string :=
  match pids with
  | [] => pick
  | pid :: rest =>
      if (TEST_SIZE <=? List.length pick)%nat then pick
      else add_upto TEST_SIZE rest
             (if negb (includes pick pid) then pick ++ [pid] else pick)
  end.

(** [for (const t of wantOrder) { ...; if (pick.length >= TEST_SIZE)
    break; }] *)
Fixpoint pick_in_order (TEST_SIZE : nat) (groups : list (list string))
  (pick : list string) : list string :=
  match groups with
  | [] => pick
  | g :: rest =>
      let pick' := add_upto TEST_SIZE g pick in
      if (TEST_SIZE <=? List.length pick')%nat then pick'
      else pick_in_order TEST_SIZE rest pick'
  end.

(** The test selection of [main]: the ids of the changed products by
    type, in the order standard, low-margin, used, then the fallback
    over all three. *)
Definition pick (TEST_SIZE : nat) (std lm used : list string) : list string :=
  let pick := pick_in_order TEST_SIZE [std; lm; used] [] in
  if (List.length pick <? TEST_SIZE)%nat
  then add_upto TEST_SIZE (std ++ lm ++ used) pick
  else pick.

End MatrixifyRun.

(** ** The dependency-free CSV processor *)

Module Processor.

Record ChangeMeta : Type := {
  cm_productId : string;
  cm_type : Regime;
  cm_doDraft : bool;
  cm_needsChange : bool
}.

Definition same_id (x y : ChangeMeta) : bool :=
  String.eqb (cm_productId y) (cm_productId x).

(** [addSome(arr, n)] inside [pickMixedTestProducts]. *)
Fixpoint addSome (count : nat) (n : nat) (arr picked : list ChangeMeta)
  : list ChangeMeta :=
  match arr with
  | [] => picked
  | x :: rest =>
      if (count <=? List.length picked)%nat then picked
      else if existsb (same_id x) picked then addSome count n rest picked
      else
        let picked' := picked ++ [x] in
        if (n <=? List.length (filter (same_id x) picked'))%nat
        then addSome count n rest picked'
        else if (count <=? List.length picked')%nat then picked'
        else addSome count n rest picked'
  end.

(** The final loop "Fill remainder from all changed". *)
Fixpoint fill (count : nat) (changed picked : list ChangeMeta)
  : list ChangeMeta :=
  match changed with
  | [] => picked
  | x :: rest =>
      if (count <=? List.length picked)%nat then picked
      else if existsb (same_id x) picked then fill count rest picked
      else fill count rest (picked ++ [x])
  end.

(** [pickMixedTestProducts(list, count)] *)
Definition pickMixedTestProducts (changed : list ChangeMeta) (count : nat)
  : list ChangeMeta :=
  let draft := filter cm_doDraft changed in
  let used := filter (fun x => Regime_eqb (cm_type x) Used && negb (cm_doDraft x)) changed in
  let std := filter (fun x => Regime_eqb (cm_type x) Standard && negb (cm_doDraft x)) changed in
  let lm := filter (fun x => Regime_eqb (cm_type x) LowMargin && negb (cm_doDraft x)) changed in
  let picked := addSome count (Nat.min 3 count) draft [] in
  let picked := addSome count (Nat.min 5 count) used picked in
  let picked := addSome count (Nat.min 8 count) std picked in
  let picked := addSome count (Nat.min 8 count) lm picked in
  let picked := fill count changed picked in
  firstn count picked.

End Processor.

(** The changed products in the order [pickMixedTestProducts] goes
    through them: the drafted ones, then those not drafted of type
    used, standard and low-margin, then the rest, each group in the
    order of the list. *)
Definition processor_order (changed : list Processor.ChangeMeta)
  : list Processor.ChangeMeta :=
  filter Processor.cm_doDraft changed
  ++ filter (fun x => Regime_eqb (Processor.cm_type x) Used
                      && negb (Processor.cm_doDraft x)) changed
  ++ filter (fun x => Regime_eqb (Processor.cm_type x) Standard
                      && negb (Processor.cm_doDraft x)) changed
  ++ filter (fun x => Regime_eqb (Processor.cm_type x) LowMargin
                      && negb (Processor.cm_doDraft x)) changed
  ++ filter (fun x => Regime_eqb (Processor.cm_type x) Skip
                      && negb (Processor.cm_doDraft x)) changed.

(** ** The instructions of a run, simulated as applied *)

(** A scheduled variant gets the new price. *)
Definition set_price (vids : list string) (newPrice : option R) (v : Variant)
  : Variant :=
  if includes vids (variantId v) then
    {| variantId := variantId v; pos := pos v; price := newPrice;
       compareAt := compareAt v; cost := cost v |}
  else v.

(** The product after the instructions decided in [d] are applied:
    status Draft when drafting is scheduled, the tags replaced by
    [desiredTags] when a tag change is scheduled (or always, with
    [tagsAlways]), the metafield set to the text of the new value when
    its change is scheduled (or whenever there is a new value, with
    [mfAlways]: the rows of a standard product always carry it), and
    every scheduled variant set to the new price. *)
Definition apply_instructions (tagsAlways mfAlways : bool) (p : Product)
  (d : Decision) : Product :=
  {| productId := productId p;
     title := title p;
     handle := handle p;
     status := if doDraft d then "Draft" else status p;
     tagsArr :=
       if doTags (tagDiff d) || tagsAlways
       then desiredTagsArr (tagDiff d) else tagsArr p;
     asLowAsCurrent :=
       if doMetafield d || (mfAlways && not_null (desiredAsLowAs d))
       then String_ (of_nullable (desiredAsLowAs d))
       else asLowAsCurrent p;
     variants :=
       map (set_price (variantsToUpdate d) (desiredPriceNew d)) (variants p) |}.

(** The no-VAT script emits nothing for a product tagged CNFDNT. *)
Definition NoVat_applied (tagsAlways mfAlways : bool) (p : Product) : Product :=
  if hasCnfdnt (tagsArr p) then p
  else apply_instructions tagsAlways mfAlways p (NoVat.decide p).

(** ** Row and state invariants *)

(** The guard [!missingMC && TYPE_TAGS.includes(desiredType)] of [main]. *)
Definition typed (d : Decision) : bool :=
  negb (missingMC d) && includes TYPE_TAGS (regime_name (desiredType d)).

(** Reference prices and costs between one cent and a billion: at these
    magnitudes the double arithmetic of [computePricing] neither
    overflows nor underflows, and its results are finite numbers. *)
Definition in_range (x : R) : Prop := 1 / 100 <= x <= 1000000000.

(** A product that is priced has its reference price and its cost in
    that range. *)
Definition priced_in_range (d : Decision) : Prop :=
  missingMC d = false -> in_range (M_used d) /\ in_range (C_used d).

(** A row that names a variant carries a price for it. *)
Definition row_ok (r : Row) : Prop :=
  truthy (col_VariantID r) = true -> Text_truthy (col_VariantPrice r) = true.

Definition state_ok (st : NoVat.State) : Prop :=
  Forall row_ok (NoVat.importFullRows st)
  /\ Forall row_ok (NoVat.importOnlyChangesRows st).

(** What the passes of [pickMixedTestProducts] keep true of the
    products picked so far: distinct ids, all of them among [S]. *)
Definition picked_ok (S : list string) (picked : list Processor.ChangeMeta)
  : Prop :=
  NoDup (map Processor.cm_productId picked)
  /\ incl (map Processor.cm_productId picked) S.

(** What a secondary row carries, given the decision and the primary
    row of its product. *)
Definition secondary_shape (d : Decision) (pvid : string) (primary r : Row)
  : Prop :=
  col_Tags r = "" /\ col_TagsCommand r = "" /\ col_Status r = ""
  /\ col_Command r = "UPDATE" /\ col_VariantCommand r = "UPDATE"
  /\ col_ID r = col_ID primary
  /\ col_Metafield r = col_Metafield primary
  /\ col_VariantID r <> "" /\ col_VariantID r <> pvid
  /\ In (col_VariantID r) (variantsToUpdate d)
  /\ exists x, desiredPriceNew d = Some x /\ col_VariantPrice r = NumStr x.

(** ** Example data *)

(** A product without a reference price (worked scenario 4). *)
Definition no_reference_price : Product :=
  {| productId := "2"; title := "Lamp"; handle := "lamp";
     status := "Active"; tagsArr := ["Sale"]; asLowAsCurrent := Lit "";
     variants :=
       [ {| variantId := "v9"; pos := 1; price := Some 20;
            compareAt := None; cost := Some 10 |} ] |}.

(** A low-margin product with two variants priced 50 and 60 and a
    current advertised-from value. *)
Definition two_variants : Product :=
  {| productId := "1"; title := "Chair"; handle := "chair";
     status := "Active"; tagsArr := []; asLowAsCurrent := Lit "12.50";
     variants :=
       [ {| variantId := "v1"; pos := 1; price := Some 50;
            compareAt := Some 100; cost := Some 100 |};
         {| variantId := "v2"; pos := 2; price := Some 60;
            compareAt := Some 100; cost := Some 100 |} ] |}.

(** Seven changed products of type [used], ids 1 to 7. *)
Definition seven_used : list NoVat.ChangeItem :=
  map (fun id => {| NoVat.ci_productId := id; NoVat.ci_type := Used;
                    NoVat.ci_doDraft := false; NoVat.ci_doTags := true;
                    NoVat.ci_doPrice := false;
                    NoVat.ci_doMetafield := false |})
      ["1"; "2"; "3"; "4"; "5"; "6"; "7"].

(** Four changed products of the processor: a standard one, a drafted
    one, a low-margin one and a used one. *)
Definition mixed_changes : list Processor.ChangeMeta :=
  [ {| Processor.cm_productId := "21"; Processor.cm_type := Standard;
       Processor.cm_doDraft := false; Processor.cm_needsChange := true |};
    {| Processor.cm_productId := "22"; Processor.cm_type := Skip;
       Processor.cm_doDraft := true; Processor.cm_needsChange := true |};
    {| Processor.cm_productId := "23"; Processor.cm_type := LowMargin;
       Processor.cm_doDraft := false; Processor.cm_needsChange := true |};
    {| Processor.cm_productId := "24"; Processor.cm_type := Used;
       Processor.cm_doDraft := false; Processor.cm_needsChange := true |} ].

(** * The record reader and writer *)

(** ** CSV lines *)

Definition quote_str : string := String dquote EmptyString.

(** [parseCsvLine(line, delim)]: the loop over the characters, with the
    field being built, the quote state and the fields already closed. *)
Fixpoint parse_loop (delim : ascii) (line cur : string) (inQ : bool)
  (out : list string) : list string :=
  match line with
  | EmptyString => out ++ [cur]
  | String ch rest =>
      if Ascii.eqb ch dquote then
        match rest with
        | String ch2 rest2 =>
            if inQ && Ascii.eqb ch2 dquote
            then parse_loop delim rest2 (String.append cur quote_str) inQ out
            else parse_loop delim rest cur (negb inQ) out
        | EmptyString => parse_loop delim rest cur (negb inQ) out
        end
      else if negb inQ && Ascii.eqb ch delim
      then parse_loop delim rest EmptyString inQ (out ++ [cur])
      else parse_loop delim rest (String.append cur (String ch EmptyString))
             inQ out
  end.

Definition parseCsvLine (line : string) (delim : ascii) : list string :=
  parse_loop delim line EmptyString false [].

(** [isCsvRecordComplete(s)]: the same quote automaton, without the
    fields. *)
Fixpoint complete_loop (s : string) (inQ : bool) : bool :=
  match s with
  | EmptyString => negb inQ
  | String ch rest =>
      if Ascii.eqb ch dquote then
        match rest with
        | String ch2 rest2 =>
            if inQ && Ascii.eqb ch2 dquote then complete_loop rest2 inQ
            else complete_loop rest (negb inQ)
        | EmptyString => complete_loop rest (negb inQ)
        end
      else complete_loop rest inQ
  end.

Definition isCsvRecordComplete (s : string) : bool := complete_loop s false.

(** [s.includes(c)] for a character. *)
Fixpoint has_char (c : ascii) (s : string) : bool :=
  match s with
  | EmptyString => false
  | String ch rest => Ascii.eqb ch c || has_char c rest
  end.

Definition LF : ascii := ascii_of_nat 10.
Definition CR : ascii := ascii_of_nat 13.

(** [s.replaceAll]: every double quote becomes two. *)
Fixpoint double_quotes (s : string) : string :=
  match s with
  | EmptyString => EmptyString
  | String ch rest =>
      if Ascii.eqb ch dquote
      then String dquote (String dquote (double_quotes rest))
      else String ch (double_quotes rest)
  end.

(** [csvEscape(v)] of the no-VAT script and its predecessor, on the
    string [String(v ?? "")]. *)
Definition csvEscape (s : string) : string :=
  if has_char dquote s || has_char "," s || has_char LF s || has_char CR s
     || has_char ";" s
  then String dquote (String.append (double_quotes s) quote_str)
  else s.

(** One line of [writeCsv]: [cells.map(csvEscape).join(",")]. *)
Definition csv_line (cells : list string) : string :=
  String.concat "," (map csvEscape cells).

(** The number of double quotes of a string. *)
Fixpoint count_quotes (s : string) : nat :=
  match s with
  | EmptyString => 0
  | String ch rest => (if Ascii.eqb ch dquote then 1 else 0) + count_quotes rest
  end.

(** What may follow a field on a line: nothing, or a comma. *)
Definition field_end (rest : string) : Prop :=
  rest = EmptyString \/ exists r, rest = String "," r.

(** ** Tag cells *)

(** [s.split(sep)] for a one-character separator. *)
Fixpoint split (sep : ascii) (s : string) : list string :=
  match s with
  | EmptyString => [EmptyString]
  | String c r =>
      if Ascii.eqb c sep then EmptyString :: split sep r
      else match split sep r with
           | h :: t => String c h :: t
           | [] => [String c EmptyString]
           end
  end.

(** [parseTags(tagsCell)] *)
Definition parseTags (tagsCell : string) : list string :=
  let raw := trim tagsCell in
  if negb (truthy raw) then []
  else filter truthy (map trim (split "," raw)).

(** A string that is empty or starts with a character that is no white
    space. *)
Definition starts_clean (s : string) : Prop :=
  match s with
  | EmptyString => True
  | String c _ => is_space c = false
  end.

(** A tag as [parseTags] yields them: not empty, trimmed, no comma. *)
Definition tag_ok (t : string) : Prop :=
  t <> EmptyString /\ trim t = t /\ has_char "," t = false.









(** ** The output of the main loop *)

(** The products [main] writes only-changes rows for. *)
Definition changes (p : Product) : bool :=
  negb (hasCnfdnt (tagsArr p)) && needsChange (NoVat.decide p).

(** The rows of a computation that completed. *)
Definition rows_of (o : Outcome (list Row)) : list Row :=
  match o with
  | Done rows => rows
  | Throw _ => []
  end.

(** A product of the VAT predecessor whose single variant already has
    the target price and whose tags lack the type tag. *)
Definition tag_only : Product :=
  {| productId := "3"; title := "Desk"; handle := "desk";
     status := "Active"; tagsArr := ["Sale"]; asLowAsCurrent := Lit "";
     variants :=
       [ {| variantId := "v5"; pos := 1; price := Some 100;
            compareAt := Some 120; cost := Some 100 |} ] |}.

(** ** [src/matrixify-run.mjs]: decisions and row builders *)

Module MatrixifyMain.

(** A product as [readMatrixify] groups it. *)
Record MProduct : Type := {
  m_id : string;
  m_handle : string;
  m_title : string;
  m_status : string;
  m_tagsRaw : string;
  m_asLowAsRaw : string;
  m_variants : list Variant
}.

(** [function splitTags(s)] *)
Definition splitTags (s : string) : list string :=
  if negb (truthy s) then []
  else filter truthy (map trim (split "," s)).

(** [Number(a)] for a number or [null]: [null] converts to 0, a
    number stays what it is, finite or not. *)
Definition Number_of_nullable (a : option JSNumber) : JSNumber :=
  match a with
  | Some n => n
  | None => Fin 0
  end.

(** [Number.isFinite(n)] *)
Definition Number_isFinite (n : JSNumber) : bool :=
  match n with
  | Fin _ => true
  | NotFinite => false
  end.

(** [approxEqualMoney(a, b)] on numbers and [null]. *)
Definition approxEqualMoney (a b : option JSNumber) : bool :=
  let na := Number_of_nullable a in
  let nb := Number_of_nullable b in
  if negb (Number_isFinite na) || negb (Number_isFinite nb) then false
  else
    match na, nb with
    | Fin x, Fin y => Rltb (Rabs (x - y)) (5 / 1000)
    | _, _ => false
    end.

(** A number read from a cell, finite or [null], as a value. *)
Definition finite (o : option R) : option JSNumber := option_map Fin o.

(** [x != null] *)
Definition non_null {A : Type} (o : option A) : bool :=
  match o with
  | Some _ => true
  | None => false
  end.

(** The text [x.toFixed(2)] of a number, or a string given by its
    characters. *)
Inductive Cell : Type :=
  | CLit (s : string)
  | CFixed2 (x : R).

Definition Cell_empty (c : Cell) : bool :=
  match c with
  | CLit s => negb (truthy s)
  | CFixed2 _ => false
  end.

(** [function fmt2(n)]: empty for [null] and for a number that is not
    finite. *)
Definition fmt2 (n : option JSNumber) : Cell :=
  match n with
  | None => CLit ""
  | Some m =>
      if negb (Number_isFinite m) then CLit ""
      else match m with
           | Fin x => CFixed2 (Math_round (x * 100) / 100)
           | NotFinite => CLit ""
           end
  end.

(** [{ variantId: v.variantId, priceNew }] *)
Record VariantUpdate : Type := {
  vu_variantId : string;
  vu_priceNew : option JSNumber
}.

(** The object [computed] of [main]. *)
Record Computed : Type := {
  c_type : Regime;
  c_msrpGross : option R;
  c_M_net : R;
  c_C_net : R;
  c_doDraft : bool;
  c_doTags : bool;
  c_tags_to_add : list string;
  c_tags_to_remove : list string;
  c_desiredTags : list string;
  c_variantUpdates : list VariantUpdate;
  c_doMetafield : bool;
  c_priceNew : option JSNumber;
  c_asLowAsNew : option JSNumber;
  c_needsChange : bool;
  c_canPriceWrite : bool
}.

(** [!currentAsLowAs]: [null] and 0 are falsy. *)
Definition falsy_number (o : option R) : bool :=
  match o with
  | None => true
  | Some x => negb (Rltb x 0 || Rgtb x 0)
  end.

(** The body of the loop of [main] up to [computed]; what
    [computePricing] returns is a number of the real model, so a finite
    one. *)
Definition decide (p : MProduct) : Computed :=
  let tags := splitTags (m_tagsRaw p) in
  let base := MatrixifyRun.pickBaseVariant (m_variants p) in
  let msrpGross := match base with Some b => compareAt b | None => None end in
  let M_net :=
    match msrpGross with
    | Some g => if Rgtb g 0 then g / (1 + MatrixifyRun.T_VAT) else 0
    | None => 0
    end in
  let C_net := orElse (match base with Some b => cost b | None => None end) 0 in
  let missingMC := negb (Rgtb M_net 0 && Rgtb C_net 0) in
  let doDraft :=
    missingMC && negb (String.eqb (toLowerCase (m_status p)) "draft") in
  let type :=
    if missingMC then Skip
    else MatrixifyRun.determineTypeArigato M_net C_net tags in
  let typed := negb missingMC
               && includes ["used"; "standard"; "low-margin"] (regime_name type) in
  let pricing :=
    if typed then MatrixifyRun.computePricing M_net C_net type
    else pricing_not_ok in
  let priceNew :=
    if ok pricing then Some (Fin (price_new pricing)) else None in
  let asLowAsNew :=
    if ok pricing && Regime_eqb type Standard && Rgtb (as_low_as pricing) 0
    then Some (Fin (as_low_as pricing)) else None in
  let tagOps :=
    if typed then computeTagOps tags (regime_name type)
    else {| desiredTagsArr := tags; tags_to_add := []; tags_to_remove := [];
            doTags := false |} in
  let variantUpdates :=
    if negb missingMC && non_null priceNew then
      map (fun v => {| vu_variantId := variantId v; vu_priceNew := priceNew |})
          (filter (fun v => truthy (variantId v)
                            && negb (approxEqualMoney (finite (price v))
                                                      priceNew))
                  (m_variants p))
    else [] in
  let currentAsLowAs := MatrixifyRun.toNumberOrNull (VStr (m_asLowAsRaw p)) in
  let doMetafield :=
    negb missingMC && Regime_eqb type Standard && non_null asLowAsNew
    && (falsy_number currentAsLowAs
        || negb (approxEqualMoney (finite currentAsLowAs) asLowAsNew)) in
  let needsChange :=
    doDraft || doTags tagOps || (0 <? List.length variantUpdates)%nat
    || doMetafield in
  {| c_type := type; c_msrpGross := msrpGross; c_M_net := M_net;
     c_C_net := C_net; c_doDraft := doDraft; c_doTags := doTags tagOps;
     c_tags_to_add := tags_to_add tagOps;
     c_tags_to_remove := tags_to_remove tagOps;
     c_desiredTags := desiredTagsArr tagOps;
     c_variantUpdates := variantUpdates; c_doMetafield := doMetafield;
     c_priceNew := priceNew; c_asLowAsNew := asLowAsNew;
     c_needsChange := needsChange;
     c_canPriceWrite := typed |}.

(** A row of the import files of this script, by column. *)
Record MRow : Type := {
  mr_ID : string;
  mr_Handle : string;
  mr_Title : string;
  mr_Command : string;
  mr_Tags : string;
  mr_TagsCommand : string;
  mr_Status : string;
  mr_Metafield : Cell;
  mr_VariantID : string;
  mr_VariantCommand : string;
  mr_VariantPrice : Cell
}.

(** [function baseImportRow(p)] *)
Definition baseImportRow (p : MProduct) : MRow :=
  {| mr_ID := m_id p; mr_Handle := m_handle p; mr_Title := m_title p;
     mr_Command := "UPDATE"; mr_Tags := ""; mr_TagsCommand := "";
     mr_Status := ""; mr_Metafield := CLit ""; mr_VariantID := "";
     mr_VariantCommand := ""; mr_VariantPrice := CLit "" |}.

(** [function attachProductFields(row, computed)] *)
Definition attachProductFields (row : MRow) (computed : Computed) : MRow :=
  {| mr_ID := mr_ID row; mr_Handle := mr_Handle row; mr_Title := mr_Title row;
     mr_Command := mr_Command row;
     mr_Tags := if c_doTags computed then join_tags (c_desiredTags computed)
                else mr_Tags row;
     mr_TagsCommand := if c_doTags computed then "REPLACE"
                       else mr_TagsCommand row;
     mr_Status := if c_doDraft computed then "Draft" else mr_Status row;
     mr_Metafield := if c_doMetafield computed then fmt2 (c_asLowAsNew computed)
                     else mr_Metafield row;
     mr_VariantID := mr_VariantID row;
     mr_VariantCommand := mr_VariantCommand row;
     mr_VariantPrice := mr_VariantPrice row |}.

Definition with_variant (row : MRow) (vid : string)
  (priceNew : option JSNumber) : MRow :=
  {| mr_ID := mr_ID row; mr_Handle := mr_Handle row; mr_Title := mr_Title row;
     mr_Command := mr_Command row; mr_Tags := mr_Tags row;
     mr_TagsCommand := mr_TagsCommand row; mr_Status := mr_Status row;
     mr_Metafield := mr_Metafield row;
     mr_VariantID := vid; mr_VariantCommand := "UPDATE";
     mr_VariantPrice := fmt2 priceNew |}.

(** [forEach((x, idx) => ...)] where only index 0 gets the product
    fields. *)
Definition on_first {A : Type} (f : bool -> A -> MRow) (l : list A) : list MRow :=
  match l with
  | [] => []
  | x :: rest => f true x :: map (f false) rest
  end.

(** [function buildOnlyChangesRows(p, computed)] *)
Definition buildOnlyChangesRows (p : MProduct) (computed : Computed) : list MRow :=
  if (0 <? List.length (c_variantUpdates computed))%nat then
    on_first
      (fun first vu =>
         let r := with_variant (baseImportRow p) (vu_variantId vu)
                    (vu_priceNew vu) in
         if first then attachProductFields r computed else r)
      (c_variantUpdates computed)
  else [attachProductFields (baseImportRow p) computed].

(** [function buildFullFixedRows(p, computed)] *)
Definition buildFullFixedRows (p : MProduct) (computed : Computed) : list MRow :=
  let vars := filter (fun v => truthy (variantId v)) (m_variants p) in
  if (List.length vars =? 0)%nat then
    [attachProductFields (baseImportRow p) computed]
  else
    on_first
      (fun first v =>
         let r0 := baseImportRow p in
         let r :=
           if non_null (c_priceNew computed) && c_canPriceWrite computed
           then with_variant r0 (variantId v) (c_priceNew computed)
           else r0 in
         if first then attachProductFields r computed else r)
      (MatrixifyRun.sort_by_position vars).

(** The product as the other scripts hold it: tags split, the
    metafield cell as text. *)
Definition to_product (p : MProduct) : Product :=
  {| productId := m_id p; title := m_title p; handle := m_handle p;
     status := m_status p; tagsArr := splitTags (m_tagsRaw p);
     asLowAsCurrent := Lit (m_asLowAsRaw p); variants := m_variants p |}.

End MatrixifyMain.

(** The product-level columns of a row are empty. *)
Definition product_fields_empty (r : MatrixifyMain.MRow) : Prop :=
  MatrixifyMain.mr_Tags r = EmptyString
  /\ MatrixifyMain.mr_TagsCommand r = EmptyString
  /\ MatrixifyMain.mr_Status r = EmptyString
  /\ MatrixifyMain.mr_Metafield r = MatrixifyMain.CLit EmptyString.

(** The three variant columns of a row. *)
Definition variant_columns (r : MatrixifyMain.MRow)
  : string * string * MatrixifyMain.Cell :=
  (MatrixifyMain.mr_VariantID r, MatrixifyMain.mr_VariantCommand r,
   MatrixifyMain.mr_VariantPrice r).

(** A product as [readMatrixify] groups it: one variant with the
    compare-at price 120 (gross) and the cost 60. *)
Definition one_variant : MatrixifyMain.MProduct :=
  {| MatrixifyMain.m_id := "7"; MatrixifyMain.m_handle := "lamp";
     MatrixifyMain.m_title := "Lamp"; MatrixifyMain.m_status := "active";
     MatrixifyMain.m_tagsRaw := "Sale"; MatrixifyMain.m_asLowAsRaw := "";
     MatrixifyMain.m_variants :=
       [ {| variantId := "v1"; pos := 1; price := Some 50;
            compareAt := Some 120; cost := Some 60 |} ] |}.

(** ** Tag helpers of the dependency-free CSV processor *)

Module ProcessorTags.

(** [function computeDesiredTags(currentTags, desiredType)] *)
Definition computeDesiredTags (currentTags : list string) (desiredType : string)
  : list string :=
  let cur := currentTags in
  let curLower := map normTag cur in
  let cleaned := filter not_type_tag cur in
  if includes TYPE_TAGS desiredType && negb (includes curLower desiredType)
  then cleaned ++ [desiredType]
  else cleaned.

(** [Array.prototype.sort()] on strings orders them by their
    characters; two strings that compare equal are the same string, so
    the sorted array does not depend on the algorithm. *)
Fixpoint insert_sorted (x : string) (sorted : list string) : list string :=
  match sorted with
  | [] => [x]
  | y :: rest =>
      if String.leb x y then x :: sorted else y :: insert_sorted x rest
  end.

Definition sort (l : list string) : list string :=
  fold_right insert_sorted [] l.

(** [function tagsChanged(aTags, bTags)]; [JSON.stringify] gives two
    arrays of strings the same text exactly when they are equal. *)
Definition tagsChanged (aTags bTags : list string) : bool :=
  let a := sort (map normTag aTags) in
  let b := sort (map normTag bTags) in
  if list_eq_dec string_dec a b then false else true.

(** [function tagsToAddRemove(currentTags, desiredType)] *)
Definition tagsToAddRemove (currentTags : list string) (desiredType : string)
  : list string * list string :=
  let curLower := map normTag currentTags in
  let tags_to_add :=
    if includes TYPE_TAGS desiredType && negb (includes curLower desiredType)
    then [desiredType] else [] in
  let tags_to_remove := other_type_tags curLower desiredType in
  (tags_to_add, tags_to_remove).

(** The tag decision of the main loop: [desiredTagsArr], [doTags] and
    the two lists of the change record. *)
Definition tagDecision (missingMC : bool) (currentTagsArr : list string)
  (desiredType : string) : TagDiff :=
  let desiredTagsArr :=
    if negb missingMC && includes TYPE_TAGS desiredType
    then computeDesiredTags currentTagsArr desiredType
    else currentTagsArr in
  let doTags := tagsChanged currentTagsArr desiredTagsArr in
  let ar := if doTags then tagsToAddRemove currentTagsArr desiredType
            else ([], []) in
  {| desiredTagsArr := desiredTagsArr; tags_to_add := fst ar;
     tags_to_remove := snd ar; doTags := doTags |}.

End ProcessorTags.

(** ** The no-VAT script: grouping the records into products *)

Module Ingest.

(** The object [idx]: the column of each field in the header, [None]
    for the index -1 of a column the header lacks. *)
Record Idx : Type := {
  ID : option nat;
  HANDLE : option nat;
  TITLE : option nat;
  TAGS : option nat;
  STATUS : option nat;
  VARIANT_ID : option nat;
  VARIANT_POS : option nat;
  VARIANT_PRICE : option nat;
  VARIANT_COMPARE : option nat;
  VARIANT_COST : option nat;
  MF_ASLOWAS : option nat
}.

(** [cells[i]]: [undefined] at the index -1 and past the end. *)
Definition cell (cells : list string) (i : option nat) : option string :=
  match i with
  | Some n => nth_error cells n
  | None => None
  end.

Definition is_digit (c : ascii) : bool :=
  let n := nat_of_ascii c in (48 <=? n)%nat && (n <=? 57)%nat.

Fixpoint all_digits (s : string) : bool :=
  match s with
  | EmptyString => true
  | String c r => is_digit c && all_digits r
  end.

(** [function isNumericId(s) { return /^\d+$/.test(String(s ??
    "").trim()); }] *)
Definition isNumericId (s : string) : bool :=
  let t := trim s in truthy t && all_digits t.

(** What [main] reads of one record besides the product id. *)
Record Fields : Type := {
  f_tagsCell : string;
  f_status : string;
  f_title : string;
  f_handle : string;
  f_variant : Variant;
  f_asLowAsCurrent : string
}.

Definition fields (idx : Idx) (cells : list string) : Fields :=
  {| f_tagsCell := match cell cells (TAGS idx) with Some s => s | None => "" end;
     f_status := clean_cell (cell cells (STATUS idx));
     f_title := clean_cell (cell cells (TITLE idx));
     f_handle := clean_cell (cell cells (HANDLE idx));
     f_variant :=
       variant_of_cells (cell cells (VARIANT_ID idx))
         (cell cells (VARIANT_POS idx)) (cell cells (VARIANT_PRICE idx))
         (cell cells (VARIANT_COMPARE idx)) (cell cells (VARIANT_COST idx));
     f_asLowAsCurrent := clean_cell (cell cells (MF_ASLOWAS idx)) |}.

(** A value of the Map [products]: the product and its [tagsRaw]. *)
Record Entry : Type := {
  e_product : Product;
  e_tagsRaw : string
}.

Definition key (e : Entry) : string := productId (e_product e).

(** The object [products.set] stores for a new id. *)
Definition new_entry (pid : string) (f : Fields) : Entry :=
  {| e_product :=
       {| productId := pid; title := f_title f; handle := f_handle f;
          status := f_status f; tagsArr := parseTags (f_tagsCell f);
          asLowAsCurrent := Lit (f_asLowAsCurrent f); variants := [] |};
     e_tagsRaw := f_tagsCell f |}.

(** [if (!p.x && x) p.x = x;] *)
Definition backfill (cur new : string) : string :=
  if negb (truthy cur) && truthy new then new else cur.

(** [p.variants.push(...)] and the five assignments after it. *)
Definition push (f : Fields) (e : Entry) : Entry :=
  let p := e_product e in
  let refill := negb (truthy (e_tagsRaw e)) && truthy (f_tagsCell f) in
  {| e_product :=
       {| productId := productId p;
          title := backfill (title p) (f_title f);
          handle := backfill (handle p) (f_handle f);
          status := backfill (status p) (f_status f);
          tagsArr := if refill then parseTags (f_tagsCell f) else tagsArr p;
          asLowAsCurrent :=
            if negb (Text_truthy (asLowAsCurrent p))
               && truthy (f_asLowAsCurrent f)
            then Lit (f_asLowAsCurrent f) else asLowAsCurrent p;
          variants := variants p ++ [f_variant f] |};
     e_tagsRaw := if refill then f_tagsCell f else e_tagsRaw e |}.

(** The Map [products], in insertion order. *)
Definition has (products : list Entry) (pid : string) : bool :=
  existsb (fun e => String.eqb (key e) pid) products.

Definition get (products : list Entry) (pid : string) : option Entry :=
  find (fun e => String.eqb (key e) pid) products.

(** The mutation of the object [products.get(productId)] returns. *)
Fixpoint update (pid : string) (g : Entry -> Entry) (products : list Entry)
  : list Entry :=
  match products with
  | [] => []
  | e :: rest =>
      if String.eqb (key e) pid then g e :: rest
      else e :: update pid g rest
  end.

(** The id a record is filed under. *)
Definition row_id (idx : Idx) (delim : ascii) (record : string) : string :=
  clean_cell (cell (parseCsvLine record delim) (ID idx)).

(** The body of the reading loop for one complete record after the
    header.  The message of the [throw] also quotes the id and the
    start of the record. *)
Definition ingest_record (idx : Idx) (delim : ascii) (products : list Entry)
  (record : string) : Outcome (list Entry) :=
  let cells := parseCsvLine record delim in
  let productId := clean_cell (cell cells (ID idx)) in
  if negb (truthy productId) then Done products
  else if negb (isNumericId productId) then
    Throw "FAIL-FAST: ID ist nicht numerisch"
  else
    let f := fields idx cells in
    let products1 :=
      if negb (has products productId)
      then products ++ [new_entry productId f] else products in
    Done (update productId (push f) products1).

Fixpoint ingest (idx : Idx) (delim : ascii) (products : list Entry)
  (records : list string) : Outcome (list Entry) :=
  match records with
  | [] => Done products
  | record :: rest =>
      products' <- ingest_record idx delim products record ;;
      ingest idx delim products' rest
  end.

(** What a record does to the value stored under its id. *)
Definition absorb (pid : string) (o : option Entry) (f : Fields)
  : option Entry :=
  Some (push f (match o with Some e => e | None => new_entry pid f end)).

(** The records filed under one id, as [main] reads them. *)
Definition rows_of_id (idx : Idx) (delim : ascii) (records : list string)
  (pid : string) : list Fields :=
  map (fun r => fields idx (parseCsvLine r delim))
      (filter (fun r => String.eqb (row_id idx delim r) pid) records).

(** The first non-empty string of a list, or the empty string. *)
Definition first_truthy (l : list string) : string :=
  match filter truthy l with
  | s :: _ => s
  | [] => ""
  end.

(** The distinct strings of a list, in the order they first occur. *)
Definition add_key (seen : list string) (k : string) : list string :=
  if includes seen k then seen else seen ++ [k].

Definition first_seen (l : list string) : list string :=
  fold_left add_key l [].

End Ingest.

(** A header with the eight mandatory columns in the order of the
    list [mustHave], and three records of two products. *)
Definition sample_idx : Ingest.Idx :=
  {| Ingest.ID := Some 0%nat; Ingest.HANDLE := None; Ingest.TITLE := None;
     Ingest.TAGS := Some 1%nat; Ingest.STATUS := Some 2%nat;
     Ingest.VARIANT_ID := Some 3%nat; Ingest.VARIANT_POS := Some 4%nat;
     Ingest.VARIANT_PRICE := Some 5%nat; Ingest.VARIANT_COMPARE := Some 6%nat;
     Ingest.VARIANT_COST := Some 7%nat; Ingest.MF_ASLOWAS := None |}.

Definition sample_records : list string :=
  ["7,used,active,71,1,10,20,5"; "8,,draft,81,1,10,20,5";
   "7,,,72,2,10,20,5"].

(** ** Writing a CSV file and reading it back *)

(** [function stripBom(s)]: in a byte string U+FEFF is the three bytes
    EF BB BF. *)
Definition stripBom (s : string) : string :=
  match s with
  | String a (String b (String c r)) =>
      if ((nat_of_ascii a =? 239) && (nat_of_ascii b =? 187)
          && (nat_of_ascii c =? 191))%nat
      then r else s
  | _ => s
  end.

(** A row object of [writeCsv]: the text of the value under each
    header, [None] where the object has none. *)
Definition RowObject : Type := string -> option string.

(** [headers.map(h => csvEscape(r[h] ?? "")).join(delim)], before the
    escaping. *)
Definition row_cells (headers : list string) (r : RowObject) : list string :=
  map (fun h => match r h with Some v => v | None => "" end) headers.

(** The text [writeCsv] writes: [lines.join("\n")]. *)
Definition writeCsv (headers : list string) (rows : list RowObject) : string :=
  String.concat (String LF "")
    (csv_line headers :: map (fun r => csv_line (row_cells headers r)) rows).

(** The reading loop of [main] up to the complete record: the records
    handed on so far and the text [pending]. *)
Definition read_line (st : list string * string) (rawLine : string)
  : list string * string :=
  let (records, pending) := st in
  let line0 := stripBom rawLine in
  if negb (truthy pending) && negb (truthy (trim line0)) then st
  else
    let pending :=
      if truthy pending then String.append pending (String LF line0)
      else line0 in
    if negb (isCsvRecordComplete pending) then (records, pending)
    else (records ++ [pending], "").

Definition read_lines (lines : list string) : list string * string :=
  fold_left read_line lines ([], "").

(** Every line feed of [s] is inside a quoted field and the quotes of
    [s] are balanced, for a text read from inside ([open]) or outside
    a quoted field. *)
Fixpoint lf_ok (open : bool) (s : string) : bool :=
  match s with
  | EmptyString => negb open
  | String c r =>
      if Ascii.eqb c dquote then lf_ok (negb open) r
      else if Ascii.eqb c LF then open && lf_ok open r
      else lf_ok open r
  end.

(** The same for a text given by its lines. *)
Fixpoint well_cut (open : bool) (lines : list string) : bool :=
  match lines with
  | [] => false
  | l :: rest =>
      let open' := xorb open (Nat.odd (count_quotes l)) in
      match rest with
      | [] => negb open'
      | _ => open' && well_cut open' rest
      end
  end.

(** A row [writeCsv] writes so that the reading loop takes it up: no
    cell holds a carriage return, the first line of the row is not
    blank and no line of it starts with a byte order mark. *)
Definition readable (cells : list string) : Prop :=
  Forall (fun c => has_char CR c = false) cells
  /\ truthy (trim (hd "" (split LF (csv_line cells)))) = true
  /\ Forall (fun l => stripBom l = l) (split LF (csv_line cells)).

(** A row whose title holds a line feed. *)
Definition two_line_title : RowObject :=
  fun h =>
    if String.eqb h "ID" then Some "7"
    else if String.eqb h "Title" then Some (String "a" (String LF "b"))
    else None.

(** ** The delimiter of a header line *)

(** [(line.match(/c/g) || []).length] for a character [c]. *)
Fixpoint count_char (c : ascii) (s : string) : nat :=
  match s with
  | EmptyString => 0
  | String ch rest => (if Ascii.eqb ch c then 1 else 0) + count_char c rest
  end.

(** [function detectDelimiter(line)] *)
Definition detectDelimiter (line : string) : ascii :=
  let commas := count_char "," line in
  let semis := count_char ";" line in
  if (commas <? semis)%nat then ";"%char else ","%char.

(** * Properties *)

(** ** Comparisons and rounding *)

Lemma Rgtb_true (x y : R) : Rgtb x y = true <-> y < x.
Proof. unfold Rgtb; destruct (Rlt_dec y x); split; intros; try easy. Qed.

Lemma Rgtb_false (x y : R) : Rgtb x y = false <-> x <= y.
Proof.
  unfold Rgtb; destruct (Rlt_dec y x); split; intros; try easy; lra.
Qed.

Lemma Rgeb_true (x y : R) : Rgeb x y = true <-> y <= x.
Proof. unfold Rgeb; destruct (Rle_dec y x); split; intros; try easy. Qed.

Lemma Rgeb_false (x y : R) : Rgeb x y = false <-> x < y.
Proof.
  unfold Rgeb; destruct (Rle_dec y x); split; intros; try easy; lra.
Qed.

Lemma Rltb_true (x y : R) : Rltb x y = true <-> x < y.
Proof. unfold Rltb; destruct (Rlt_dec x y); split; intros; try easy. Qed.

Lemma Rltb_false (x y : R) : Rltb x y = false <-> y <= x.
Proof.
  unfold Rltb; destruct (Rlt_dec x y); split; intros; try easy; lra.
Qed.

Lemma Math_round_le (x y : R) : x <= y -> Math_round x <= Math_round y.
Proof.
  intros H. unfold Math_round. apply IZR_le, Zfloor_le. lra.
Qed.

Lemma Math_round_bound (x : R) : x - / 2 < Math_round x <= x + / 2.
Proof.
  unfold Math_round. pose proof (Zfloor_bound (x + / 2)). lra.
Qed.

Lemma Math_round_IZR (z : Z) : Math_round (IZR z) = IZR z.
Proof.
  unfold Math_round. f_equal. apply Zfloor_eq. lra.
Qed.

Lemma round2_le (x y : R) : x <= y -> round2 x <= round2 y.
Proof.
  intros H. unfold round2.
  assert (Math_round (x * 100) <= Math_round (y * 100))
    by (apply Math_round_le; lra).
  lra.
Qed.

Lemma round2_bound (x : R) : x - 5 / 1000 < round2 x <= x + 5 / 1000.
Proof.
  unfold round2. pose proof (Math_round_bound (x * 100)). lra.
Qed.

(** A value with at most two decimals is its own rounding. *)
Lemma round2_cents (z : Z) : round2 (IZR z / 100) = IZR z / 100.
Proof.
  unfold round2. replace (IZR z / 100 * 100) with (IZR z) by lra.
  now rewrite Math_round_IZR.
Qed.

Lemma round2_eval (x : R) (z : Z) :
  IZR z <= x * 100 + / 2 < IZR z + 1 -> round2 x = IZR z / 100.
Proof.
  intros H. unfold round2, Math_round. now rewrite (Zfloor_eq z).
Qed.

Lemma Math_log10_1 : Math_log10 1 = 0.
Proof. unfold Math_log10. rewrite ln_1. lra. Qed.

(** ** Pricing *)

Section PricingFacts.
Variables (U LM : CostPlus) (STD : StdParams).

Lemma price_unrounded_le (M C : R) (type : Regime) :
  price_unrounded U LM STD M C type <= M.
Proof.
  destruct type; simpl; try apply Rmin_l; lra.
Qed.

Lemma computePricingWith_ok (M C : R) (type : Regime) :
  0 < M -> 0 < C ->
  computePricingWith U LM STD M C type =
    {| ok := true;
       price_new := round2 (price_unrounded U LM STD M C type);
       as_low_as := round2 (as_low_as_unrounded STD M C type) |}.
Proof.
  intros HM HC. unfold computePricingWith.
  apply Rgtb_true in HM, HC. now rewrite HM, HC.
Qed.

End PricingFacts.

(** With cost equal to the reference price, the low-margin raw price of
    the no-VAT script is [1.4 * M + 35]. *)
Lemma NoVat_price_raw_LM_diag (M : R) :
  0 < M -> price_raw NoVat.LM M M = 14 / 10 * M + 35.
Proof.
  intros HM. unfold price_raw; simpl.
  replace (M / M) with 1 by (field; lra).
  rewrite Math_log10_1. lra.
Qed.

(** C1 (counterexample).  With [M = C = 99.996] the no-VAT script
    classifies the product as low-margin, the raw price 174.99 is
    clamped to 99.996 and then rounded to 100.00, which exceeds [M]. *)
Lemma C1_price_ceiling_counterexample :
  let M := 99996 / 1000 in
  ok (NoVat.computePricing M M LowMargin) = true
  /\ price_new (NoVat.computePricing M M LowMargin) = 100
  /\ M < price_new (NoVat.computePricing M M LowMargin)
  /\ NoVat.determineTypeArigato M M [] = LowMargin.
Proof.
  intros M.
  assert (HM : 0 < M) by (unfold M; lra).
  assert (Hp : price_new (NoVat.computePricing M M LowMargin) = 100).
  { unfold NoVat.computePricing.
    rewrite computePricingWith_ok by assumption. simpl.
    rewrite NoVat_price_raw_LM_diag by assumption.
    rewrite Rmin_left by lra.
    rewrite (round2_eval M 10000); unfold M; lra. }
  repeat split.
  - unfold NoVat.computePricing.
    now rewrite computePricingWith_ok by assumption.
  - exact Hp.
  - rewrite Hp. unfold M. lra.
  - unfold NoVat.determineTypeArigato, determineTypeWith.
    assert (HG : Rgeb (margin_G NoVat.classifier M M) 0 = false).
    { apply Rgeb_false.
      unfold margin_G, affiliate_fee, other_fee, gross_with_ship, P_sale_max;
        simpl. unfold M. lra. }
    apply Rgtb_true in HM. rewrite HM, HG. reflexivity.
Qed.

(** C1 (amended).  For every reference price [M > 0], cost [C > 0] and
    every regime, [computePricing] returns [ok = true]; the price before
    the final rounding does not exceed [M]; the rounded [price_new] is
    the rounding of that price, so it does not exceed [round2 M], the
    rounding of the reference price, and does not exceed [M] when
    rounding leaves [M] as it is ([round2 M = M]). *)
Theorem C1_price_ceiling_up_to_rounding
  (U LM : CostPlus) (STD : StdParams) (M C : R) (type : Regime) :
  0 < M -> 0 < C ->
  let r := computePricingWith U LM STD M C type in
  ok r = true
  /\ price_unrounded U LM STD M C type <= M
  /\ price_new r = round2 (price_unrounded U LM STD M C type)
  /\ price_new r <= round2 M
  /\ (round2 M = M -> price_new r <= M).
Proof.
  intros HM HC r. subst r.
  rewrite computePricingWith_ok by assumption. simpl.
  pose proof (price_unrounded_le U LM STD M C type) as Hle.
  pose proof (round2_le _ _ Hle) as Hr.
  repeat split; try assumption; try lra.
Qed.

Lemma C1_price_ceiling_up_to_rounding_witness :
  let r := NoVat.computePricing 1000 300 Standard in
  ok r = true /\ price_new r <= 1000.
Proof.
  pose proof (C1_price_ceiling_up_to_rounding
                NoVat.U NoVat.LM NoVat.STD 1000 300 Standard
                ltac:(lra) ltac:(lra)) as H.
  simpl in H. destruct H as (Hok & _ & _ & _ & Hc).
  split; [exact Hok|].
  apply Hc. replace 1000 with (IZR 100000 / 100) by lra.
  apply round2_cents.
Defined.

(** ** Classifier *)

Lemma includes_In (l : list string) (x : string) :
  includes l x = true <-> In x l.
Proof.
  unfold includes. rewrite existsb_exists. split.
  - intros (y & Hy & He). apply String.eqb_eq in He. now subst.
  - intros H. exists x. split; [assumption | apply String.eqb_refl].
Qed.

Lemma includes_false (l : list string) (x : string) :
  includes l x = false <-> ~ In x l.
Proof.
  rewrite <- includes_In. destruct (includes l x); split; intros H; easy.
Qed.

Lemma includes_map_normTag (l : list string) (x : string) :
  includes (map normTag l) x = true <-> exists t, In t l /\ normTag t = x.
Proof.
  rewrite includes_In, in_map_iff. split; intros (t & H1 & H2); exists t; tauto.
Qed.

(** The gateway test is a case-insensitive (and trimmed) exact match
    against the two markers. *)
Lemma hasUsedGateway_spec (tags : list string) :
  hasUsedGateway tags = true <->
  exists t, In t tags
            /\ (normTag t = "preowned / defect" \/ normTag t = "preloved").
Proof.
  unfold hasUsedGateway. rewrite orb_true_iff, !includes_map_normTag.
  split.
  - intros [(t & H1 & H2) | (t & H1 & H2)]; exists t; tauto.
  - intros (t & H1 & [H2 | H2]); [left | right]; exists t; tauto.
Qed.

Section ClassifierFacts.
Variable cfg : ClassifierCfg.

Lemma determineTypeWith_skip (M C : R) (tags : list string) :
  determineTypeWith cfg M C tags = Skip <-> (M <= 0 \/ C <= 0).
Proof.
  unfold determineTypeWith.
  destruct (Rgtb M 0) eqn:HM, (Rgtb C 0) eqn:HC; simpl;
    try apply Rgtb_true in HM; try apply Rgtb_true in HC;
    try apply Rgtb_false in HM; try apply Rgtb_false in HC;
    try (split; [intros _ | reflexivity]; lra).
  split; [| lra].
  destruct (hasUsedGateway tags); [discriminate|].
  destruct (Rgeb _ _); discriminate.
Qed.

Lemma determineTypeWith_pos (M C : R) (tags : list string) :
  0 < M -> 0 < C ->
  determineTypeWith cfg M C tags =
    if hasUsedGateway tags then Used
    else if Rgeb (margin_G cfg M C) 0 then Standard else LowMargin.
Proof.
  intros HM HC. unfold determineTypeWith.
  apply Rgtb_true in HM, HC. now rewrite HM, HC.
Qed.

Lemma determineTypeWith_standard (M C : R) (tags : list string) :
  determineTypeWith cfg M C tags = Standard <->
  0 < M /\ 0 < C /\ hasUsedGateway tags = false /\ 0 <= margin_G cfg M C.
Proof.
  unfold determineTypeWith.
  destruct (Rgtb M 0) eqn:HM, (Rgtb C 0) eqn:HC; simpl;
    try apply Rgtb_true in HM; try apply Rgtb_true in HC;
    try apply Rgtb_false in HM; try apply Rgtb_false in HC;
    try (split; [discriminate | intros (? & ? & _); lra]).
  destruct (hasUsedGateway tags).
  - split; [discriminate | intros (_ & _ & ? & _); discriminate].
  - destruct (Rgeb _ _) eqn:HG;
      [apply Rgeb_true in HG | apply Rgeb_false in HG].
    + tauto.
    + split; [discriminate | intros (_ & _ & _ & ?); lra].
Qed.

Lemma determineTypeWith_low_margin (M C : R) (tags : list string) :
  determineTypeWith cfg M C tags = LowMargin <->
  0 < M /\ 0 < C /\ hasUsedGateway tags = false /\ margin_G cfg M C < 0.
Proof.
  unfold determineTypeWith.
  destruct (Rgtb M 0) eqn:HM, (Rgtb C 0) eqn:HC; simpl;
    try apply Rgtb_true in HM; try apply Rgtb_true in HC;
    try apply Rgtb_false in HM; try apply Rgtb_false in HC;
    try (split; [discriminate | intros (? & ? & _); lra]).
  destruct (hasUsedGateway tags).
  - split; [discriminate | intros (_ & _ & ? & _); discriminate].
  - destruct (Rgeb _ _) eqn:HG;
      [apply Rgeb_true in HG | apply Rgeb_false in HG].
    + split; [discriminate | intros (_ & _ & _ & ?); lra].
    + tauto.
Qed.

End ClassifierFacts.

(** The margin of the no-VAT script in closed form. *)
Lemma NoVat_margin_closed_form (M C : R) :
  margin_G NoVat.classifier M C
  = M * (49 / 100 * (1 - 12 / 100 - 455 / 10000))
    - C - 129 / 10 - 85 / 10 * (455 / 10000).
Proof.
  unfold margin_G, affiliate_fee, other_fee, gross_with_ship, P_sale_max.
  simpl. lra.
Qed.

(** The margin of the VAT scripts in closed form. *)
Lemma Vat_margin_closed_form (M C : R) :
  margin_G Vat.classifier M C
  = M * (45 / 100 * (1 - 12 / 100 - 12 / 10 * (455 / 10000)))
    - C - 129 / 10 - 85 / 10 * (12 / 10) * (455 / 10000).
Proof.
  unfold margin_G, affiliate_fee, other_fee, gross_with_ship, P_sale_max.
  simpl. unfold Vat.T_VAT. lra.
Qed.

(** On the real-number model the classifier of the no-VAT script
    never leaves [standard] when the reference price grows. *)
Lemma NoVat_regime_monotone (C : R) (tags : list string) (M1 M2 : R) :
  M1 <= M2 ->
  margin_G NoVat.classifier M1 C <= margin_G NoVat.classifier M2 C
  /\ (NoVat.determineTypeArigato M1 C tags = Standard ->
      NoVat.determineTypeArigato M2 C tags = Standard).
Proof.
  intros HM.
  assert (HG : margin_G NoVat.classifier M1 C
               <= margin_G NoVat.classifier M2 C)
    by (rewrite !NoVat_margin_closed_form; lra).
  split; [exact HG|].
  unfold NoVat.determineTypeArigato. intros H1.
  apply determineTypeWith_standard in H1.
  apply determineTypeWith_standard.
  destruct H1 as (? & ? & ? & ?). repeat split; try assumption; lra.
Qed.

(** *** The classifier as it runs, on binary64 numbers *)

(** A double below zero is not at least zero. *)
Lemma B64_negative_not_leb (x : float) :
  (x <? 0)%float = true -> (0 <=? x)%float = false.
Proof.
  rewrite ltb_spec, leb_spec.
  change (Prim2SF 0) with (S754_zero false).
  unfold SFltb, SFleb.
  destruct (Prim2SF x) as [sg | sg | | sg m e]; cbn;
    try destruct sg; intros H; try reflexivity; discriminate H.
Qed.

(** C9.  On the doubles of the script, the classifier returns [skip]
    exactly when [M > 0] or [C > 0] is false; with both true it returns
    [used] whenever a tag, lower-cased and trimmed, is "preloved" or
    "preowned / defect", whatever the margin; otherwise [standard]
    exactly when [G >= 0] and [low-margin] exactly when [G >= 0] is
    false, in particular when [G < 0], where
    [G = P - C - 12.9 - P * 0.12 - (P + 8.5) * 0.0455] and
    [P = M * (1 - 0.51)], every operation rounded as the script rounds
    it. *)
Theorem C9_classifier_decision (M C : float) (tags : list string) :
  let P := (M * (1 - 0.51))%float in
  let G := (P - C - 12.9 - P * 0.12 - (P + 8.5) * 0.0455)%float in
  (B64.determineTypeArigato M C tags = Skip
   <-> (0 <? M)%float = false \/ (0 <? C)%float = false)
  /\ (hasUsedGateway tags = true <->
      exists t, In t tags
        /\ (trim (toLowerCase t) = "preowned / defect"
            \/ trim (toLowerCase t) = "preloved"))
  /\ ((0 <? M)%float = true -> (0 <? C)%float = true ->
      hasUsedGateway tags = true ->
      B64.determineTypeArigato M C tags = Used)
  /\ ((0 <? M)%float = true -> (0 <? C)%float = true ->
      hasUsedGateway tags = false ->
      (B64.determineTypeArigato M C tags = Standard
       <-> (0 <=? G)%float = true)
      /\ (B64.determineTypeArigato M C tags = LowMargin
          <-> (0 <=? G)%float = false)
      /\ ((G <? 0)%float = true ->
          B64.determineTypeArigato M C tags = LowMargin)).
Proof.
  intros P G.
  assert (HG : B64.margin_G M C = G) by reflexivity.
  unfold B64.determineTypeArigato. rewrite HG.
  split.
  { destruct (0 <? M)%float, (0 <? C)%float; cbn [negb orb];
      try (split; [auto | reflexivity]).
    split; [| intros [H | H]; discriminate H].
    destruct (hasUsedGateway tags); [discriminate|].
    destruct (0 <=? G)%float; discriminate. }
  split; [exact (hasUsedGateway_spec tags)|].
  split.
  - intros -> -> ->. reflexivity.
  - intros -> -> ->. cbn [negb orb].
    assert (Hneg : (G <? 0)%float = true -> (0 <=? G)%float = false)
      by apply B64_negative_not_leb.
    destruct (0 <=? G)%float.
    + repeat split; try reflexivity; try discriminate.
      intros H. specialize (Hneg H). discriminate Hneg.
    + repeat split; try reflexivity; discriminate.
Qed.

(** A gateway tag in another casing; a product below and one above the
    threshold; and a product whose margin is zero in exact arithmetic
    and negative as the script computes it. *)
Lemma C9_classifier_decision_witness :
  B64.determineTypeArigato 1000 300 ["Preloved"] = Used
  /\ B64.determineTypeArigato 100 40 [] = LowMargin
  /\ B64.determineTypeArigato 1000 300 [] = Standard
  /\ B64.determineTypeArigato 350 129.83 [] = LowMargin.
Proof.
  split; [| split; [| split]].
  - apply (C9_classifier_decision 1000 300 ["Preloved"]); reflexivity.
  - apply (C9_classifier_decision 100 40 []); reflexivity.
  - apply (C9_classifier_decision 1000 300 []); reflexivity.
  - apply (C9_classifier_decision 350 129.83 []); reflexivity.
Defined.

(** ** The classifier on binary64 numbers: rounding errors *)

(** *** Rounding a mantissa to 53 digits

    The operations of binary64 are specified in [SpecFloat] on
    mantissa and exponent; the lemmas below bound the error of its
    rounding, first on integers, then on real numbers. *)

(** [iter_pos] iterates as [Nat.iter] does. *)
Lemma iter_pos_nat {A : Type} (f : A -> A) (p : positive) (x : A) :
  @SpecFloat.iter_pos A f p x = Nat.iter (Pos.to_nat p) f x.
Proof.
  assert (Hc : forall n y, Nat.iter n f (f y) = f (Nat.iter n f y)).
  { intros n y. now rewrite <- Nat.iter_succ_r. }
  pose proof (fun n k y => Nat.iter_add n k A f y) as Ha.
  revert x. induction p as [p IH | p IH |]; intros x; cbn [SpecFloat.iter_pos].
  - rewrite !IH, Pos2Nat.inj_xI. rewrite Nat.iter_succ.
    replace (2 * Pos.to_nat p)%nat with (Pos.to_nat p + Pos.to_nat p)%nat by lia.
    now rewrite Ha, !Hc.
  - rewrite !IH, Pos2Nat.inj_xO.
    replace (2 * Pos.to_nat p)%nat with (Pos.to_nat p + Pos.to_nat p)%nat by lia.
    now rewrite Ha.
  - reflexivity.
Qed.

(** One more shift keeps [shr_inv]. *)
Lemma shr_1_inv (m k : Z) (rec : shr_record) :
  (0 <= k)%Z -> shr_inv m k rec -> shr_inv m (k + 1) (shr_1 rec).
Proof.
  intros Hk. unfold shr_inv. destruct rec as [q r s]. cbn [shr_m shr_r shr_s].
  rewrite Z.pow_add_r, Z.pow_1_r by lia.
  assert (HP : (0 < 2 ^ k)%Z) by (apply Z.pow_pos_nonneg; lia).
  set (P := (2 ^ k)%Z) in *. clearbody P.
  intros (Hq & Hrem & Hr & Hs).
  assert (Hrs : (r || s = true <-> (m - q * P)%Z <> 0%Z)).
  { rewrite orb_true_iff, Hr, Hs. lia. }
  destruct q as [| [p | p |] | p]; cbn [shr_1 shr_m shr_r shr_s]; try lia.
  - rewrite Hrs. repeat split; try lia; try discriminate.
  - rewrite Hrs. change (Z.pos p~1) with (2 * Z.pos p + 1)%Z in *.
    replace ((2 * Z.pos p + 1) * P)%Z with (2 * (Z.pos p * P) + P)%Z in * by ring.
    replace (Z.pos p * (P * 2))%Z with (2 * (Z.pos p * P))%Z by ring.
    generalize dependent (Z.pos p * P)%Z. intros X. intros.
    repeat split; try lia; try discriminate.
  - rewrite Hrs. change (Z.pos p~0) with (2 * Z.pos p)%Z in *.
    replace (2 * Z.pos p * P)%Z with (2 * (Z.pos p * P))%Z in * by ring.
    replace (Z.pos p * (P * 2))%Z with (2 * (Z.pos p * P))%Z by ring.
    generalize dependent (Z.pos p * P)%Z. intros X. intros.
    repeat split; try lia; try discriminate.
  - rewrite Hrs. repeat split; try lia; try discriminate.
Qed.

(** [n] shifts of a mantissa with clear round and sticky bits. *)
Lemma shr_iter_inv (m : Z) (n : nat) :
  (0 <= m)%Z ->
  shr_inv m (Z.of_nat n)
    (Nat.iter n shr_1 {| shr_m := m; shr_r := false; shr_s := false |}).
Proof.
  intros Hm. induction n as [| n IH].
  - unfold shr_inv. cbn [Nat.iter nat_rect shr_m shr_r shr_s Z.of_nat].
    rewrite Z.pow_0_r, Z.mul_1_r, Z.sub_diag.
    repeat split; try lia; try discriminate.
  - rewrite Nat2Z.inj_succ, <- Z.add_1_r. cbn [Nat.iter].
    apply shr_1_inv; [lia | exact IH].
Qed.

(** A mantissa of [d] digits lies between [2^(d-1)] and [2^d]. *)
Lemma digits2_pos_bounds (m : positive) :
  (2 ^ (Zpos (digits2_pos m) - 1) <= Zpos m < 2 ^ Zpos (digits2_pos m))%Z.
Proof.
  induction m as [m IH | m IH |]; cbn [digits2_pos].
  - rewrite Pos2Z.inj_succ. change (Z.pos m~1) with (2 * Z.pos m + 1)%Z.
    replace (Z.succ (Zpos (digits2_pos m)) - 1)%Z
      with (Zpos (digits2_pos m) - 1 + 1)%Z by lia.
    unfold Z.succ. rewrite !Z.pow_add_r, !Z.pow_1_r by lia.
    generalize dependent (2 ^ (Z.pos (digits2_pos m) - 1))%Z.
    generalize dependent (2 ^ Z.pos (digits2_pos m))%Z. intros; lia.
  - rewrite Pos2Z.inj_succ. change (Z.pos m~0) with (2 * Z.pos m)%Z.
    replace (Z.succ (Zpos (digits2_pos m)) - 1)%Z
      with (Zpos (digits2_pos m) - 1 + 1)%Z by lia.
    unfold Z.succ. rewrite !Z.pow_add_r, !Z.pow_1_r by lia.
    generalize dependent (2 ^ (Z.pos (digits2_pos m) - 1))%Z.
    generalize dependent (2 ^ Z.pos (digits2_pos m))%Z. intros; lia.
  - cbn. lia.
Qed.

(** The number of digits is determined by the two bounds. *)

Lemma digits2_pos_unique (m : positive) (d : Z) :
  (2 ^ (d - 1) <= Zpos m < 2 ^ d)%Z -> (0 < d)%Z -> Zpos (digits2_pos m) = d.
Proof.
  intros H Hd. pose proof (digits2_pos_bounds m) as Hb.
  set (d0 := Zpos (digits2_pos m)) in *.
  assert (Hd0 : (0 < d0)%Z) by (unfold d0; lia).
  destruct (Z.lt_trichotomy d0 d) as [Hlt | [Heq | Hgt]]; [| exact Heq |].
  - exfalso. assert ((2 ^ d0 <= 2 ^ (d - 1))%Z) by (apply Z.pow_le_mono_r; lia). lia.
  - exfalso. assert ((2 ^ d <= 2 ^ (d0 - 1))%Z) by (apply Z.pow_le_mono_r; lia). lia.
Qed.

(** The exponent of the format for a number below [2^x]. *)
Lemma fexp_b64 (x : Z) : fexp 53 1024 x = Z.max (x - 53) (-1074).
Proof. reflexivity. Qed.

Lemma shr_nonpos (mrs : shr_record) (e n : Z) :
  (n <= 0)%Z -> shr mrs e n = (mrs, e).
Proof. destruct n; [reflexivity | lia | reflexivity]. Qed.

Lemma shr_pos (m e n : Z) :
  (0 <= m)%Z -> (0 < n)%Z ->
  exists rec, shr {| shr_m := m; shr_r := false; shr_s := false |} e n
              = (rec, (e + n)%Z)
              /\ shr_inv m n rec.
Proof.
  intros Hm Hn. destruct n as [| p | p]; try lia.
  cbn [shr]. eexists. split; [reflexivity|].
  rewrite iter_pos_nat.
  rewrite <- (positive_nat_Z p) at 1.
  now apply shr_iter_inv.
Qed.

(** A mantissa that needs no shift is kept as it is. *)
Lemma round_aux_exact (sx : bool) (m : positive) (e : Z) :
  (fexp 53 1024 (Zpos (digits2_pos m) + e) <= e)%Z ->
  binary_round_aux 53 1024 sx (Zpos m) e loc_Exact = encode sx (Zpos m) e.
Proof.
  intros H. unfold binary_round_aux, shr_fexp.
  cbn [Zdigits2 shr_record_of_loc].
  rewrite shr_nonpos by lia.
  cbn [shr_m loc_of_shr_record round_nearest_even Zdigits2 shr_record_of_loc].
  rewrite shr_nonpos by lia.
  reflexivity.
Qed.

(** Rounding to nearest, ties to even: the result is one of the two
    neighbours and at most half a unit away. *)
Lemma round_nearest_even_spec (m P : Z) (rec : shr_record) :
  (0 < P)%Z -> 
  let rem := (m - shr_m rec * P)%Z in
  (0 <= rem < P)%Z ->
  (shr_r rec = true <-> (P <= 2 * rem)%Z) ->
  (shr_s rec = true <-> rem <> 0%Z /\ (2 * rem)%Z <> P) ->
  let m1 := round_nearest_even (shr_m rec) (loc_of_shr_record rec) in
  (shr_m rec <= m1 <= shr_m rec + 1)%Z
  /\ (2 * Z.abs (m1 * P - m) <= P)%Z.
Proof.
  intros HP rem Hrem Hr Hs. destruct rec as [q r s].
  cbn [shr_m shr_r shr_s] in *. subst rem.
  assert (E1 : ((q + 1) * P = q * P + P)%Z) by ring.
  destruct r, s; cbn [loc_of_shr_record round_nearest_even];
    try match goal with |- context [Z.even q] => destruct (Z.even q) end;
    rewrite ?E1; clear E1;
    generalize dependent (q * P)%Z; intros X Hrem Hr Hs;
    (split; [lia|]).
  - assert (P <= 2 * (m - X))%Z by now apply Hr. lia.
  - assert (P <= 2 * (m - X))%Z by now apply Hr.
    assert (~ ((m - X)%Z <> 0%Z /\ (2 * (m - X))%Z <> P)).
    { intros K. apply Hs in K. discriminate K. }
    lia.
  - assert (P <= 2 * (m - X))%Z by now apply Hr.
    assert (~ ((m - X)%Z <> 0%Z /\ (2 * (m - X))%Z <> P)).
    { intros K. apply Hs in K. discriminate K. }
    lia.
  - assert (~ (P <= 2 * (m - X))%Z).
    { intros K. apply Hr in K. discriminate K. }
    lia.
  - assert (~ (P <= 2 * (m - X))%Z).
    { intros K. apply Hr in K. discriminate K. }
    assert (~ ((m - X)%Z <> 0%Z /\ (2 * (m - X))%Z <> P)).
    { intros K. apply Hs in K. discriminate K. }
    lia.
Qed.

(** A mantissa that is shifted right by [e' - e] digits is rounded to
    [m1], at most half a unit of the last place away; a carry to
    [2^53] moves to the next exponent. *)
Lemma round_aux_shift (sx : bool) (m : positive) (e : Z) :
  let d := Zpos (digits2_pos m) in
  let e' := fexp 53 1024 (d + e) in
  (e < e')%Z ->
  exists m1 : Z,
    (0 <= m1 <= 2 ^ 53)%Z
    /\ (2 * Z.abs (m1 * 2 ^ (e' - e) - Zpos m) <= 2 ^ (e' - e))%Z
    /\ (e' = (d + e - 53)%Z -> (2 ^ 52 <= m1)%Z)
    /\ binary_round_aux 53 1024 sx (Zpos m) e loc_Exact
       = (if (m1 =? 2 ^ 53)%Z then encode sx (2 ^ 52) (e' + 1)
          else encode sx m1 e').
Proof.
  intros d e' He.
  destruct (shr_pos (Zpos m) e (e' - e)) as (rec & Hshr & Hinv);
    [lia | lia |].
  destruct Hinv as (Hq & Hrem & Hr & Hs).
  assert (HP : (0 < 2 ^ (e' - e))%Z) by (apply Z.pow_pos_nonneg; lia).
  destruct (round_nearest_even_spec (Zpos m) (2 ^ (e' - e)) rec HP Hrem Hr Hs)
    as [Hm1 Herr].
  set (m1 := round_nearest_even (shr_m rec) (loc_of_shr_record rec)) in *.
  exists m1.
  pose proof (digits2_pos_bounds m) as Hd. fold d in Hd.
  assert (He' : (d + e - 53 <= e' /\ -1074 <= e')%Z)
    by (unfold e'; rewrite fexp_b64; lia).
  assert (Hq53 : (shr_m rec < 2 ^ 53)%Z).
  { assert (H : (2 ^ d <= 2 ^ (53 + (e' - e)))%Z)
      by (apply Z.pow_le_mono_r; lia).
    rewrite Z.pow_add_r in H by lia.
    apply (Z.mul_lt_mono_pos_r (2 ^ (e' - e))); lia. }
  assert (Hnorm : e' = (d + e - 53)%Z -> (2 ^ 52 <= shr_m rec)%Z).
  { intros E.
    assert (H : (2 ^ (d - 1) = 2 ^ 52 * 2 ^ (e' - e))%Z).
    { rewrite <- Z.pow_add_r by lia. f_equal. lia. }
    assert (H2 : ((2 ^ 52 - 1) * 2 ^ (e' - e) < shr_m rec * 2 ^ (e' - e))%Z)
      by lia.
    apply Z.mul_lt_mono_pos_r in H2; lia. }
  split; [lia|]. split; [exact Herr|]. split; [intros E; specialize (Hnorm E); lia|].
  unfold binary_round_aux, shr_fexp.
  cbn [Zdigits2 shr_record_of_loc]. fold d. fold e'.
  rewrite Hshr. fold m1.
  replace (e + (e' - e))%Z with e' by lia.
  change (2 ^ 53)%Z with 9007199254740992%Z in *.
  change (2 ^ 52)%Z with 4503599627370496%Z in *.
  destruct (m1 =? 9007199254740992)%Z eqn:E53.
  - apply Z.eqb_eq in E53. rewrite E53.
    replace (Zdigits2 9007199254740992) with 54%Z by reflexivity.
    rewrite fexp_b64.
    replace (Z.max (54 + e' - 53) (-1074) - e')%Z with 1%Z by lia.
    cbn [shr_record_of_loc shr SpecFloat.iter_pos shr_1 shr_m].
    reflexivity.
  - apply Z.eqb_neq in E53.
    destruct m1 as [| p1 | p1] eqn:Em1; [| | lia].
    + cbn [Zdigits2]. rewrite shr_nonpos by (rewrite fexp_b64; lia).
      reflexivity.
    + cbn [Zdigits2].
      pose proof (digits2_pos_bounds p1) as Hd1.
      assert (Hd1' : (Zpos (digits2_pos p1) <= 53)%Z).
      { destruct (Z.le_gt_cases (Zpos (digits2_pos p1)) 53) as [K | K];
          [exact K | exfalso].
        assert ((2 ^ 53 <= 2 ^ (Zpos (digits2_pos p1) - 1))%Z)
          by (apply Z.pow_le_mono_r; lia).
        change (2 ^ 53)%Z with 9007199254740992%Z in *. lia. }
      rewrite shr_nonpos by (rewrite fexp_b64; lia).
      reflexivity.
Qed.

(** *** Powers of two as real numbers *)
Lemma b2_pos (e : Z) : 0 < b2 e.
Proof. apply powerRZ_lt. lra. Qed.

Lemma b2_add (a b : Z) : b2 (a + b) = b2 a * b2 b.
Proof. apply powerRZ_add. lra. Qed.

Lemma b2_nat (n : Z) : (0 <= n)%Z -> b2 n = IZR (2 ^ n).
Proof.
  intros H. rewrite <- (Z2Nat.id n H). unfold b2.
  now rewrite <- pow_powerRZ, <- pow_IZR.
Qed.

Lemma b2_le (a b : Z) : (a <= b)%Z -> b2 a <= b2 b.
Proof.
  intros H. replace b with (a + (b - a))%Z by lia.
  rewrite b2_add, (b2_nat (b - a)) by lia.
  assert (1 <= IZR (2 ^ (b - a))).
  { apply IZR_le. assert (0 < 2 ^ (b - a))%Z by (apply Z.pow_pos_nonneg; lia). lia. }
  pose proof (b2_pos a). nra.
Qed.

Lemma Rabs_le_between (x a : R) : Rabs x <= a -> - a <= x <= a.
Proof. unfold Rabs. destruct (Rcase_abs x); lra. Qed.

(** The rounding on real numbers: the result is [r], within the
    relative error [2^-53] of the exact value, or within [2^-1075] of
    it below the normal range; it overflows only when [r] reaches
    [2^1024]. *)
Lemma round_aux_real (sx : bool) (m : positive) (e : Z) :
  let d := Zpos (digits2_pos m) in
  let v := IZR (Zpos m) * b2 e in
  let res := binary_round_aux 53 1024 sx (Zpos m) e loc_Exact in
  ((fexp 53 1024 (d + e) <= e)%Z -> (e <= 971)%Z \/ (53 <= d)%Z) ->
  exists r : R,
    0 <= r
    /\ (Rabs (r - v) <= v * b2 (-53)
        \/ ((e < -1074)%Z /\ Rabs (r - v) <= b2 (-1075)))
    /\ ((res = S754_infinity sx /\ b2 1024 <= r)
        \/ (res = S754_zero sx /\ r = 0)
        \/ (exists p e1, res = S754_finite sx p e1
                         /\ r = IZR (Zpos p) * b2 e1)).
Proof.
  intros d v res Hex.
  pose proof (digits2_pos_bounds m) as Hd. fold d in Hd.
  assert (Hv : 0 < v).
  { unfold v. apply Rmult_lt_0_compat; [apply IZR_lt; lia | apply b2_pos]. }
  destruct (Z_le_gt_dec (fexp 53 1024 (d + e)) e) as [Hle | Hgt].
  - (* no shift *)
    unfold res. rewrite round_aux_exact by exact Hle.
    exists v. split; [lra|]. split.
    { left. replace (v - v) with 0 by ring. rewrite Rabs_R0.
      pose proof (b2_pos (-53)). nra. }
    unfold encode. destruct (e <=? 971)%Z eqn:E.
    + right; right. now exists m, e.
    + left. split; [reflexivity|].
      apply Z.leb_gt in E. destruct (Hex Hle) as [K | K]; [lia|].
      assert (H52 : (2 ^ 52 <= Zpos m)%Z).
      { assert ((2 ^ 52 <= 2 ^ (d - 1))%Z) by (apply Z.pow_le_mono_r; lia). lia. }
      apply IZR_le in H52. rewrite <- b2_nat in H52 by lia.
      replace 1024%Z with (52 + 972)%Z by lia. rewrite b2_add.
      pose proof (b2_le 972 e ltac:(lia)).
      pose proof (b2_pos 972). pose proof (b2_pos 52).
      unfold v. apply Rmult_le_compat; lra.
  - (* right shift *)
    destruct (round_aux_shift sx m e ltac:(fold d; lia)) as (m1 & Hm1 & Herr & Hnorm & Hres).
    fold d in Herr, Hnorm, Hres.
    set (e' := fexp 53 1024 (d + e)) in *.
    assert (He' : (d + e - 53 <= e' /\ -1074 <= e')%Z)
      by (unfold e'; rewrite fexp_b64; lia).
    assert (Eb : b2 e' = IZR (2 ^ (e' - e)) * b2 e).
    { rewrite <- b2_nat by lia. rewrite <- b2_add. f_equal. lia. }
    exists (IZR m1 * b2 e').
    pose proof (b2_pos e') as Hbe'. pose proof (b2_pos e) as Hbe.
    split.
    { apply Rmult_le_pos; [apply IZR_le; lia | lra]. }
    assert (Habs : Rabs (IZR m1 * b2 e' - v) * 2 <= b2 e').
    { rewrite Eb. unfold v.
      replace (IZR m1 * (IZR (2 ^ (e' - e)) * b2 e) - IZR (Z.pos m) * b2 e)
        with (IZR (m1 * 2 ^ (e' - e) - Z.pos m) * b2 e)
        by (rewrite minus_IZR, mult_IZR; ring).
      rewrite Rabs_mult, (Rabs_pos_eq (b2 e)) by lra.
      rewrite <- abs_IZR.
      apply IZR_le in Herr. rewrite mult_IZR in Herr.
      nra. }
    split.
    { destruct (Z.eq_dec e' (d + e - 53)) as [En | En].
      - left.
        assert (H52 : (2 ^ 52 * 2 ^ (e' - e) <= Zpos m)%Z).
        { rewrite <- Z.pow_add_r by lia.
          replace (52 + (e' - e))%Z with (d - 1)%Z by lia. lia. }
        apply IZR_le in H52. rewrite mult_IZR, <- (b2_nat 52) in H52 by lia.
        assert (Hu : b2 52 * b2 (-53) * 2 = 1).
        { rewrite <- b2_add. change (52 + -53)%Z with (-1)%Z.
          unfold b2. simpl. lra. }
        pose proof (b2_pos (-53)) as Hp53. pose proof (b2_pos 52) as Hp52.
        assert (Hv2 : b2 e' <= v * b2 (-53) * 2).
        { rewrite Eb. unfold v.
          assert (IZR (2 ^ (e' - e)) * b2 e * (b2 52 * b2 (-53) * 2)
                  <= IZR (Z.pos m) * b2 e * b2 (-53) * 2); [| nra].
          replace (IZR (2 ^ (e' - e)) * b2 e * (b2 52 * b2 (-53) * 2))
            with ((b2 52 * IZR (2 ^ (e' - e))) * (b2 e * b2 (-53) * 2)) by ring.
          replace (IZR (Z.pos m) * b2 e * b2 (-53) * 2)
            with (IZR (Z.pos m) * (b2 e * b2 (-53) * 2)) by ring.
          apply Rmult_le_compat_r; [nra | exact H52]. }
        lra.
      - right. assert (E74 : e' = (-1074)%Z) by (unfold e' in *; rewrite fexp_b64 in *; lia).
        split; [lia|].
        assert (Hh : b2 e' = b2 (-1075) * 2).
        { rewrite E74. replace (-1074)%Z with (-1075 + 1)%Z by lia.
          rewrite b2_add. unfold b2 at 2. simpl. lra. }
        lra. }
    unfold res. rewrite Hres.
    change (2 ^ 53)%Z with 9007199254740992%Z in *.
    change (2 ^ 52)%Z with 4503599627370496%Z in *.
    destruct (m1 =? 9007199254740992)%Z eqn:E53.
    + apply Z.eqb_eq in E53. subst m1.
      assert (Ev : IZR 9007199254740992 * b2 e'
                   = IZR (Z.pos 4503599627370496) * b2 (e' + 1)).
      { rewrite b2_add. unfold b2 at 3. simpl. lra. }
      unfold encode. destruct (e' + 1 <=? 971)%Z eqn:E.
      * right; right. now exists 4503599627370496%positive, (e' + 1)%Z.
      * left. split; [reflexivity|]. apply Z.leb_gt in E.
        rewrite Ev. replace 1024%Z with (52 + 972)%Z by lia. rewrite b2_add.
        rewrite (b2_nat 52) by lia.
        change (2 ^ 52)%Z with 4503599627370496%Z.
        pose proof (b2_le 972 (e' + 1) ltac:(lia)). pose proof (b2_pos 972).
        nra.
    + apply Z.eqb_neq in E53. unfold encode.
      destruct m1 as [| p1 | p1]; [| | lia].
      * right; left. split; [reflexivity | lra].
      * destruct (e' <=? 971)%Z eqn:E.
        -- right; right. now exists p1, e'.
        -- left. split; [reflexivity|]. apply Z.leb_gt in E.
           assert (En : e' = (d + e - 53)%Z)
             by (unfold e' in *; rewrite fexp_b64 in *; lia).
           specialize (Hnorm En). apply IZR_le in Hnorm.
           replace 1024%Z with (52 + 972)%Z by lia. rewrite b2_add.
           rewrite (b2_nat 52) by lia.
           change (2 ^ 52)%Z with 4503599627370496%Z.
           pose proof (b2_le 972 e' ltac:(lia)). pose proof (b2_pos 972).
           apply Rmult_le_compat; lra.
Qed.

(** *** Addition, subtraction and multiplication

    A valid binary64 datum has at most 53 digits, an exponent between
    -1074 and 971, and fewer than 53 digits only at exponent -1074. *)
Lemma bounded_facts (m : positive) (e : Z) :
  SpecFloat.bounded 53 1024 m e = true ->
  (-1074 <= e <= 971)%Z
  /\ (Zpos (digits2_pos m) <= 53)%Z
  /\ ((Zpos (digits2_pos m) = 53)%Z \/ (e = -1074)%Z).
Proof.
  unfold SpecFloat.bounded, canonical_mantissa.
  rewrite andb_true_iff, Z.eqb_eq, Z.leb_le, fexp_b64.
  change (1024 - 53)%Z with 971%Z. lia.
Qed.

Lemma pos_iter_xO (m d : positive) :
  Zpos (Pos.iter xO m d) = (Zpos m * 2 ^ Zpos d)%Z.
Proof.
  induction d as [| d IH] using Pos.peano_ind.
  - cbn [Pos.iter]. change (Z.pos m~0) with (2 * Z.pos m)%Z.
    rewrite Z.pow_1_r. lia.
  - rewrite Pos.iter_succ, Pos2Z.inj_succ, Z.pow_succ_r by lia.
    change (Z.pos (Pos.iter xO m d)~0) with (2 * Z.pos (Pos.iter xO m d))%Z.
    rewrite IH. ring.
Qed.

Lemma shl_align_spec (mx : positive) (ex ez : Z) :
  (ez <= ex)%Z ->
  snd (shl_align mx ex ez) = ez
  /\ Zpos (fst (shl_align mx ex ez)) = (Zpos mx * 2 ^ (ex - ez))%Z.
Proof.
  intros H. unfold shl_align. destruct (ez - ex)%Z as [| p | p] eqn:E.
  - assert (ex = ez) by lia. subst ex. cbn [fst snd].
    rewrite Z.sub_diag, Z.pow_0_r. lia.
  - lia.
  - cbn [fst snd]. split; [reflexivity|].
    rewrite pos_iter_xO. f_equal. f_equal. lia.
Qed.

Lemma shl_align_id (mx : positive) (ex ez : Z) :
  (ex <= ez)%Z -> shl_align mx ex ez = (mx, ex).
Proof.
  intros H. unfold shl_align. destruct (ez - ex)%Z as [| p | p] eqn:E;
    [reflexivity | reflexivity | lia].
Qed.

Lemma digits_shift (m mz : positive) (k : Z) :
  (0 <= k)%Z -> Zpos mz = (Zpos m * 2 ^ k)%Z ->
  Zpos (digits2_pos mz) = (Zpos (digits2_pos m) + k)%Z.
Proof.
  intros Hk E. apply digits2_pos_unique; [| lia].
  pose proof (digits2_pos_bounds m) as Hd.
  set (d := Zpos (digits2_pos m)) in *.
  assert (Hd0 : (0 < d)%Z) by (unfold d; lia).
  rewrite E.
  replace (d + k - 1)%Z with (d - 1 + k)%Z by lia.
  rewrite !Z.pow_add_r by lia.
  assert (0 < 2 ^ k)%Z by (apply Z.pow_pos_nonneg; lia).
  nia.
Qed.

Lemma IZR_shift (m mz : positive) (e ez : Z) :
  (ez <= e)%Z -> Zpos mz = (Zpos m * 2 ^ (e - ez))%Z ->
  IZR (Zpos mz) * b2 ez = IZR (Zpos m) * b2 e.
Proof.
  intros H E. rewrite E, mult_IZR, <- b2_nat by lia.
  rewrite Rmult_assoc, <- b2_add. do 2 f_equal. lia.
Qed.

(** Rounding a mantissa at an exponent of the format: no error below
    the normal range. *)
Lemma binary_round_real (sx : bool) (m : positive) (e : Z) :
  (-1074 <= e)%Z ->
  let v := IZR (Zpos m) * b2 e in
  exists r : R,
    0 <= r /\ Rabs (r - v) <= v * b2 (-53)
    /\ rounds_to sx (binary_round 53 1024 sx m e) r.
Proof.
  intros He v. unfold binary_round.
  set (d := Zpos (digits2_pos m)).
  set (fe := fexp 53 1024 (d + e)).
  assert (Hfe : fe = Z.max (d + e - 53) (-1074)) by (unfold fe; apply fexp_b64).
  destruct (Z_lt_le_dec fe e) as [Hlt | Hge].
  - destruct (shl_align_spec m e fe ltac:(lia)) as [Hs Hf].
    destruct (shl_align m e fe) as [mz ez]. cbn [fst snd] in Hs, Hf. subst ez.
    pose proof (digits_shift m mz (e - fe) ltac:(lia) Hf) as Hdz. fold d in Hdz.
    pose proof (IZR_shift m mz e fe ltac:(lia) Hf) as Hvz.
    destruct (round_aux_real sx mz fe) as (r & Hr & Herr & Htri).
    { rewrite Hdz, fexp_b64. lia. }
    exists r. rewrite Hvz in Herr. fold v in Herr.
    split; [exact Hr|]. split; [| exact Htri].
    destruct Herr as [K | [K _]]; [exact K | lia].
  - rewrite shl_align_id by lia.
    destruct (round_aux_real sx m e) as (r & Hr & Herr & Htri).
    { fold d. fold fe. lia. }
    exists r. fold v in Herr.
    split; [exact Hr|]. split; [| exact Htri].
    destruct Herr as [K | [K _]]; [exact K | lia].
Qed.

Lemma rounds_to_fin (sx : bool) (res : spec_float) (r : R) :
  rounds_to sx res r -> r < b2 1024 ->
  SFfin res = true /\ SF2R res = (if sx then - r else r).
Proof.
  intros [[_ H] | [[-> ->] | (p & e1 & -> & ->)]] Hr.
  - lra.
  - split; [reflexivity|]. cbn. destruct sx; lra.
  - split; reflexivity.
Qed.

Lemma rounds_to_neg (res : spec_float) (r : R) :
  rounds_to true res r -> 0 < r -> SFneg res = true.
Proof.
  intros [[-> _] | [[_ ->] | (p & e1 & -> & _)]] Hr;
    [reflexivity | lra | reflexivity].
Qed.

(** The rounding of a sum or difference of aligned mantissas. *)
Lemma binary_normalize_real (s ez : Z) :
  (-1074 <= ez)%Z ->
  let V := IZR s * b2 ez in
  let res := binary_normalize 53 1024 s ez false in
  (Rabs V * (1 + b2 (-53)) < b2 1024 ->
   SFfin res = true /\ Rabs (SF2R res - V) <= Rabs V * b2 (-53))
  /\ (V < 0 -> SFneg res = true).
Proof.
  intros He V res. pose proof (b2_pos ez) as Hb. pose proof (b2_pos (-53)) as Hu.
  destruct s as [| m | m]; unfold res, V; cbn [binary_normalize].
  - rewrite Rmult_0_l. split; [| lra]. intros _. split; [reflexivity|].
    cbn [SF2R]. replace (0 - 0) with 0 by ring. rewrite Rabs_R0. lra.
  - destruct (binary_round_real false m ez He) as (r & Hr & Herr & Htri).
    assert (Hv : 0 < IZR (Z.pos m) * b2 ez)
      by (apply Rmult_lt_0_compat; [apply IZR_lt; lia | exact Hb]).
    split; [| lra].
    rewrite (Rabs_pos_eq (IZR (Z.pos m) * b2 ez)) by lra. intros Hov.
    assert (Hrle : r <= IZR (Z.pos m) * b2 ez * (1 + b2 (-53))).
    { apply Rabs_le_between in Herr. lra. }
    destruct (rounds_to_fin _ _ _ Htri ltac:(lra)) as [Hf Hval].
    split; [exact Hf|]. rewrite Hval. exact Herr.
  - destruct (binary_round_real true m ez He) as (r & Hr & Herr & Htri).
    assert (Hv : 0 < IZR (Z.pos m) * b2 ez)
      by (apply Rmult_lt_0_compat; [apply IZR_lt; lia | exact Hb]).
    change (Z.neg m) with (- Z.pos m)%Z. rewrite opp_IZR.
    replace (- IZR (Z.pos m) * b2 ez) with (- (IZR (Z.pos m) * b2 ez)) by ring.
    rewrite Rabs_Ropp, (Rabs_pos_eq (IZR (Z.pos m) * b2 ez)) by lra.
    split.
    + intros Hov.
      assert (Hrle : r <= IZR (Z.pos m) * b2 ez * (1 + b2 (-53))).
      { apply Rabs_le_between in Herr. lra. }
      destruct (rounds_to_fin _ _ _ Htri ltac:(lra)) as [Hf Hval].
      split; [exact Hf|]. rewrite Hval.
      replace (- r - - (IZR (Z.pos m) * b2 ez))
        with (- (r - IZR (Z.pos m) * b2 ez)) by ring.
      now rewrite Rabs_Ropp.
    + intros _. apply (rounds_to_neg _ r Htri).
      apply Rabs_le_between in Herr.
      assert (b2 (-53) < 1).
      { unfold b2. simpl. lra. }
      nra.
Qed.

Lemma SF2R_finite (s : bool) (m : positive) (e : Z) :
  SF2R (S754_finite s m e) = IZR (cond_Zopp s (Zpos m)) * b2 e.
Proof.
  destruct s; cbn [SF2R cond_Zopp]; [| reflexivity].
  change (- Z.pos m)%Z with (Z.neg m).
  change (Z.neg m) with (- Z.pos m)%Z. rewrite opp_IZR. ring.
Qed.

Lemma SF2R_neg_sign (s : bool) (m : positive) (e : Z) :
  SF2R (S754_finite s m e) < 0 -> s = true.
Proof.
  destruct s; [reflexivity|]. cbn [SF2R]. intros H. exfalso.
  assert (0 < IZR (Z.pos m) * b2 e)
    by (apply Rmult_lt_0_compat; [apply IZR_lt; lia | apply b2_pos]).
  lra.
Qed.

Lemma aligned_value (s : bool) (m : positive) (e ez : Z) :
  (ez <= e)%Z ->
  IZR (cond_Zopp s (Zpos (fst (shl_align m e ez)))) * b2 ez
  = SF2R (S754_finite s m e).
Proof.
  intros H. destruct (shl_align_spec m e ez H) as [_ Hf].
  rewrite SF2R_finite.
  pose proof (IZR_shift m (fst (shl_align m e ez)) e ez H Hf) as E.
  destruct s; cbn [cond_Zopp]; [| exact E].
  change (- Z.pos (fst (shl_align m e ez)))%Z
    with (Z.neg (fst (shl_align m e ez))).
  change (Z.neg (fst (shl_align m e ez)))
    with (- Z.pos (fst (shl_align m e ez)))%Z.
  change (- Z.pos m)%Z with (Z.neg m).
  change (Z.neg m) with (- Z.pos m)%Z.
  rewrite !opp_IZR. lra.
Qed.

(** [x - y]: finite and within the relative error [2^-53] when the
    exact difference is below the overflow threshold; negative or minus
    infinity when the exact difference is negative. *)
Lemma SFsub_real (x y : spec_float) :
  SpecFloat.valid_binary 53 1024 x = true ->
  SpecFloat.valid_binary 53 1024 y = true ->
  SFfin x = true -> SFfin y = true ->
  let V := SF2R x - SF2R y in
  let res := SFsub 53 1024 x y in
  (Rabs V * (1 + b2 (-53)) < b2 1024 ->
   SFfin res = true /\ Rabs (SF2R res - V) <= Rabs V * b2 (-53))
  /\ (V < 0 -> SFneg res = true).
Proof.
  intros Hvx Hvy Hfx Hfy V res. pose proof (b2_pos (-53)) as Hu.
  destruct x as [sx | sx | | sx mx ex]; try discriminate Hfx;
    destruct y as [sy | sy | | sy my ey]; try discriminate Hfy.
  - assert (E : SFfin res = true /\ SF2R res = 0)
      by (unfold res; destruct sx, sy; split; reflexivity).
    destruct E as [E1 E2]. unfold V. cbn [SF2R]. rewrite E2.
    rewrite !Rminus_0_r, Rabs_R0.
    split; [intros _; split; [exact E1 | lra] | lra].
  - unfold res, V. cbn [SFsub]. change (SF2R (S754_zero sx)) with 0.
    split.
    + intros _. split; [reflexivity|].
      replace (SF2R (S754_finite (negb sy) my ey) - (0 - SF2R (S754_finite sy my ey)))
        with 0 by (destruct sy; cbn [SF2R negb]; ring).
      rewrite Rabs_R0. apply Rmult_le_pos; [apply Rabs_pos | lra].
    + intros H. destruct sy; [exfalso | reflexivity].
      cbn [SF2R] in H.
      assert (0 < IZR (Z.pos my) * b2 ey)
        by (apply Rmult_lt_0_compat; [apply IZR_lt; lia | apply b2_pos]).
      lra.
  - unfold res, V. cbn [SFsub]. change (SF2R (S754_zero sy)) with 0.
    split.
    + intros _. split; [reflexivity|].
      replace (SF2R (S754_finite sx mx ex) - (SF2R (S754_finite sx mx ex) - 0))
        with 0 by ring.
      rewrite Rabs_R0. apply Rmult_le_pos; [apply Rabs_pos | lra].
    + intros H. rewrite Rminus_0_r in H. apply SF2R_neg_sign in H.
      now subst sx.
  - cbn [SpecFloat.valid_binary] in Hvx, Hvy.
    apply bounded_facts in Hvx. apply bounded_facts in Hvy.
    unfold res. cbn [SFsub].
    set (ez := Z.min ex ey).
    assert (EV : IZR (cond_Zopp sx (Z.pos (fst (shl_align mx ex ez)))
                      - cond_Zopp sy (Z.pos (fst (shl_align my ey ez))))
                 * b2 ez = V).
    { rewrite minus_IZR, Rmult_minus_distr_r.
      rewrite !aligned_value by (unfold ez; lia). reflexivity. }
    rewrite <- EV.
    apply binary_normalize_real. unfold ez. lia.
Qed.

(** [x + y] likewise. *)
Lemma SFadd_real (x y : spec_float) :
  SpecFloat.valid_binary 53 1024 x = true ->
  SpecFloat.valid_binary 53 1024 y = true ->
  SFfin x = true -> SFfin y = true ->
  let V := SF2R x + SF2R y in
  let res := SFadd 53 1024 x y in
  Rabs V * (1 + b2 (-53)) < b2 1024 ->
  SFfin res = true /\ Rabs (SF2R res - V) <= Rabs V * b2 (-53).
Proof.
  intros Hvx Hvy Hfx Hfy V res. pose proof (b2_pos (-53)) as Hu.
  destruct x as [sx | sx | | sx mx ex]; try discriminate Hfx;
    destruct y as [sy | sy | | sy my ey]; try discriminate Hfy.
  - assert (E : SFfin res = true /\ SF2R res = 0)
      by (unfold res; destruct sx, sy; split; reflexivity).
    destruct E as [E1 E2]. unfold V. cbn [SF2R]. rewrite E2.
    rewrite Rplus_0_r, !Rminus_0_r, Rabs_R0.
    intros _; split; [exact E1 | lra].
  - unfold res, V. cbn [SFadd]. change (SF2R (S754_zero sx)) with 0.
    intros _. split; [reflexivity|].
    replace (SF2R (S754_finite sy my ey) - (0 + SF2R (S754_finite sy my ey)))
      with 0 by ring.
    rewrite Rabs_R0. apply Rmult_le_pos; [apply Rabs_pos | lra].
  - unfold res, V. cbn [SFadd]. change (SF2R (S754_zero sy)) with 0.
    intros _. split; [reflexivity|].
    replace (SF2R (S754_finite sx mx ex) - (SF2R (S754_finite sx mx ex) + 0))
      with 0 by ring.
    rewrite Rabs_R0. apply Rmult_le_pos; [apply Rabs_pos | lra].
  - cbn [SpecFloat.valid_binary] in Hvx, Hvy.
    apply bounded_facts in Hvx. apply bounded_facts in Hvy.
    unfold res. cbn [SFadd].
    set (ez := Z.min ex ey).
    assert (EV : IZR (cond_Zopp sx (Z.pos (fst (shl_align mx ex ez)))
                      + cond_Zopp sy (Z.pos (fst (shl_align my ey ez))))
                 * b2 ez = V).
    { rewrite plus_IZR, Rmult_plus_distr_r.
      rewrite !aligned_value by (unfold ez; lia). reflexivity. }
    rewrite <- EV.
    apply binary_normalize_real. unfold ez. lia.
Qed.

(** [x * y]: the relative error [2^-53] plus the absolute error
    [2^-1075] of a result below the normal range. *)
Lemma SFmul_real (x y : spec_float) :
  SpecFloat.valid_binary 53 1024 x = true ->
  SpecFloat.valid_binary 53 1024 y = true ->
  SFfin x = true -> SFfin y = true ->
  let V := SF2R x * SF2R y in
  let res := SFmul 53 1024 x y in
  (Rabs V * (1 + b2 (-53)) + b2 (-1075) < b2 1024 ->
   SFfin res = true
   /\ Rabs (SF2R res - V) <= Rabs V * b2 (-53) + b2 (-1075)
   /\ (0 <= V -> 0 <= SF2R res))
  /\ (0 <= V -> SFfin res = true \/ res = S754_infinity false)
  /\ (SFfin res = true ->
      Rabs (SF2R res - V) <= Rabs V * b2 (-53) + b2 (-1075)
      /\ (0 <= V -> 0 <= SF2R res)).
Proof.
  intros Hvx Hvy Hfx Hfy V res.
  pose proof (b2_pos (-53)) as Hu. pose proof (b2_pos (-1075)) as Heta.
  assert (Hz : SF2R res = 0 -> V = 0 -> SFfin res = true ->
               (Rabs V * (1 + b2 (-53)) + b2 (-1075) < b2 1024 ->
                SFfin res = true
                /\ Rabs (SF2R res - V) <= Rabs V * b2 (-53) + b2 (-1075)
                /\ (0 <= V -> 0 <= SF2R res))
               /\ (0 <= V -> SFfin res = true \/ res = S754_infinity false)
               /\ (SFfin res = true ->
                   Rabs (SF2R res - V) <= Rabs V * b2 (-53) + b2 (-1075)
                   /\ (0 <= V -> 0 <= SF2R res))).
  { intros -> -> Hf.
    assert (K : Rabs (0 - 0) <= Rabs 0 * b2 (-53) + b2 (-1075)
                /\ (0 <= 0 -> 0 <= 0)).
    { replace (0 - 0) with 0 by ring. rewrite Rabs_R0. split; lra. }
    split; [| split; [now left | intros _; exact K]].
    intros _. split; [exact Hf | exact K]. }
  destruct x as [sx | sx | | sx mx ex]; try discriminate Hfx;
    destruct y as [sy | sy | | sy my ey]; try discriminate Hfy;
    try (apply Hz; [reflexivity | unfold V; cbn [SF2R]; ring
                    | reflexivity]).
  cbn [SpecFloat.valid_binary] in Hvx, Hvy.
  apply bounded_facts in Hvx. apply bounded_facts in Hvy.
  unfold res. cbn [SFmul].
  set (v := IZR (Z.pos (mx * my)) * b2 (ex + ey)).
  assert (Hvpos : 0 < v).
  { unfold v. apply Rmult_lt_0_compat; [apply IZR_lt; lia | apply b2_pos]. }
  assert (EV : V = if xorb sx sy then - v else v).
  { unfold V, v. cbn [SF2R]. rewrite Pos2Z.inj_mul, mult_IZR, b2_add.
    destruct sx, sy; cbn [xorb]; ring. }
  assert (EA : Rabs V = v).
  { rewrite EV. destruct (xorb sx sy);
      [rewrite Rabs_Ropp |]; apply Rabs_pos_eq; lra. }
  rewrite EA.
  destruct (round_aux_real (xorb sx sy) (mx * my) (ex + ey))
    as (r & Hr & Herr & Htri).
  { intros _.
    destruct Hvx as (Hex & Hdx & [Hx | Hx]); [| left; lia].
    destruct Hvy as (Hey & Hdy & [Hy | Hy]); [| left; lia].
    right.
    pose proof (digits2_pos_bounds mx) as Bx.
    pose proof (digits2_pos_bounds my) as By_.
    pose proof (digits2_pos_bounds (mx * my)) as Bxy.
    rewrite Hx in Bx. rewrite Hy in By_.
    change (2 ^ (53 - 1))%Z with 4503599627370496%Z in *.
    destruct (Z.le_gt_cases 53 (Z.pos (digits2_pos (mx * my)))) as [K | K];
      [exact K | exfalso].
    assert (H : (2 ^ Z.pos (digits2_pos (mx * my)) <= 2 ^ 52)%Z)
      by (apply Z.pow_le_mono_r; lia).
    change (2 ^ 52)%Z with 4503599627370496%Z in H.
    rewrite Pos2Z.inj_mul in Bxy. nia. }
  fold v in Herr.
  assert (Herr' : Rabs (r - v) <= v * b2 (-53) + b2 (-1075)).
  { destruct Herr as [K | [_ K]]; nra. }
  assert (Hfin : SFfin (binary_round_aux 53 1024 (xorb sx sy)
                          (Z.pos (mx * my)) (ex + ey) loc_Exact) = true ->
                 Rabs (SF2R (binary_round_aux 53 1024 (xorb sx sy)
                               (Z.pos (mx * my)) (ex + ey) loc_Exact) - V)
                 <= v * b2 (-53) + b2 (-1075)
                 /\ (0 <= V ->
                     0 <= SF2R (binary_round_aux 53 1024 (xorb sx sy)
                                  (Z.pos (mx * my)) (ex + ey) loc_Exact))).
  { intros Hf. rewrite EV.
    destruct Htri as [[Ei _] | [[Ez Er] | (p & e1 & Ef & Er)]].
    - rewrite Ei in Hf. discriminate Hf.
    - rewrite Ez. cbn [SF2R]. subst r.
      destruct (xorb sx sy).
      + split; [| lra].
        replace (0 - - v) with (- (0 - v)) by ring. now rewrite Rabs_Ropp.
      + split; [exact Herr' | lra].
    - rewrite Ef.
      destruct (xorb sx sy); cbn [SF2R]; rewrite <- Er.
      + split; [| lra].
        replace (- r - - v) with (- (r - v)) by ring. now rewrite Rabs_Ropp.
      + split; [exact Herr' | lra]. }
  split; [| split].
  - intros Hov.
    assert (Hrle : r < b2 1024).
    { apply Rabs_le_between in Herr'. lra. }
    destruct (rounds_to_fin _ _ _ Htri Hrle) as [Hf Hval].
    split; [exact Hf|]. now apply Hfin.
  - intros HV. rewrite EV in HV.
    destruct (xorb sx sy); [lra|].
    destruct Htri as [[-> _] | [[-> _] | (p & e1 & -> & _)]];
      [now right | now left | now left].
  - exact Hfin.
Qed.


(** *** The operations on machine floats *)
Lemma Prim2SF_valid_b64 (x : float) :
  SpecFloat.valid_binary 53 1024 (Prim2SF x) = true.
Proof. exact (Prim2SF_valid x). Qed.

Lemma B64_sub_real (x y : float) :
  Bfin x = true -> Bfin y = true ->
  let V := B2R x - B2R y in
  (Rabs V * (1 + b2 (-53)) < b2 1024 ->
   Bfin (x - y) = true /\ Rabs (B2R (x - y) - V) <= Rabs V * b2 (-53))
  /\ (V < 0 -> Bneg (x - y) = true).
Proof.
  intros Hx Hy. unfold Bfin, Bneg, B2R. cbv zeta. rewrite FloatAxioms.sub_spec.
  apply SFsub_real; auto using Prim2SF_valid_b64.
Qed.

Lemma B64_add_real (x y : float) :
  Bfin x = true -> Bfin y = true ->
  let V := B2R x + B2R y in
  Rabs V * (1 + b2 (-53)) < b2 1024 ->
  Bfin (x + y) = true /\ Rabs (B2R (x + y) - V) <= Rabs V * b2 (-53).
Proof.
  intros Hx Hy. unfold Bfin, B2R. cbv zeta. rewrite FloatAxioms.add_spec.
  apply SFadd_real; auto using Prim2SF_valid_b64.
Qed.

Lemma B64_mul_real (x y : float) :
  Bfin x = true -> Bfin y = true ->
  let V := B2R x * B2R y in
  (Rabs V * (1 + b2 (-53)) + b2 (-1075) < b2 1024 ->
   Bfin (x * y) = true
   /\ Rabs (B2R (x * y) - V) <= Rabs V * b2 (-53) + b2 (-1075)
   /\ (0 <= V -> 0 <= B2R (x * y)))
  /\ (0 <= V -> Bfin (x * y) = true \/ Prim2SF (x * y) = S754_infinity false)
  /\ (Bfin (x * y) = true ->
      Rabs (B2R (x * y) - V) <= Rabs V * b2 (-53) + b2 (-1075)
      /\ (0 <= V -> 0 <= B2R (x * y))).
Proof.
  intros Hx Hy. unfold Bfin, B2R. cbv zeta. rewrite FloatAxioms.mul_spec.
  apply SFmul_real; auto using Prim2SF_valid_b64.
Qed.

Lemma SFneg_value (x : spec_float) :
  SFfin x = true -> (SFneg x = true <-> SF2R x < 0).
Proof.
  destruct x as [s | s | | s m e]; try discriminate; intros _.
  - cbn. split; [discriminate | lra].
  - assert (0 < IZR (Z.pos m) * b2 e)
      by (apply Rmult_lt_0_compat; [apply IZR_lt; lia | apply b2_pos]).
    destruct s; cbn; split; try discriminate; try reflexivity; lra.
Qed.

(** Subtracting a non-negative number from a negative one, or from
    minus infinity, leaves a negative number or minus infinity. *)
Lemma B64_sub_neg (x y : float) :
  Bneg x = true -> Bfin y = true -> 0 <= B2R y -> Bneg (x - y) = true.
Proof.
  intros Hx Hy Hy0.
  destruct (Bfin x) eqn:Fx.
  - apply (B64_sub_real x y Fx Hy).
    apply (SFneg_value _ Fx) in Hx. unfold B2R. unfold B2R in Hy0. lra.
  - unfold Bneg, Bfin in *. rewrite FloatAxioms.sub_spec.
    destruct (Prim2SF x) as [s | s | | s m e]; try discriminate.
    destruct s; [| discriminate].
    destruct (Prim2SF y) as [s | s | | s m e]; try discriminate; reflexivity.
Qed.

Lemma Prim2SF_zero : Prim2SF 0%float = S754_zero false.
Proof. reflexivity. Qed.

(** [0 <= x] and [0 < x] on machine floats. *)
Lemma leb_zero_fin (x : float) :
  Bfin x = true -> ((0 <=? x)%float = true <-> 0 <= B2R x).
Proof.
  unfold Bfin, B2R. rewrite FloatAxioms.leb_spec, Prim2SF_zero.
  destruct (Prim2SF x) as [s | s | | s m e]; try discriminate; intros _.
  - cbn. split; [lra | reflexivity].
  - assert (0 < IZR (Z.pos m) * b2 e)
      by (apply Rmult_lt_0_compat; [apply IZR_lt; lia | apply b2_pos]).
    destruct s; cbn; split; try discriminate; try reflexivity; lra.
Qed.

Lemma leb_zero_neg (x : float) :
  Bneg x = true -> (0 <=? x)%float = false.
Proof.
  unfold Bneg. rewrite FloatAxioms.leb_spec, Prim2SF_zero.
  destruct (Prim2SF x) as [s | s | | s m e]; try discriminate;
    destruct s; try discriminate; reflexivity.
Qed.

Lemma ltb_zero_cases (x : float) :
  (0 <? x)%float = true ->
  Prim2SF x = S754_infinity false \/ (Bfin x = true /\ 0 < B2R x).
Proof.
  unfold Bfin, B2R. rewrite FloatAxioms.ltb_spec, Prim2SF_zero.
  destruct (Prim2SF x) as [s | s | | s m e]; try discriminate.
  - destruct s; [discriminate | now left].
  - destruct s; [discriminate|]. intros _. right. split; [reflexivity|].
    cbn. apply Rmult_lt_0_compat; [apply IZR_lt; lia | apply b2_pos].
Qed.

Lemma ltb_zero_fin (x : float) :
  Bfin x = true -> 0 < B2R x -> (0 <? x)%float = true.
Proof.
  unfold Bfin, B2R. rewrite FloatAxioms.ltb_spec, Prim2SF_zero.
  destruct (Prim2SF x) as [s | s | | s m e]; try discriminate; intros _.
  - cbn. lra.
  - assert (0 < IZR (Z.pos m) * b2 e)
      by (apply Rmult_lt_0_compat; [apply IZR_lt; lia | apply b2_pos]).
    destruct s; cbn; [lra | reflexivity].
Qed.

(** [Number.isFinite] *)
Lemma is_finite_Bfin (x : float) : is_finite x = true -> Bfin x = true.
Proof.
  unfold is_finite, is_nan, is_infinity, Bfin.
  rewrite !FloatAxioms.eqb_spec, FloatAxioms.abs_spec.
  destruct (Prim2SF x) as [s | s | | s m e]; try reflexivity.
  - destruct s; discriminate.
  - discriminate.
Qed.

(** A finite double is below [2^1024]. *)
Lemma B2R_bound (x : float) : Bfin x = true -> Rabs (B2R x) < b2 1024.
Proof.
  unfold Bfin, B2R. pose proof (Prim2SF_valid_b64 x) as Hv.
  destruct (Prim2SF x) as [s | s | | s m e]; try discriminate; intros _.
  - cbn [SF2R]. rewrite Rabs_R0. apply b2_pos.
  - cbn [SpecFloat.valid_binary] in Hv. apply bounded_facts in Hv.
    destruct Hv as (He & Hd & _).
    pose proof (digits2_pos_bounds m) as Hb.
    assert (H53 : (Z.pos m < 2 ^ 53)%Z).
    { assert ((2 ^ Z.pos (digits2_pos m) <= 2 ^ 53)%Z)
        by (apply Z.pow_le_mono_r; lia). lia. }
    apply IZR_lt in H53. rewrite <- b2_nat in H53 by lia.
    assert (Hpos : 0 < IZR (Z.pos m)) by (apply IZR_lt; lia).
    pose proof (b2_pos e) as Hbe. pose proof (b2_le e 971 ltac:(lia)) as Hle.
    assert (Habs : Rabs (SF2R (S754_finite s m e)) = IZR (Z.pos m) * b2 e).
    { destruct s; cbn [SF2R]; [rewrite Rabs_Ropp |];
        apply Rabs_pos_eq; nra. }
    rewrite Habs. replace 1024%Z with (53 + 971)%Z by lia. rewrite b2_add.
    pose proof (b2_pos 971). pose proof (b2_pos 53). nra.
Qed.

(** [x <=? y] on a finite or positive infinite [x > 0] and finite [y]. *)

Lemma leb_pos_real (x y : float) :
  Bfin y = true -> 0 <= B2R x ->
  (Bfin x = true \/ Prim2SF x = S754_infinity false) ->
  (x <=? y)%float = true ->
  Bfin x = true /\ B2R x <= B2R y.
Proof.
  unfold Bfin, B2R. rewrite FloatAxioms.leb_spec.
  pose proof (Prim2SF_valid_b64 x) as Hvx.
  pose proof (Prim2SF_valid_b64 y) as Hvy.
  destruct (Prim2SF y) as [sy | sy | | sy my ey]; try discriminate;
    intros _ Hx0 Hx Hle.
  - destruct (Prim2SF x) as [sx | sx | | sx mx ex];
      try (destruct Hx as [Hx | Hx]; discriminate Hx).
    + split; [reflexivity | cbn; lra].
    + destruct Hx as [Hx | Hx]; [discriminate Hx|].
      injection Hx as ->. discriminate Hle.
    + split; [reflexivity|].
      destruct sx; cbn in Hle; [| discriminate Hle].
      cbn [SF2R]. cbn [SF2R] in Hx0.
      assert (0 < IZR (Z.pos mx) * b2 ex)
        by (apply Rmult_lt_0_compat; [apply IZR_lt; lia | apply b2_pos]).
      lra.
  - assert (Hy : 0 < IZR (Z.pos my) * b2 ey)
      by (apply Rmult_lt_0_compat; [apply IZR_lt; lia | apply b2_pos]).
    destruct (Prim2SF x) as [sx | sx | | sx mx ex];
      try (destruct Hx as [Hx | Hx]; discriminate Hx).
    + split; [reflexivity|]. cbn [SF2R].
      destruct sy; cbn in Hle; [discriminate Hle | lra].
    + destruct Hx as [Hx | Hx]; [discriminate Hx|].
      injection Hx as ->. discriminate Hle.
    + split; [reflexivity|].
      assert (Hxp : 0 < IZR (Z.pos mx) * b2 ex)
        by (apply Rmult_lt_0_compat; [apply IZR_lt; lia | apply b2_pos]).
      destruct sx; cbn [SF2R] in Hx0 |- *; [lra|].
      destruct sy; [discriminate Hle|].
      cbn [SpecFloat.valid_binary] in Hvx, Hvy.
      apply bounded_facts in Hvx. apply bounded_facts in Hvy.
      destruct Hvx as (Hex & Hdx & Hcx). destruct Hvy as (Hey & Hdy & Hcy).
      pose proof (digits2_pos_bounds mx) as Bx.
      pose proof (digits2_pos_bounds my) as By_.
      unfold SFleb, SFcompare in Hle.
      destruct (Z.compare_spec ex ey) as [E | E | E].
      * subst ey.
        assert (Hm : (Z.pos mx <= Z.pos my)%Z).
        { rewrite Pos.compare_cont_spec in Hle. cbn [Pos.switch_Eq] in Hle.
          destruct (Pos.compare_spec mx my) as [K | K | K];
            [subst; lia | lia | discriminate Hle]. }
        apply IZR_le in Hm. pose proof (b2_pos ex). nra.
      * (* ex < ey: y is normal *)
        assert (Hdy53 : Z.pos (digits2_pos my) = 53%Z) by lia.
        rewrite Hdy53 in By_.
        assert (Hx53 : (Z.pos mx < 2 ^ 53)%Z).
        { assert ((2 ^ Z.pos (digits2_pos mx) <= 2 ^ 53)%Z)
            by (apply Z.pow_le_mono_r; lia). lia. }
        apply IZR_lt in Hx53. rewrite <- b2_nat in Hx53 by lia.
        destruct By_ as [By_ _]. apply IZR_le in By_.
        rewrite <- b2_nat in By_ by lia.
        pose proof (b2_le (ex + 1) ey ltac:(lia)) as Hb.
        rewrite b2_add in Hb. change (b2 1) with (powerRZ 2 1) in Hb.
        simpl powerRZ in Hb.
        assert (E53 : b2 53 = b2 (53 - 1) * 2).
        { replace 53%Z with (52 + 1)%Z at 1 by lia. rewrite b2_add.
          change (b2 1) with (powerRZ 2 1). simpl powerRZ.
          change (53 - 1)%Z with 52%Z. lra. }
        pose proof (b2_pos ex). pose proof (b2_pos ey).
        pose proof (b2_pos (53 - 1)).
        assert (IZR (Z.pos mx) * b2 ex <= b2 53 * b2 ex) by nra.
        assert (b2 (53 - 1) * b2 ey <= IZR (Z.pos my) * b2 ey) by nra.
        assert (b2 53 * b2 ex <= b2 (53 - 1) * b2 ey).
        { rewrite E53. nra. }
        lra.
      * discriminate Hle.
Qed.

(** *** The constants of the classifier as rational numbers *)
Lemma b2_neg (n : Z) : (0 <= n)%Z -> b2 (- n) = / IZR (2 ^ n).
Proof.
  intros H. pose proof (b2_pos n) as Hp. pose proof (b2_pos (- n)) as Hn.
  assert (E : b2 (- n) * b2 n = 1).
  { rewrite <- b2_add. replace (- n + n)%Z with 0%Z by lia. reflexivity. }
  rewrite <- (b2_nat n H). apply Rmult_eq_reg_r with (b2 n); [| lra].
  rewrite E. field. lra.
Qed.

Lemma const_value (k : float) (m : positive) (n : Z) :
  Prim2SF k = S754_finite false m (- n) -> (0 <= n)%Z ->
  Bfin k = true /\ B2R k = IZR (Zpos m) / IZR (2 ^ n).
Proof.
  intros E Hn. unfold Bfin, B2R. rewrite E. split; [reflexivity|].
  cbn [SF2R]. now rewrite b2_neg.
Qed.

Lemma k49_value :
  Bfin (1 - B64.d_max)%float = true
  /\ B2R (1 - B64.d_max)%float = 8827055269646172 / 18014398509481984.
Proof. apply (const_value _ 8827055269646172 54); [reflexivity | lia]. Qed.

Lemma k129_value :
  Bfin B64.ship_cost = true
  /\ B2R B64.ship_cost = 7262054399134925 / 562949953421312.
Proof. apply (const_value _ 7262054399134925 49); [reflexivity | lia]. Qed.

Lemma k85_value :
  Bfin B64.cust_ship = true
  /\ B2R B64.cust_ship = 4785074604081152 / 562949953421312.
Proof. apply (const_value _ 4785074604081152 49); [reflexivity | lia]. Qed.

Lemma k12_value :
  Bfin B64.aff_rate = true
  /\ B2R B64.aff_rate = 8646911284551352 / 72057594037927936.
Proof. apply (const_value _ 8646911284551352 56); [reflexivity | lia]. Qed.

Lemma k0455_value :
  Bfin B64.other_rate = true
  /\ B2R B64.other_rate = 6557241057451442 / 144115188075855872.
Proof. apply (const_value _ 6557241057451442 57); [reflexivity | lia]. Qed.

Lemma kgap_value :
  Bfin 1.000000001%float = true
  /\ B2R 1.000000001%float = 4503599631874096 / 4503599627370496.
Proof. apply (const_value _ 4503599631874096 52); [reflexivity | lia]. Qed.

Lemma u_value : b2 (-53) = / 9007199254740992.
Proof. exact (b2_neg 53 ltac:(lia)). Qed.

Lemma eta_bound : 0 < b2 (-1075) <= / 9007199254740992.
Proof.
  split; [apply b2_pos|]. rewrite <- u_value. apply b2_le. lia.
Qed.

Lemma omega_bound : 1048576 <= b2 1024.
Proof.
  replace 1048576 with (b2 20) by (rewrite b2_nat by lia; reflexivity).
  apply b2_le. lia.
Qed.

(** *** The classifier: from the computed margin to the exact one

    The three operations on non-negative operands, with the error
    bounds as linear inequalities. *)
Lemma B64_mul_pos (x k : float) (kv : R) :
  Bfin x = true -> Bfin k = true -> B2R k = kv -> 0 <= kv <= 1 ->
  0 <= B2R x -> B2R x * 2 < b2 1024 ->
  Bfin (x * k) = true
  /\ 0 <= B2R (x * k)
  /\ B2R x * kv * (1 - / 9007199254740992) - b2 (-1075) <= B2R (x * k)
     <= B2R x * kv * (1 + / 9007199254740992) + b2 (-1075).
Proof.
  intros Fx Fk Vk Hk Hx Hov.
  destruct (B64_mul_real x k Fx Fk) as (H & _ & _). cbv zeta in H.
  rewrite Vk, u_value in H.
  pose proof eta_bound as He. pose proof omega_bound as Ho.
  assert (HV : 0 <= B2R x * kv) by nra.
  assert (HV2 : B2R x * kv <= B2R x) by nra.
  rewrite (Rabs_pos_eq _ HV) in H.
  destruct H as (F & E & S); [lra|].
  apply Rabs_le_between in E.
  split; [exact F|]. split; [now apply S|]. lra.
Qed.

Lemma B64_add_pos (x y : float) :
  Bfin x = true -> Bfin y = true ->
  0 <= B2R x + B2R y -> (B2R x + B2R y) * 2 < b2 1024 ->
  Bfin (x + y) = true
  /\ (B2R x + B2R y) * (1 - / 9007199254740992) <= B2R (x + y)
     <= (B2R x + B2R y) * (1 + / 9007199254740992).
Proof.
  intros Fx Fy HV Hov.
  pose proof (B64_add_real x y Fx Fy) as H. cbv zeta in H.
  rewrite u_value in H.
  rewrite (Rabs_pos_eq _ HV) in H.
  destruct H as (F & E); [lra|].
  apply Rabs_le_between in E.
  split; [exact F|]. lra.
Qed.

Lemma B64_sub_pos (x y : float) :
  Bfin x = true -> Bfin y = true ->
  0 <= B2R x - B2R y -> (B2R x - B2R y) * 2 < b2 1024 ->
  Bfin (x - y) = true
  /\ (B2R x - B2R y) * (1 - / 9007199254740992) <= B2R (x - y)
     <= (B2R x - B2R y) * (1 + / 9007199254740992).
Proof.
  intros Fx Fy HV Hov.
  destruct (B64_sub_real x y Fx Fy) as [H _]. cbv zeta in H.
  rewrite u_value in H.
  rewrite (Rabs_pos_eq _ HV) in H.
  destruct H as (F & E); [lra|].
  apply Rabs_le_between in E.
  split; [exact F|]. lra.
Qed.

Lemma B64_sub_lt (x y : float) :
  Bfin x = true -> Bfin y = true -> B2R x - B2R y < 0 ->
  Bneg (x - y) = true.
Proof. intros Fx Fy H. now apply (B64_sub_real x y Fx Fy). Qed.

Lemma B64_sub_inf (x y : float) :
  Bfin x = true -> Prim2SF y = S754_infinity false -> Bneg (x - y) = true.
Proof.
  unfold Bfin, Bneg. rewrite FloatAxioms.sub_spec. intros Fx ->.
  destruct (Prim2SF x) as [s | s | | s m e]; try discriminate; reflexivity.
Qed.

(** The four terms of the margin that depend on the price alone. *)
Lemma price_terms (M : float) :
  Bfin M = true -> 0 < B2R M ->
  let P := (M * (1 - B64.d_max))%float in
  let AFF := (P * B64.aff_rate)%float in
  let GROSS := (P + B64.cust_ship)%float in
  let OTHER := (GROSS * B64.other_rate)%float in
  let u := u64 in
  let eta := b2 (-1075) in
  Bfin P = true /\ Bfin AFF = true /\ Bfin OTHER = true
  /\ 0 <= B2R P /\ 0 <= B2R AFF /\ 0 <= B2R OTHER
  /\ B2R M * (8827055269646172 / 18014398509481984) * (1 - u) - eta
     <= B2R P
     <= B2R M * (8827055269646172 / 18014398509481984) * (1 + u) + eta
  /\ B2R P * (8646911284551352 / 72057594037927936) * (1 - u) - eta
     <= B2R AFF
     <= B2R P * (8646911284551352 / 72057594037927936) * (1 + u) + eta
  /\ (B2R P + 4785074604081152 / 562949953421312) * (1 - u)
     <= B2R GROSS
     <= (B2R P + 4785074604081152 / 562949953421312) * (1 + u)
  /\ B2R GROSS * (6557241057451442 / 144115188075855872) * (1 - u) - eta
     <= B2R OTHER
     <= B2R GROSS * (6557241057451442 / 144115188075855872) * (1 + u) + eta.
Proof.
  intros FM Hm P AFF GROSS OTHER u eta. subst u. unfold u64.
  pose proof (B2R_bound M FM) as Hb. rewrite Rabs_pos_eq in Hb by lra.
  pose proof eta_bound as He. fold eta in He.
  pose proof omega_bound as Ho.
  destruct k49_value as [F49 V49]. destruct k12_value as [F12 V12].
  destruct k85_value as [F85 V85]. destruct k0455_value as [F0455 V0455].
  destruct (B64_mul_real M (1 - B64.d_max)%float FM F49) as (HP & _ & _).
  cbv zeta in HP. rewrite V49, u_value in HP. fold eta in HP.
  rewrite Rabs_pos_eq in HP by lra.
  destruct HP as (FP & EP & SP); [lra|].
  apply Rabs_le_between in EP. fold P in FP, EP, SP.
  assert (HP0 : 0 <= B2R P) by (apply SP; lra).
  destruct (B64_mul_pos P B64.aff_rate _ FP F12 V12) as (FA & A0 & EA);
    [lra | exact HP0 | lra |]. fold AFF in FA, A0, EA. fold eta in EA.
  destruct (B64_add_pos P B64.cust_ship FP F85) as (FG & EG);
    [rewrite V85; lra | rewrite V85; lra |].
  rewrite V85 in EG. fold GROSS in FG, EG.
  destruct (B64_mul_pos GROSS B64.other_rate _ FG F0455 V0455) as (FO & O0 & EO);
    [lra | lra | lra |]. fold OTHER in FO, O0, EO. fold eta in EO.
  repeat split; try assumption; lra.
Qed.

(** A margin the script computes as non-negative bounds the cost by a
    line in the price: the exact threshold
    [0.408905 * M - 13.28675] with a relative slack of [10^-12], which
    covers the rounding of the seven operations. *)
Lemma margin_standard_inv (M C : float) :
  Bfin M = true -> 0 < B2R M -> (0 <? C)%float = true ->
  (0 <=? B64.margin_G M C)%float = true ->
  Bfin C = true /\ 0 < B2R C
  /\ B2R C <= 0.4089050000005 * B2R M - 13.28674999998.
Proof.
  intros FM Hm HC HG.
  destruct (price_terms M FM Hm)
    as (FP & FA & FO & P0 & A0 & O0 & EP & EA & EG & EO).
  cbv zeta in FP, FA, FO, P0, A0, O0, EP, EA, EG, EO.
  unfold u64 in *.
  unfold B64.margin_G in HG. cbv zeta in HG.
  set (P := (M * (1 - B64.d_max))%float) in *.
  set (AFF := (P * B64.aff_rate)%float) in *.
  set (GROSS := (P + B64.cust_ship)%float) in *.
  set (OTHER := (GROSS * B64.other_rate)%float) in *.
  set (eta := b2 (-1075)) in *.
  pose proof eta_bound as He. fold eta in He.
  pose proof omega_bound as Ho.
  pose proof (B2R_bound M FM) as Hb. rewrite Rabs_pos_eq in Hb by lra.
  destruct k129_value as [F129 V129].
  assert (Hc3 : forall T3, Bneg T3 = true ->
                (0 <=? T3 - OTHER)%float = true -> False).
  { intros T3 HT H. rewrite leb_zero_neg in H; [discriminate H|].
    now apply B64_sub_neg. }
  assert (Hc2 : forall T2, Bneg T2 = true ->
                (0 <=? T2 - AFF - OTHER)%float = true -> False).
  { intros T2 HT. apply Hc3. now apply B64_sub_neg. }
  assert (Hc1 : forall T1, Bneg T1 = true ->
                (0 <=? T1 - B64.ship_cost - AFF - OTHER)%float = true -> False).
  { intros T1 HT. apply Hc2. apply B64_sub_neg; [exact HT | exact F129|].
    rewrite V129. lra. }
  destruct (ltb_zero_cases C HC) as [Cinf | [FC Hc]].
  { exfalso. apply (Hc1 (P - C)%float); [| exact HG].
    now apply B64_sub_inf. }
  split; [exact FC|]. split; [exact Hc|].
  destruct (Rlt_le_dec (B2R P - B2R C) 0) as [K1 | K1].
  { exfalso. apply (Hc1 (P - C)%float); [| exact HG].
    now apply B64_sub_lt. }
  destruct (B64_sub_pos P C FP FC K1) as (FT1 & ET1); [lra|].
  set (T1 := (P - C)%float) in *.
  destruct (Rlt_le_dec (B2R T1 - B2R B64.ship_cost) 0) as [K2 | K2].
  { exfalso. apply (Hc2 (T1 - B64.ship_cost)%float); [| exact HG].
    now apply B64_sub_lt. }
  destruct (B64_sub_pos T1 B64.ship_cost FT1 F129 K2) as (FT2 & ET2);
    [rewrite V129 in *; lra|].
  set (T2 := (T1 - B64.ship_cost)%float) in *.
  destruct (Rlt_le_dec (B2R T2 - B2R AFF) 0) as [K3 | K3].
  { exfalso. apply (Hc3 (T2 - AFF)%float); [| exact HG].
    now apply B64_sub_lt. }
  destruct (B64_sub_pos T2 AFF FT2 FA K3) as (FT3 & ET3);
    [rewrite V129 in *; lra|].
  set (T3 := (T2 - AFF)%float) in *.
  destruct (Rlt_le_dec (B2R T3 - B2R OTHER) 0) as [K4 | K4].
  { exfalso. rewrite leb_zero_neg in HG; [discriminate HG|].
    now apply B64_sub_lt. }
  rewrite V129 in *. lra.
Qed.

(** Conversely a cost below the line with the opposite slack gives a
    margin that the script computes as non-negative. *)
Lemma margin_standard_intro (M C : float) :
  Bfin M = true -> 0 < B2R M -> Bfin C = true -> 0 < B2R C ->
  B2R C <= 0.4089049999995 * B2R M - 13.28675000002 ->
  (0 <=? B64.margin_G M C)%float = true.
Proof.
  intros FM Hm FC Hc Hle.
  destruct (price_terms M FM Hm)
    as (FP & FA & FO & P0 & A0 & O0 & EP & EA & EG & EO).
  cbv zeta in FP, FA, FO, P0, A0, O0, EP, EA, EG, EO.
  unfold u64 in *.
  unfold B64.margin_G. cbv zeta.
  set (P := (M * (1 - B64.d_max))%float) in *.
  set (AFF := (P * B64.aff_rate)%float) in *.
  set (GROSS := (P + B64.cust_ship)%float) in *.
  set (OTHER := (GROSS * B64.other_rate)%float) in *.
  set (eta := b2 (-1075)) in *.
  pose proof eta_bound as He. fold eta in He.
  pose proof omega_bound as Ho.
  pose proof (B2R_bound M FM) as Hb. rewrite Rabs_pos_eq in Hb by lra.
  destruct k129_value as [F129 V129].
  destruct (B64_sub_pos P C FP FC) as (FT1 & ET1); [lra | lra |].
  set (T1 := (P - C)%float) in *.
  destruct (B64_sub_pos T1 B64.ship_cost FT1 F129) as (FT2 & ET2);
    [rewrite V129; lra | rewrite V129; lra |].
  rewrite V129 in ET2.
  set (T2 := (T1 - B64.ship_cost)%float) in *.
  destruct (B64_sub_pos T2 AFF FT2 FA) as (FT3 & ET3); [lra | lra |].
  set (T3 := (T2 - AFF)%float) in *.
  destruct (B64_sub_pos T3 OTHER FT3 FO) as (FG & EGm); [lra | lra |].
  apply leb_zero_fin; [exact FG | lra].
Qed.

(** [M1 * 1.000000001 <= M2] on doubles, read on real numbers. *)
Lemma gap_real (M1 M2 : float) :
  Bfin M2 = true -> (0 <? M1)%float = true ->
  (M1 * 1.000000001 <=? M2)%float = true ->
  Bfin M1 = true /\ 0 < B2R M1
  /\ B2R M1 * (4503599631874096 / 4503599627370496) * (1 - u64)
     - b2 (-1075) <= B2R M2.
Proof.
  intros FM2 HM1 Hgap.
  destruct kgap_value as [Fk Vk].
  destruct (ltb_zero_cases M1 HM1) as [Minf | [FM1 Hm1]].
  - exfalso. revert Hgap FM2. unfold Bfin.
    rewrite FloatAxioms.leb_spec, FloatAxioms.mul_spec, Minf.
    replace (Prim2SF 1.000000001)
      with (S754_finite false 4503599631874096 (-52)) by reflexivity.
    destruct (Prim2SF M2) as [s | s | | s m e]; try discriminate;
      intros H; discriminate H.
  - split; [exact FM1|]. split; [exact Hm1|].
    destruct (B64_mul_real M1 1.000000001 FM1 Fk) as (_ & Hc & Hf).
    cbv zeta in Hc, Hf. rewrite Vk, u_value in *.
    assert (HV : 0 <= B2R M1 * (4503599631874096 / 4503599627370496)) by lra.
    rewrite (Rabs_pos_eq _ HV) in Hf.
    assert (H0 : Bfin (M1 * 1.000000001) = true ->
                 0 <= B2R (M1 * 1.000000001)).
    { intros F. now apply (Hf F). }
    destruct (leb_pos_real (M1 * 1.000000001) M2 FM2) as [Fg Hg];
      [| now apply Hc | exact Hgap |].
    + destruct (Hc HV) as [F | E]; [now apply H0|].
      unfold B2R. rewrite E. cbn [SF2R]. lra.
    + destruct (Hf Fg) as [Eg _]. apply Rabs_le_between in Eg.
      unfold u64. lra.
Qed.

(** C4 (counterexample).  With the cost 11.85 and the reference price
    61.47332509996209 the script computes the margin [2.2e-16] and
    classifies the product as [standard]; at the next double above, the
    margin it computes is [-2.2e-16] and the product is [low-margin]:
    the computed margin decreases and the regime moves from [standard]
    to [low-margin] although the reference price grew. *)
Lemma C4_adjacent_doubles_counterexample :
  let C := 11.85%float in
  let M1 := 61.47332509996209%float in
  let M2 := 61.473325099962096%float in
  next_up M1 = M2
  /\ (M1 <? M2)%float = true
  /\ B64.determineTypeArigato M1 C [] = Standard
  /\ B64.determineTypeArigato M2 C [] = LowMargin
  /\ (B64.margin_G M2 C <? B64.margin_G M1 C)%float = true.
Proof. vm_compute. repeat split. Qed.

(** C4 (amended).  For a fixed cost and a fixed tag set, a product that
    the script classifies as [standard] at the reference price [M1] is
    classified as [standard], and so not as [low-margin], at every
    finite reference price [M2] with [M1 * 1.000000001 <= M2]: a rise
    of one part in a billion or more.  Prices, cost, the product and
    the comparison are those of the script's doubles; every number the
    script reads is finite. *)
Theorem C4_regime_monotone (M1 M2 C : float) (tags : list string) :
  is_finite M2 = true ->
  (M1 * 1.000000001 <=? M2)%float = true ->
  B64.determineTypeArigato M1 C tags = Standard ->
  B64.determineTypeArigato M2 C tags = Standard
  /\ B64.determineTypeArigato M2 C tags <> LowMargin.
Proof.
  intros HfM2 Hgap H1.
  unfold B64.determineTypeArigato in H1.
  destruct (0 <? M1)%float eqn:HM1; [| discriminate H1].
  destruct (0 <? C)%float eqn:HC; [| discriminate H1].
  cbn [negb orb] in H1.
  destruct (hasUsedGateway tags) eqn:Hg; [discriminate H1|].
  destruct (0 <=? B64.margin_G M1 C)%float eqn:HG1; [| discriminate H1].
  pose proof (is_finite_Bfin M2 HfM2) as FM2.
  destruct (gap_real M1 M2 FM2 HM1 Hgap) as (FM1 & Hm1 & Hm2).
  destruct (margin_standard_inv M1 C FM1 Hm1 HC HG1) as (FC & Hc & Hle).
  pose proof eta_bound as He. unfold u64 in Hm2.
  assert (Hm2pos : 0 < B2R M2) by lra.
  assert (HG2 : (0 <=? B64.margin_G M2 C)%float = true).
  { apply margin_standard_intro; try assumption. lra. }
  unfold B64.determineTypeArigato.
  rewrite (ltb_zero_fin M2 FM2 Hm2pos), HC, Hg, HG2.
  split; [reflexivity | discriminate].
Qed.

Lemma C4_regime_monotone_witness :
  B64.determineTypeArigato 1000 300 [] = Standard
  /\ B64.determineTypeArigato 1000.00001 300 [] = Standard.
Proof.
  split; [reflexivity|].
  apply (C4_regime_monotone 1000 1000.00001 300 []);
    vm_compute; reflexivity.
Defined.

(** On the real-number model the classifier of the VAT scripts never
    leaves [standard] either when the reference price grows. *)
Lemma Vat_regime_monotone (C : R) (tags : list string) (M1 M2 : R) :
  M1 <= M2 ->
  margin_G Vat.classifier M1 C <= margin_G Vat.classifier M2 C
  /\ (Vat.determineTypeArigato M1 C tags = Standard ->
      Vat.determineTypeArigato M2 C tags = Standard).
Proof.
  intros HM.
  assert (HG : margin_G Vat.classifier M1 C <= margin_G Vat.classifier M2 C)
    by (rewrite !Vat_margin_closed_form; lra).
  split; [exact HG|].
  unfold Vat.determineTypeArigato. intros H1.
  apply determineTypeWith_standard in H1.
  apply determineTypeWith_standard.
  destruct H1 as (? & ? & ? & ?). repeat split; try assumption; lra.
Qed.

(** ** Worked scenario 1: a standard product *)

Lemma ln_25_ge_2 : 2 <= ln 25.
Proof.
  destruct (Rle_or_lt 2 (ln 25)) as [H | H]; [exact H|].
  exfalso.
  assert (H1 : exp (ln 25) < exp 2) by now apply exp_increasing.
  rewrite exp_ln in H1 by lra.
  replace 2 with (1 + 1) in H1 by lra. rewrite exp_plus in H1.
  pose proof exp_le_3 as H3. pose proof (exp_pos 1) as Hp.
  nra.
Qed.

Lemma NoVat_m_shape_1000 :
  146 / 100 <= Math_pow (1000 / M_ref NoVat.STD) (- gamma_M NoVat.STD).
Proof.
  unfold Math_pow, Rpower; simpl.
  replace (1000 / 25000) with (/ 25) by lra.
  rewrite ln_Rinv by lra.
  replace (- (23 / 100) * - ln 25) with (23 / 100 * ln 25) by lra.
  pose proof ln_25_ge_2 as H.
  pose proof (exp_ineq1_le (23 / 100 * ln 25)) as He.
  lra.
Qed.

(** Worked scenario 1: [M = 1000], [C = 300], no tags: regime
    [standard], [price_new = 1000.00], [as_low_as = 490.00]. *)
Lemma NoVat_scenario_standard :
  NoVat.determineTypeArigato 1000 300 [] = Standard
  /\ NoVat.computePricing 1000 300 Standard
     = {| ok := true; price_new := 1000; as_low_as := 490 |}.
Proof.
  split.
  - apply determineTypeWith_standard.
    rewrite NoVat_margin_closed_form. repeat split; try lra.
  - unfold NoVat.computePricing.
    rewrite computePricingWith_ok by lra.
    assert (Hraw : 1000 <= P_hidden_raw NoVat.STD 1000 300).
    { unfold P_hidden_raw. cbv zeta.
      assert (Hd : clamp (1 - 300 / 1000) 0 (99 / 100) = 7 / 10).
      { unfold clamp. rewrite Rmin_right by lra. rewrite Rmax_right; lra. }
      rewrite Hd.
      pose proof NoVat_m_shape_1000 as Hm.
      set (m := Math_pow (1000 / M_ref NoVat.STD) (- gamma_M NoVat.STD)) in *.
      cbn [d_max mu0 beta_disc rho d_ref NoVat.STD].
      set (L := Math_log10 (1 / (1 - 7 / 10)) - Math_log10 (1 / (1 - 91 / 100))).
      nra. }
    cbn [price_unrounded as_low_as_unrounded].
    rewrite Rmin_left by exact Hraw.
    cbn [d_max NoVat.STD].
    rewrite (round2_eval 1000 100000) by lra.
    rewrite (round2_eval ((1 - 51 / 100) * 1000) 49000) by lra.
    f_equal; lra.
Qed.

Lemma Math_log10_pos (x : R) : 1 < x -> 0 < Math_log10 x.
Proof.
  intros H. unfold Math_log10.
  assert (H1 : 0 < ln x) by (rewrite <- ln_1; apply ln_increasing; lra).
  assert (H2 : 0 < ln 10) by (rewrite <- ln_1; apply ln_increasing; lra).
  now apply Rdiv_lt_0_compat.
Qed.

(** Worked scenario 3: [M = 100], [C = 90], no tags: the margin is
    negative, the regime [low-margin], the raw price above 161 and the
    price clamped to 100.00. *)
Lemma NoVat_scenario_low_margin :
  margin_G NoVat.classifier 100 90 < 0
  /\ NoVat.determineTypeArigato 100 90 [] = LowMargin
  /\ 161 < price_raw NoVat.LM 100 90
  /\ NoVat.computePricing 100 90 LowMargin
     = {| ok := true; price_new := 100; as_low_as := 0 |}.
Proof.
  assert (HG : margin_G NoVat.classifier 100 90 < 0)
    by (rewrite NoVat_margin_closed_form; lra).
  assert (Hraw : 161 < price_raw NoVat.LM 100 90).
  { unfold price_raw. cbn [alpha beta gamma N_ NoVat.LM].
    pose proof (Math_log10_pos (100 / 90) ltac:(lra)) as Hl.
    nra. }
  repeat split; try assumption.
  - apply determineTypeWith_low_margin. repeat split; try lra.
  - unfold NoVat.computePricing.
    rewrite computePricingWith_ok by lra.
    cbn [price_unrounded as_low_as_unrounded].
    rewrite Rmin_left by lra.
    rewrite (round2_eval 100 10000) by lra.
    rewrite (round2_eval 0 0) by lra.
    f_equal; lra.
Qed.

(** ** Tag reconciler *)

Arguments includes : simpl never.
Arguments normTag : simpl never.

Lemma TYPE_TAGS_cases (t : string) :
  In t TYPE_TAGS <-> t = "used" \/ t = "standard" \/ t = "low-margin".
Proof.
  unfold TYPE_TAGS; simpl. intuition congruence.
Qed.

(** The type tags are already in normal form. *)
Lemma normTag_type_tag (t : string) : In t TYPE_TAGS -> normTag t = t.
Proof.
  rewrite TYPE_TAGS_cases. intros [-> | [-> | ->]]; reflexivity.
Qed.

Lemma not_type_tag_type_tag (t : string) :
  In t TYPE_TAGS -> not_type_tag t = false.
Proof.
  intros H. unfold not_type_tag. rewrite (normTag_type_tag t H).
  apply negb_false_iff, includes_In, H.
Qed.

(** No tag that survives the cleaning normalises to a type tag. *)
Lemma cleaned_has_no_type_tag (cur : list string) (t : string) :
  In t TYPE_TAGS -> includes (map normTag (filter not_type_tag cur)) t = false.
Proof.
  intros Ht. apply includes_false. intros Hin.
  apply in_map_iff in Hin. destruct Hin as (u & Hu & Hin).
  apply filter_In in Hin. destruct Hin as [_ Hn].
  unfold not_type_tag in Hn. apply negb_true_iff, includes_false in Hn.
  apply Hn. now rewrite Hu.
Qed.

Lemma filter_type_of_cleaned (cur : list string) :
  filter (fun t => includes TYPE_TAGS (normTag t)) (filter not_type_tag cur)
  = [].
Proof.
  induction cur as [| a l IH]; cbn [filter]; [reflexivity|].
  unfold not_type_tag at 1.
  destruct (includes TYPE_TAGS (normTag a)) eqn:E; cbn [filter negb];
    [assumption | now rewrite E].
Qed.

Lemma filter_idem {A : Type} (f : A -> bool) (l : list A) :
  filter f (filter f l) = filter f l.
Proof.
  induction l as [| a l IH]; simpl; [reflexivity|].
  destruct (f a) eqn:E; simpl; [rewrite E; now f_equal | assumption].
Qed.

Lemma length_pos_nonempty {A : Type} (l : list A) :
  (0 <? List.length l)%nat = true <-> l <> [].
Proof.
  destruct l; simpl; split; intros; try easy.
Qed.

(** For a type regime [computeTagDiff] has this closed form. *)
Lemma computeTagDiff_typed (cur : list string) (desired : string) :
  In desired TYPE_TAGS ->
  computeTagDiff cur desired =
    let toAdd :=
      if includes (map normTag cur) desired then [] else [desired] in
    let toRemove := other_type_tags (map normTag cur) desired in
    {| desiredTagsArr := filter not_type_tag cur ++ [desired];
       tags_to_add := toAdd;
       tags_to_remove := toRemove;
       doTags := (0 <? List.length toAdd)%nat
                 || (0 <? List.length toRemove)%nat |}.
Proof.
  intros H. unfold computeTagDiff.
  apply includes_In in H. rewrite H. simpl.
  apply includes_In in H.
  rewrite (cleaned_has_no_type_tag cur desired H). simpl.
  destruct (includes (map normTag cur) desired); reflexivity.
Qed.

(** [computeTagOps] of [src/matrixify-run.mjs] agrees with
    [computeTagDiff] on the three type regimes. *)
Lemma computeTagOps_typed (cur : list string) (desired : string) :
  In desired TYPE_TAGS -> computeTagOps cur desired = computeTagDiff cur desired.
Proof.
  intros H. rewrite computeTagDiff_typed by assumption.
  unfold computeTagOps.
  rewrite (cleaned_has_no_type_tag cur desired H).
  apply includes_In in H. rewrite H. simpl.
  destruct (includes (map normTag cur) desired); reflexivity.
Qed.

Lemma other_type_tags_spec (curLower : list string) (desired t : string) :
  In t (other_type_tags curLower desired) <->
  In t TYPE_TAGS /\ t <> desired /\ In t curLower.
Proof.
  unfold other_type_tags. rewrite filter_In, andb_true_iff, negb_true_iff.
  rewrite String.eqb_neq, includes_In. tauto.
Qed.

(** C3 (counterexample).  Called with [skip], [computeTagOps] does not
    pass the tags through: it strips the type tag of ["Sale",
    "standard"] and signals a change. *)
Lemma C3_computeTagOps_skip_counterexample :
  computeTagOps ["Sale"; "standard"] (regime_name Skip)
  = {| desiredTagsArr := ["Sale"]; tags_to_add := [];
       tags_to_remove := ["standard"]; doTags := true |}
  /\ desiredTagsArr (computeTagOps ["Sale"; "standard"] (regime_name Skip))
     <> ["Sale"; "standard"].
Proof. split; [reflexivity | discriminate]. Qed.

(** C3 (amended).  For a desired regime among the three type tags,
    [desiredTags] is the current tags without every tag that is a type
    tag once lower-cased and trimmed, followed by the desired tag, so
    it holds exactly one type tag and the other tags keep their order
    and casing; [toAdd] is the desired tag unless a current tag is it
    up to casing and surrounding blanks, [toRemove] is every other type
    tag that a current tag is up to casing and blanks, and a change is
    signalled iff one of the two is non-empty; [computeTagOps] returns
    the same.  For [skip], [computeTagDiff] passes the current tags
    through and signals no change, and so does [main] of
    [src/matrixify-run.mjs], which does not call [computeTagOps] then;
    [computeTagOps] itself would strip every type tag and signal a
    change when there was one. *)
Theorem C3_tag_reconciliation (cur : list string) :
  let lower := fun t : string => trim (toLowerCase t) in
  let other := fun t : string => negb (includes TYPE_TAGS (lower t)) in
  (forall desired, In desired TYPE_TAGS ->
     let r := computeTagDiff cur desired in
     desiredTagsArr r = filter other cur ++ [desired]
     /\ filter (fun t => includes TYPE_TAGS (lower t)) (desiredTagsArr r)
        = [desired]
     /\ filter other (desiredTagsArr r) = filter other cur
     /\ tags_to_add r
        = (if includes (map lower cur) desired then [] else [desired])
     /\ (forall t, In t (tags_to_remove r) <->
                   In t TYPE_TAGS /\ t <> desired
                   /\ exists u, In u cur /\ lower u = t)
     /\ (doTags r = true <-> tags_to_add r <> [] \/ tags_to_remove r <> [])
     /\ computeTagOps cur desired = r)
  /\ computeTagDiff cur (regime_name Skip)
     = {| desiredTagsArr := cur; tags_to_add := []; tags_to_remove := [];
          doTags := false |}
  /\ (forall missingMC,
        tagOps_guarded missingMC cur (regime_name Skip)
        = {| desiredTagsArr := cur; tags_to_add := []; tags_to_remove := [];
             doTags := false |})
  /\ (let r := computeTagOps cur (regime_name Skip) in
      desiredTagsArr r = filter other cur
      /\ tags_to_add r = []
      /\ (forall t, In t (tags_to_remove r) <->
                    In t TYPE_TAGS /\ exists u, In u cur /\ lower u = t)
      /\ (doTags r = true <-> tags_to_remove r <> [])).
Proof.
  intros lower other.
  change other with not_type_tag. change lower with normTag.
  split; [| split; [| split]].
  - intros desired H r. subst r.
    rewrite computeTagOps_typed by assumption.
    rewrite computeTagDiff_typed by assumption. simpl.
    split; [reflexivity|].
    split.
    { rewrite filter_app, filter_type_of_cleaned. cbn [filter app].
      rewrite (normTag_type_tag desired H).
      apply includes_In in H. now rewrite H. }
    split.
    { rewrite filter_app, filter_idem. cbn [filter].
      rewrite (not_type_tag_type_tag desired H). apply app_nil_r. }
    split; [reflexivity|].
    split.
    { intros t. rewrite other_type_tags_spec, in_map_iff.
      split.
      - intros (Ha & Hb & u & Hc & Hd). repeat split; trivial. now exists u.
      - intros (Ha & Hb & u & Hc & Hd). repeat split; trivial. now exists u. }
    split; [| reflexivity].
    rewrite orb_true_iff, !length_pos_nonempty. tauto.
  - reflexivity.
  - intros missingMC. unfold tagOps_guarded.
    now rewrite andb_false_r.
  - unfold computeTagOps. cbv zeta.
    cbn [desiredTagsArr tags_to_add tags_to_remove doTags].
    replace (includes TYPE_TAGS (regime_name Skip)) with false
      by reflexivity.
    cbn [andb orb List.length Nat.ltb Nat.leb].
    split; [reflexivity|]. split; [reflexivity|]. split.
    + intros t. rewrite other_type_tags_spec, in_map_iff.
      split.
      * intros (Ha & _ & u & Hc & Hd). split; [exact Ha | now exists u].
      * intros (Ht & u & Hc & Hd). split; [exact Ht|].
        split; [| now exists u]. intros ->.
        apply TYPE_TAGS_cases in Ht.
        destruct Ht as [Ht | [Ht | Ht]]; discriminate Ht.
    + apply length_pos_nonempty.
Qed.

(** Worked scenario 5, with the current type tags in other casings. *)
Lemma C3_tag_reconciliation_witness :
  let r := computeTagDiff ["Sale"; " Standard"; "USED"] "low-margin" in
  desiredTagsArr r = ["Sale"; "low-margin"]
  /\ tags_to_add r = ["low-margin"]
  /\ In "standard" (tags_to_remove r)
  /\ In "used" (tags_to_remove r)
  /\ doTags r = true.
Proof.
  destruct (C3_tag_reconciliation ["Sale"; " Standard"; "USED"]) as [H _].
  specialize (H "low-margin" ltac:(simpl; tauto)).
  destruct H as (H1 & _ & _ & H4 & H5 & H6 & _).
  split; [exact H1|]. split; [exact H4|].
  split.
  { apply H5. split; [simpl; tauto|]. split; [discriminate|].
    exists " Standard". split; [simpl; tauto | reflexivity]. }
  split.
  { apply H5. split; [simpl; tauto|]. split; [discriminate|].
    exists "USED". split; [simpl; tauto | reflexivity]. }
  apply H6. left. rewrite H4. discriminate.
Defined.

Lemma no_member_nil {A : Type} (l : list A) : (forall x, ~ In x l) -> l = [].
Proof.
  destruct l as [| a l]; [reflexivity|].
  intros H. exfalso. apply (H a). now left.
Qed.

(** C10.  When the current tags hold the desired type tag in some
    casing and no other type tag, nothing is added, nothing is removed
    and no tag change is signalled, although [desiredTags] ends with the
    lower-case form of the tag. *)
Theorem C10_casing_alone_is_no_change (cur : list string) (desired : string) :
  In desired TYPE_TAGS ->
  (exists t, In t cur /\ normTag t = desired) ->
  (forall t, In t cur -> In (normTag t) TYPE_TAGS -> normTag t = desired) ->
  let r := computeTagDiff cur desired in
  tags_to_add r = []
  /\ tags_to_remove r = []
  /\ doTags r = false
  /\ desiredTagsArr r = filter not_type_tag cur ++ [desired]
  /\ computeTagOps cur desired = r.
Proof.
  intros Hd Hex Hall r. subst r.
  rewrite computeTagOps_typed by assumption.
  rewrite computeTagDiff_typed by assumption.
  assert (Hin : includes (map normTag cur) desired = true)
    by (apply includes_map_normTag; exact Hex).
  assert (Hrm : other_type_tags (map normTag cur) desired = []).
  { apply no_member_nil. intros t Ht.
    apply other_type_tags_spec in Ht. destruct Ht as (Ht & Hne & Hc).
    apply in_map_iff in Hc. destruct Hc as (u & Hu & Hc).
    apply Hne. rewrite <- Hu. apply Hall; [assumption | now rewrite Hu]. }
  cbv zeta. rewrite Hin, Hrm. simpl. repeat split.
Qed.

Lemma C10_casing_alone_is_no_change_witness :
  let r := computeTagDiff ["Sale"; "STANDARD"] "standard" in
  doTags r = false /\ desiredTagsArr r = ["Sale"; "standard"].
Proof.
  assert (H1 : In "standard" TYPE_TAGS) by (simpl; tauto).
  assert (H2 : exists t, In t ["Sale"; "STANDARD"] /\ normTag t = "standard")
    by (exists "STANDARD"; split; [simpl; tauto | reflexivity]).
  assert (H3 : forall t, In t ["Sale"; "STANDARD"] ->
                 In (normTag t) TYPE_TAGS -> normTag t = "standard").
  { intros t [<- | [<- | []]] Ht; [| reflexivity].
    apply TYPE_TAGS_cases in Ht.
    destruct Ht as [Ht | [Ht | Ht]]; discriminate Ht. }
  destruct (C10_casing_alone_is_no_change _ _ H1 H2 H3)
    as (_ & _ & Hd & Ht & _).
  split; [exact Hd | exact Ht].
Defined.

(** ** Variant positions *)

(** In [src/matrixify-run.mjs] an empty (or blank) position cell is the
    sentinel. *)
Lemma MatrixifyRun_absent_position (vid s a b c : string) :
  trim s = "" ->
  pos (MatrixifyRun.variant_of_row vid s a b c) = POS_SENTINEL.
Proof.
  intros H. unfold MatrixifyRun.variant_of_row, MatrixifyRun.toNumberOrNull.
  simpl. now rewrite H.
Qed.

(** In [src/matrixify-run.mjs] a position cell that [Number] does not
    read as a finite number is the sentinel. *)
Lemma MatrixifyRun_unparseable_position (vid s a b c : string) :
  Number_of_string (replace_comma (trim s)) = NotFinite ->
  pos (MatrixifyRun.variant_of_row vid s a b c) = POS_SENTINEL.
Proof.
  intros H. unfold MatrixifyRun.variant_of_row, MatrixifyRun.toNumberOrNull.
  simpl. destruct (truthy (trim s)); simpl; [now rewrite H | reflexivity].
Qed.

(** In the no-VAT script (and its predecessor) a position cell that
    [Number] does not read as a finite number is the sentinel. *)
Lemma unparseable_position (vid : option string) (s : string)
  (a b c : option string) :
  Number_of_string (replace_comma s) = NotFinite ->
  pos (variant_of_cells vid (Some s) a b c) = POS_SENTINEL.
Proof.
  intros H. unfold variant_of_cells, toNumberOrNull. simpl. now rewrite H.
Qed.

(** C7 (the code at the failing input).  In the no-VAT script a record
    whose position cell is empty, or that has no such cell, gets
    position 0 instead of the sentinel 999999, and is selected as the
    base variant in preference to an earlier variant at position 1.
    [src/matrixify-run.mjs] gives the same record the sentinel and
    selects the variant at position 1. *)
Theorem C7_absent_position_sorts_first :
  let v1 := variant_of_cells (Some "v1") (Some "1") None None None in
  let v2 := variant_of_cells (Some "v2") (Some "") None None None in
  let v3 := variant_of_cells (Some "v3") None None None None in
  let w1 := MatrixifyRun.variant_of_row "v1" "1" "" "" "" in
  let w2 := MatrixifyRun.variant_of_row "v2" "" "" "" "" in
  pos v2 = 0 /\ pos v3 = 0
  /\ pick_base [v1; v2] = Some v2
  /\ pos (variant_of_cells (Some "v4") (Some "abc") None None None)
     = POS_SENTINEL
  /\ pos w2 = POS_SENTINEL
  /\ MatrixifyRun.pickBaseVariant [w1; w2] = Some w1.
Proof.
  intros v1 v2 v3 w1 w2.
  assert (H1 : pos v1 = 1)
    by (unfold v1, variant_of_cells, toNumberOrNull; simpl; lra).
  assert (H2 : pos v2 = 0) by reflexivity.
  assert (H3 : pos w1 = 1)
    by (unfold w1, MatrixifyRun.variant_of_row, MatrixifyRun.toNumberOrNull;
        simpl; lra).
  assert (H4 : pos w2 = POS_SENTINEL) by reflexivity.
  repeat split.
  - unfold pick_base. cbn [fold_left pick_base_step].
    assert (Hlt : Rltb (pos v2) (pos v1) = true)
      by (apply Rltb_true; rewrite H1, H2; lra).
    now rewrite Hlt.
  - unfold MatrixifyRun.pickBaseVariant, MatrixifyRun.sort_by_position.
    cbn [fold_left MatrixifyRun.insert_by_position].
    assert (Hlt : Rltb (pos w1 - pos w2) 0 = true)
      by (apply Rltb_true; rewrite H3, H4; unfold POS_SENTINEL; lra).
    now rewrite Hlt.
Qed.

(** ** Test selection *)

Section AddUpto.
Variable TEST_SIZE : nat.

Lemma add_upto_length (pids pick : list string) :
  (List.length pick <= TEST_SIZE)%nat ->
  (List.length (MatrixifyRun.add_upto TEST_SIZE pids pick) <= TEST_SIZE)%nat.
Proof.
  revert pick. induction pids as [| pid rest IH]; intros pick H; simpl.
  - assumption.
  - destruct (TEST_SIZE <=? List.length pick)%nat eqn:E; [assumption|].
    apply Nat.leb_gt in E. apply IH.
    destruct (includes pick pid); simpl; [lia|].
    rewrite length_app. simpl. lia.
Qed.

(** Ids that are new and pairwise distinct are appended in order until
    the target is reached. *)
Lemma add_upto_nodup (pids pick : list string) :
  NoDup (pick ++ pids) ->
  MatrixifyRun.add_upto TEST_SIZE pids pick
  = pick ++ firstn (TEST_SIZE - List.length pick) pids.
Proof.
  revert pick. induction pids as [| pid rest IH]; intros pick H; simpl.
  - now rewrite firstn_nil, app_nil_r.
  - destruct (TEST_SIZE <=? List.length pick)%nat eqn:E.
    + apply Nat.leb_le in E.
      replace (TEST_SIZE - List.length pick)%nat with 0%nat by lia.
      simpl. now rewrite app_nil_r.
    + apply Nat.leb_gt in E.
      assert (Hn : includes pick pid = false).
      { apply includes_false. intros Hin.
        apply NoDup_remove_2 in H. apply H, in_or_app. now left. }
      rewrite Hn. simpl.
      rewrite IH.
      * rewrite length_app. simpl.
        replace (TEST_SIZE - List.length pick)%nat
          with (S (TEST_SIZE - (List.length pick + 1)))%nat by lia.
        simpl. now rewrite <- app_assoc.
      * now rewrite <- app_assoc.
Qed.

(** Ids already picked add nothing. *)
Lemma add_upto_known (pids pick : list string) :
  (forall pid, In pid pids -> In pid pick) ->
  MatrixifyRun.add_upto TEST_SIZE pids pick = pick.
Proof.
  induction pids as [| pid rest IH]; intros H; simpl; [reflexivity|].
  destruct (TEST_SIZE <=? List.length pick)%nat; [reflexivity|].
  assert (Hin : includes pick pid = true)
    by (apply includes_In, H; now left).
  rewrite Hin. simpl. apply IH. intros q Hq. apply H. now right.
Qed.

Lemma pick_in_order_length (groups : list (list string)) (pick : list string) :
  (List.length pick <= TEST_SIZE)%nat ->
  (List.length (MatrixifyRun.pick_in_order TEST_SIZE groups pick)
   <= TEST_SIZE)%nat.
Proof.
  revert pick. induction groups as [| g rest IH]; intros pick H; simpl.
  - assumption.
  - pose proof (add_upto_length g pick H) as Hg.
    destruct (TEST_SIZE <=? _)%nat; [assumption | now apply IH].
Qed.

Lemma pick_in_order_nodup (groups : list (list string)) (pick : list string) :
  NoDup (pick ++ List.concat groups) ->
  MatrixifyRun.pick_in_order TEST_SIZE groups pick
  = pick ++ firstn (TEST_SIZE - List.length pick) (List.concat groups).
Proof.
  revert pick. induction groups as [| g rest IH]; intros pick H; simpl.
  - now rewrite firstn_nil, app_nil_r.
  - simpl in H.
    assert (Hg : NoDup (pick ++ g)).
    { rewrite app_assoc in H. now apply NoDup_app_remove_r in H. }
    rewrite (add_upto_nodup g pick Hg).
    rewrite firstn_app.
    destruct (TEST_SIZE <=? _)%nat eqn:E.
    + apply Nat.leb_le in E. rewrite length_app, length_firstn in E.
      assert (Hz : (TEST_SIZE - List.length pick
                    - List.length g = 0)%nat) by lia.
      rewrite Hz. simpl. now rewrite app_nil_r.
    + apply Nat.leb_gt in E. rewrite length_app in E.
      assert (Hall : firstn (TEST_SIZE - List.length pick) g = g).
      { apply firstn_all2.
        destruct (Nat.le_gt_cases (List.length g)
                    (TEST_SIZE - List.length pick)) as [Hle | Hgt];
          [assumption|].
        rewrite length_firstn in E. lia. }
      rewrite Hall in *. rewrite IH.
      * rewrite length_app, <- app_assoc. do 3 f_equal. lia.
      * now rewrite <- app_assoc.
Qed.

End AddUpto.

Lemma NoVat_picked_closed_form (items : list NoVat.ChangeItem) :
  NoVat.picked items
  = firstn 8 (NoVat.of_type Standard items)
    ++ firstn 6 (NoVat.of_type LowMargin items)
    ++ firstn 6 (NoVat.of_type Used items).
Proof.
  unfold NoVat.picked. apply firstn_all2.
  rewrite !length_app.
  pose proof (firstn_le_length 8 (NoVat.of_type Standard items)).
  pose proof (firstn_le_length 6 (NoVat.of_type LowMargin items)).
  pose proof (firstn_le_length 6 (NoVat.of_type Used items)).
  lia.
Qed.


(** *** The CSV processor: distinct products, filled up to the count *)

Section PickMixed.
Variable count : nat.

Local Notation "'ids'" := (map Processor.cm_productId).

Lemma same_id_exists (x : Processor.ChangeMeta) (picked : list Processor.ChangeMeta) :
  existsb (Processor.same_id x) picked = true
  <-> In (Processor.cm_productId x) (ids picked).
Proof.
  rewrite existsb_exists, in_map_iff. unfold Processor.same_id.
  split; intros (y & H1 & H2); exists y.
  - apply String.eqb_eq in H2. tauto.
  - split; [tauto|]. apply String.eqb_eq. tauto.
Qed.

Lemma picked_ok_push (S : list string) picked x :
  picked_ok S picked ->
  existsb (Processor.same_id x) picked = false ->
  In (Processor.cm_productId x) S ->
  picked_ok S (picked ++ [x]).
Proof.
  intros [Hn Hi] Hx HS. unfold picked_ok. rewrite map_app. cbn [map].
  split.
  - apply NoDup_app; [exact Hn | repeat constructor; intros [] |].
    intros a Ha [<- | []].
    apply same_id_exists in Ha. congruence.
  - apply incl_app; [exact Hi|]. intros a [<- | []]. exact HS.
Qed.

Lemma addSome_ok (S : list string) (n : nat) arr picked :
  incl (ids arr) S -> picked_ok S picked ->
  picked_ok S (Processor.addSome count n arr picked).
Proof.
  revert picked. induction arr as [| x rest IH]; intros picked Ha Hp;
    cbn [Processor.addSome]; [exact Hp|].
  assert (Hr : incl (ids rest) S)
    by (intros a Hin; apply Ha; now right).
  assert (Hx : In (Processor.cm_productId x) S) by (apply Ha; now left).
  destruct (count <=? List.length picked)%nat; [exact Hp|].
  destruct (existsb (Processor.same_id x) picked) eqn:E; [now apply IH|].
  pose proof (picked_ok_push S picked x Hp E Hx) as Hp'.
  destruct (n <=? _)%nat; [now apply IH|].
  destruct (count <=? _)%nat; [exact Hp' | now apply IH].
Qed.

(** The filling pass stops at the count or takes every product. *)
Lemma fill_ok (S : list string) changed picked :
  incl (ids changed) S -> picked_ok S picked ->
  let r := Processor.fill count changed picked in
  picked_ok S r
  /\ incl (ids picked) (ids r)
  /\ ((count <= List.length r)%nat \/ incl (ids changed) (ids r)).
Proof.
  revert picked. induction changed as [| x rest IH]; intros picked Ha Hp;
    cbn [Processor.fill].
  - split; [exact Hp|]. split; [apply incl_refl|]. right. intros a [].
  - assert (Hr : incl (ids rest) S)
      by (intros a Hin; apply Ha; now right).
    assert (Hx : In (Processor.cm_productId x) S) by (apply Ha; now left).
    destruct (count <=? List.length picked)%nat eqn:Ec.
    + apply Nat.leb_le in Ec.
      split; [exact Hp|]. split; [apply incl_refl|]. now left.
    + destruct (existsb (Processor.same_id x) picked) eqn:E.
      * destruct (IH picked Hr Hp) as (H1 & H2 & H3).
        split; [exact H1|]. split; [exact H2|].
        destruct H3 as [H3 | H3]; [now left | right].
        intros a [<- | Hin]; [| now apply H3].
        apply H2. now apply same_id_exists.
      * pose proof (picked_ok_push S picked x Hp E Hx) as Hp'.
        destruct (IH (picked ++ [x]) Hr Hp') as (H1 & H2 & H3).
        assert (Hsub : incl (ids picked) (ids (picked ++ [x]))).
        { rewrite map_app. apply incl_appl, incl_refl. }
        split; [exact H1|].
        split; [now apply (incl_tran Hsub)|].
        destruct H3 as [H3 | H3]; [now left | right].
        intros a [<- | Hin]; [| now apply H3].
        apply H2. rewrite map_app. apply in_or_app. right. now left.
Qed.

Lemma incl_ids_filter (f : Processor.ChangeMeta -> bool) changed :
  incl (ids (filter f changed)) (ids changed).
Proof.
  intros a Ha. apply in_map_iff in Ha. destruct Ha as (x & <- & Hx).
  apply filter_In in Hx. apply in_map. tauto.
Qed.

(** With distinct product ids the processor selects [min count #changed]
    products. *)
Lemma pickMixedTestProducts_length changed :
  NoDup (ids changed) ->
  List.length (Processor.pickMixedTestProducts changed count)
  = Nat.min count (List.length changed).
Proof.
  intros Hnd. unfold Processor.pickMixedTestProducts.
  set (S := ids changed).
  assert (H0 : picked_ok S []) by (split; [constructor | intros a []]).
  pose proof (addSome_ok S (Nat.min 3 count) _ _
                (incl_ids_filter Processor.cm_doDraft changed) H0) as H1.
  pose proof (addSome_ok S (Nat.min 5 count) _ _
                (incl_ids_filter
                   (fun x => Regime_eqb (Processor.cm_type x) Used
                             && negb (Processor.cm_doDraft x)) changed) H1)
    as H2.
  pose proof (addSome_ok S (Nat.min 8 count) _ _
                (incl_ids_filter
                   (fun x => Regime_eqb (Processor.cm_type x) Standard
                             && negb (Processor.cm_doDraft x)) changed) H2)
    as H3.
  pose proof (addSome_ok S (Nat.min 8 count) _ _
                (incl_ids_filter
                   (fun x => Regime_eqb (Processor.cm_type x) LowMargin
                             && negb (Processor.cm_doDraft x)) changed) H3)
    as H4.
  destruct (fill_ok S changed _ (incl_refl _) H4) as ((Hn & Hi) & _ & Hc).
  set (r := Processor.fill count changed _) in *.
  assert (Hle : (List.length r <= List.length changed)%nat).
  { rewrite <- (length_map Processor.cm_productId r),
            <- (length_map Processor.cm_productId changed).
    now apply NoDup_incl_length. }
  rewrite length_firstn.
  destruct Hc as [Hc | Hc]; [lia|].
  assert (Hge : (List.length changed <= List.length r)%nat).
  { rewrite <- (length_map Processor.cm_productId r),
            <- (length_map Processor.cm_productId changed).
    now apply NoDup_incl_length. }
  lia.
Qed.

(** With ids that are not picked yet and distinct, a pass takes its
    products in order until the count is reached: the quota [n] has no
    effect. *)
Lemma addSome_closed_form (n : nat) arr picked :
  NoDup (ids (picked ++ arr)) ->
  Processor.addSome count n arr picked
  = picked ++ firstn (count - List.length picked) arr.
Proof.
  revert picked. induction arr as [| x rest IH]; intros picked Hnd;
    cbn [Processor.addSome].
  - now rewrite firstn_nil, app_nil_r.
  - destruct (count <=? List.length picked)%nat eqn:Ec.
    + apply Nat.leb_le in Ec.
      replace (count - List.length picked)%nat with 0%nat by lia.
      cbn [firstn]. now rewrite app_nil_r.
    + apply Nat.leb_gt in Ec.
      assert (E : existsb (Processor.same_id x) picked = false).
      { apply not_true_is_false. intros H. apply same_id_exists in H.
        rewrite map_app in Hnd. cbn [map] in Hnd.
        apply NoDup_remove_2 in Hnd. apply Hnd.
        apply in_or_app. now left. }
      rewrite E.
      assert (Hnd' : NoDup (ids ((picked ++ [x]) ++ rest)))
        by now rewrite <- app_assoc.
      specialize (IH (picked ++ [x]) Hnd').
      assert (Hr : picked ++ firstn (count - List.length picked) (x :: rest)
                   = (picked ++ [x])
                       ++ firstn (count - List.length (picked ++ [x])) rest).
      { rewrite length_app. cbn [List.length].
        destruct (count - List.length picked)%nat as [| k] eqn:Ek; [lia|].
        cbn [firstn]. rewrite <- app_assoc. cbn [app].
        do 3 f_equal. lia. }
      rewrite Hr.
      destruct (n <=? _)%nat; [exact IH|].
      destruct (count <=? List.length (picked ++ [x]))%nat eqn:Ec';
        [| exact IH].
      apply Nat.leb_le in Ec'.
      replace (count - List.length (picked ++ [x]))%nat with 0%nat by lia.
      cbn [firstn]. now rewrite app_nil_r.
Qed.

(** The filling pass appends the products not picked yet, in order,
    until the count is reached. *)
Lemma fill_closed_form changed picked :
  NoDup (ids changed) ->
  Processor.fill count changed picked
  = picked
      ++ firstn (count - List.length picked)
           (filter (fun x => negb (existsb (Processor.same_id x) picked))
                   changed).
Proof.
  revert picked. induction changed as [| x rest IH]; intros picked Hnd;
    cbn [Processor.fill filter].
  - now rewrite firstn_nil, app_nil_r.
  - cbn [map] in Hnd. apply NoDup_cons_iff in Hnd. destruct Hnd as [Hx Hnd].
    destruct (count <=? List.length picked)%nat eqn:Ec.
    + apply Nat.leb_le in Ec.
      replace (count - List.length picked)%nat with 0%nat by lia.
      cbn [firstn]. now rewrite app_nil_r.
    + apply Nat.leb_gt in Ec.
      destruct (existsb (Processor.same_id x) picked) eqn:E; cbn [negb].
      * now apply IH.
      * rewrite (IH (picked ++ [x]) Hnd).
        rewrite length_app. cbn [List.length].
        destruct (count - List.length picked)%nat as [| k] eqn:Ek; [lia|].
        cbn [firstn]. rewrite <- app_assoc. cbn [app].
        replace (count - (List.length picked + 1))%nat with k by lia.
        do 3 f_equal. apply filter_ext_in. intros y Hy. f_equal.
        rewrite existsb_app. cbn [existsb]. rewrite orb_false_r.
        assert (Hne : Processor.same_id y x = false).
        { unfold Processor.same_id. apply String.eqb_neq. intros Heq.
          apply Hx. rewrite Heq. now apply in_map. }
        rewrite Hne. apply orb_false_r.
Qed.

Lemma NoDup_ids_filter (f : Processor.ChangeMeta -> bool) l :
  NoDup (ids l) -> NoDup (ids (filter f l)).
Proof.
  induction l as [| x l IH]; intros H; cbn [filter map]; [constructor|].
  cbn [map] in H. apply NoDup_cons_iff in H. destruct H as [Hx H].
  destruct (f x); [| now apply IH].
  cbn [map]. constructor; [| now apply IH].
  intros Hin. apply Hx. now apply (incl_ids_filter f l).
Qed.

Lemma ids_injective l x y :
  NoDup (ids l) -> In x l -> In y l ->
  Processor.cm_productId x = Processor.cm_productId y -> x = y.
Proof.
  induction l as [| z l IH]; intros H Hx Hy E; [destruct Hx|].
  cbn [map] in H. apply NoDup_cons_iff in H. destruct H as [Hz H].
  destruct Hx as [-> | Hx], Hy as [-> | Hy]; trivial.
  - exfalso. apply Hz. rewrite E. now apply in_map.
  - exfalso. apply Hz. rewrite <- E. now apply in_map.
  - now apply IH.
Qed.

(** Two groups cut out of the changed products by tests that exclude
    each other share no id. *)
Lemma NoDup_ids_groups (f g : Processor.ChangeMeta -> bool) l A :
  NoDup (ids l) -> incl A (filter g l) -> NoDup (ids A) ->
  (forall x, f x = true -> g x = true -> False) ->
  NoDup (ids (filter f l ++ A)).
Proof.
  intros Hl HA HnA Hfg. rewrite map_app.
  apply NoDup_app; [now apply NoDup_ids_filter | exact HnA |].
  intros a Ha Hb.
  apply in_map_iff in Ha. destruct Ha as (x & <- & Hx).
  apply in_map_iff in Hb. destruct Hb as (y & Hy & Hyin).
  apply filter_In in Hx. destruct Hx as [Hx Hfx].
  apply HA, filter_In in Hyin. destruct Hyin as [Hyin Hgy].
  assert (y = x) by (apply (ids_injective l); assumption).
  subst y. exact (Hfg x Hfx Hgy).
Qed.

Lemma NoDup_ids_prefix (A B : list Processor.ChangeMeta) (k : nat) :
  NoDup (ids (A ++ B)) -> NoDup (ids (firstn k A ++ B)).
Proof.
  revert k. induction A as [| a A IH]; intros k H.
  - now rewrite firstn_nil.
  - destruct k as [| k]; cbn [firstn app map] in *.
    + apply NoDup_cons_iff in H. destruct H as [_ H].
      exact (IH 0%nat H).
    + apply NoDup_cons_iff in H. destruct H as [Ha H].
      constructor; [| now apply IH].
      intros Hin. apply Ha. rewrite map_app in *.
      apply in_app_or in Hin. apply in_or_app.
      destruct Hin as [Hin | Hin]; [left | now right].
      apply in_map_iff in Hin. destruct Hin as (x & <- & Hx).
      apply in_map. rewrite <- (firstn_skipn k A).
      apply in_or_app. now left.
Qed.

(** A pass continues the prefix picked so far. *)
Lemma addSome_firstn (n : nat) (A arr : list Processor.ChangeMeta) :
  NoDup (ids (A ++ arr)) ->
  Processor.addSome count n arr (firstn count A) = firstn count (A ++ arr).
Proof.
  intros H.
  rewrite addSome_closed_form by now apply NoDup_ids_prefix.
  rewrite firstn_app, length_firstn. f_equal. f_equal. lia.
Qed.

(** With distinct product ids the processor returns the first [count]
    changed products in its order of groups. *)
Lemma pickMixedTestProducts_closed_form changed :
  NoDup (ids changed) ->
  Processor.pickMixedTestProducts changed count
  = firstn count (processor_order changed).
Proof.
  intros Hnd. unfold Processor.pickMixedTestProducts, processor_order.
  set (g1 := filter Processor.cm_doDraft changed).
  set (f2 := fun x => Regime_eqb (Processor.cm_type x) Used
                      && negb (Processor.cm_doDraft x)).
  set (f3 := fun x => Regime_eqb (Processor.cm_type x) Standard
                      && negb (Processor.cm_doDraft x)).
  set (f4 := fun x => Regime_eqb (Processor.cm_type x) LowMargin
                      && negb (Processor.cm_doDraft x)).
  set (f5 := fun x => Regime_eqb (Processor.cm_type x) Skip
                      && negb (Processor.cm_doDraft x)).
  set (g2 := filter f2 changed). set (g3 := filter f3 changed).
  set (g4 := filter f4 changed). set (g5 := filter f5 changed).
  assert (H34 : NoDup (ids (g3 ++ g4))).
  { apply (NoDup_ids_groups f3
             (fun x => negb (Regime_eqb (Processor.cm_type x) Standard))
             changed g4 Hnd).
    - intros x Hx. apply filter_In in Hx. apply filter_In.
      split; [tauto|]. destruct Hx as [_ Hx]. unfold f4 in Hx.
      now destruct (Processor.cm_type x).
    - now apply NoDup_ids_filter.
    - intros x Hx Hy. unfold f3 in Hx.
      destruct (Regime_eqb (Processor.cm_type x) Standard); discriminate. }
  assert (H234 : NoDup (ids (g2 ++ g3 ++ g4))).
  { apply (NoDup_ids_groups f2
             (fun x => negb (Regime_eqb (Processor.cm_type x) Used))
             changed (g3 ++ g4) Hnd).
    - intros x Hx. apply filter_In.
      apply in_app_or in Hx.
      destruct Hx as [Hx | Hx]; apply filter_In in Hx;
        (split; [tauto|]); destruct Hx as [_ Hx];
        unfold f3, f4 in Hx; now destruct (Processor.cm_type x).
    - exact H34.
    - intros x Hx Hy. unfold f2 in Hx.
      destruct (Regime_eqb (Processor.cm_type x) Used); discriminate. }
  assert (H1234 : NoDup (ids (g1 ++ g2 ++ g3 ++ g4))).
  { apply (NoDup_ids_groups Processor.cm_doDraft
             (fun x => negb (Processor.cm_doDraft x))
             changed (g2 ++ g3 ++ g4) Hnd).
    - intros x Hx. apply filter_In.
      apply in_app_or in Hx. destruct Hx as [Hx | Hx];
        [| apply in_app_or in Hx; destruct Hx as [Hx | Hx]];
        apply filter_In in Hx; (split; [tauto|]); destruct Hx as [_ Hx];
        unfold f2, f3, f4 in Hx;
        apply andb_true_iff in Hx; tauto.
    - exact H234.
    - intros x Hx Hy. rewrite Hx in Hy. discriminate Hy. }
  assert (E1 : Processor.addSome count (Nat.min 3 count) g1 []
               = firstn count g1).
  { rewrite addSome_closed_form
      by (cbn [app]; unfold g1; now apply NoDup_ids_filter).
    cbn [app List.length]. now rewrite Nat.sub_0_r. }
  rewrite E1.
  rewrite (addSome_firstn _ g1 g2)
    by (rewrite !app_assoc in H1234;
        rewrite map_app in H1234; apply NoDup_app_remove_r in H1234;
        rewrite map_app in H1234; apply NoDup_app_remove_r in H1234;
        exact H1234).
  rewrite (addSome_firstn _ (g1 ++ g2) g3)
    by (rewrite !app_assoc in H1234;
        rewrite map_app in H1234; apply NoDup_app_remove_r in H1234;
        exact H1234).
  rewrite (addSome_firstn _ ((g1 ++ g2) ++ g3) g4)
    by (now rewrite <- !app_assoc).
  rewrite <- !app_assoc.
  set (G := g1 ++ g2 ++ g3 ++ g4) in *.
  rewrite (fill_closed_form changed (firstn count G) Hnd).
  assert (Hrest : filter (fun x => negb (existsb (Processor.same_id x) G))
                         changed = g5).
  { apply filter_ext_in. intros x Hx.
    assert (Hin : existsb (Processor.same_id x) G = true <-> In x G).
    { rewrite same_id_exists, in_map_iff. split.
      - intros (y & Hy & HyG).
        assert (In y changed).
        { unfold G in HyG. repeat (apply in_app_or in HyG;
                                    destruct HyG as [HyG | HyG]);
            apply filter_In in HyG; tauto. }
        assert (y = x) by (apply (ids_injective changed); assumption).
        now subst y.
      - intros HG. now exists x. }
    assert (HG : In x G <-> f5 x = false).
    { unfold G, g1, g2, g3, g4. rewrite !in_app_iff, !filter_In.
      unfold f2, f3, f4, f5.
      destruct (Processor.cm_type x), (Processor.cm_doDraft x);
        cbn; intuition discriminate. }
    assert (Heq : existsb (Processor.same_id x) G = negb (f5 x)).
    { apply eq_true_iff_eq. rewrite Hin, HG, negb_true_iff. tauto. }
    rewrite Heq. apply negb_involutive. }
  replace (g1 ++ g2 ++ g3 ++ g4 ++ g5) with (G ++ g5)
    by (unfold G; now rewrite <- !app_assoc).
  destruct (Nat.le_gt_cases count (List.length G)) as [Hle | Hgt].
  - assert (Hz : (count - List.length (firstn count G) = 0)%nat)
      by (rewrite length_firstn; lia).
    rewrite Hz, firstn_0, app_nil_r, firstn_firstn, Nat.min_id.
    rewrite firstn_app.
    replace (count - List.length G)%nat with 0%nat by lia.
    now rewrite firstn_0, app_nil_r.
  - rewrite (firstn_all2 (n := count) G) by lia.
    rewrite Hrest.
    rewrite !firstn_app, firstn_firstn, Nat.min_id. reflexivity.
Qed.

End PickMixed.

Lemma MatrixifyRun_pick_length (TEST_SIZE : nat) (std lm used : list string) :
  (List.length (MatrixifyRun.pick TEST_SIZE std lm used) <= TEST_SIZE)%nat.
Proof.
  unfold MatrixifyRun.pick.
  pose proof (pick_in_order_length TEST_SIZE [std; lm; used] []
                ltac:(simpl; lia)) as H.
  destruct (_ <? _)%nat; [| assumption].
  now apply add_upto_length.
Qed.

Lemma MatrixifyRun_pick_nodup (TEST_SIZE : nat) (std lm used : list string) :
  NoDup (std ++ lm ++ used) ->
  MatrixifyRun.pick TEST_SIZE std lm used
  = firstn TEST_SIZE (std ++ lm ++ used).
Proof.
  intros H. unfold MatrixifyRun.pick.
  rewrite (pick_in_order_nodup TEST_SIZE [std; lm; used] [])
    by (simpl; now rewrite app_nil_r).
  simpl. rewrite app_nil_r, Nat.sub_0_r.
  destruct (_ <? _)%nat eqn:E; [| reflexivity].
  apply Nat.ltb_lt in E. rewrite length_firstn in E.
  rewrite firstn_all2 by lia.
  apply add_upto_known. auto.
Qed.



(** ** Structure of the instruction rows *)

(** [String(x)] of a number or of [null] is never the empty string. *)
Lemma String_of_nullable_truthy (o : option R) :
  Text_truthy (String_ (of_nullable o)) = true.
Proof. destruct o; reflexivity. Qed.

Lemma NoVat_secondary_row_ok (p : Product) (d : Decision) (cell : Text)
  (vid : string) : row_ok (NoVat.secondary_row p d cell vid).
Proof. intros _. apply String_of_nullable_truthy. Qed.

Lemma Forall_map_secondary {A : Type} (f : A -> Row) (l : list A) :
  (forall a, row_ok (f a)) -> Forall row_ok (map f l).
Proof.
  intros H. apply Forall_forall. intros r Hr.
  apply in_map_iff in Hr. destruct Hr as (a & <- & _). apply H.
Qed.

(** The FAIL-FAST test of the full file never fires. *)
Lemma NoVat_full_rows_done (p : Product) (d : Decision) :
  exists rows, NoVat.full_rows p d = Done rows /\ Forall row_ok rows.
Proof.
  unfold NoVat.full_rows.
  set (typed := negb (missingMC d)
                && includes TYPE_TAGS (regime_name (desiredType d))).
  set (flag := typed && ok (pricing d) && not_null (desiredPriceNew d)
               && truthy (NoVat.primaryVariantId p d)).
  destruct flag eqn:Hf.
  - rewrite String_of_nullable_truthy, andb_false_r.
    eexists. split; [reflexivity|].
    constructor.
    + intros _. apply String_of_nullable_truthy.
    + destruct (typed && ok (pricing d) && not_null (desiredPriceNew d));
        [| constructor].
      apply Forall_map_secondary. intros v. apply NoVat_secondary_row_ok.
  - cbn [truthy andb].
    eexists. split; [reflexivity|].
    constructor.
    + intros H. discriminate H.
    + destruct (typed && ok (pricing d) && not_null (desiredPriceNew d));
        [| constructor].
      apply Forall_map_secondary. intros v. apply NoVat_secondary_row_ok.
Qed.

(** The FAIL-FAST test of the only-changes file never fires. *)
Lemma NoVat_only_changes_rows_done (p : Product) (d : Decision) :
  exists rows, NoVat.only_changes_rows p d = Done rows /\ Forall row_ok rows.
Proof.
  unfold NoVat.only_changes_rows.
  set (flag := doPrice d && truthy (NoVat.primaryVariantId p d)
               && includes (variantsToUpdate d) (NoVat.primaryVariantId p d)).
  destruct flag eqn:Hf.
  - rewrite String_of_nullable_truthy, andb_false_r.
    eexists. split; [reflexivity|].
    constructor.
    + intros _. apply String_of_nullable_truthy.
    + destruct (doPrice d); [| constructor].
      apply Forall_map_secondary. intros v. apply NoVat_secondary_row_ok.
  - cbn [truthy andb].
    eexists. split; [reflexivity|].
    constructor.
    + intros H. discriminate H.
    + destruct (doPrice d); [| constructor].
      apply Forall_map_secondary. intros v. apply NoVat_secondary_row_ok.
Qed.

Lemma NoVat_step_done (st : NoVat.State) (p : Product) :
  state_ok st -> exists st', NoVat.step st p = Done st' /\ state_ok st'.
Proof.
  intros [Hf Ho]. unfold NoVat.step.
  destruct (hasCnfdnt (tagsArr p)).
  - eexists. split; [reflexivity|]. split; assumption.
  - destruct (NoVat_full_rows_done p (NoVat.decide p)) as (full & Ef & Hfull).
    rewrite Ef. cbn [bind].
    destruct (negb (needsChange (NoVat.decide p))).
    + eexists. split; [reflexivity|]. split; cbn.
      * apply Forall_app. now split.
      * assumption.
    + destruct (NoVat_only_changes_rows_done p (NoVat.decide p))
        as (only & Eo & Honly).
      rewrite Eo. cbn [bind].
      eexists. split; [reflexivity|]. split; cbn.
      * apply Forall_app. now split.
      * apply Forall_app. now split.
Qed.

Lemma NoVat_run_done (products : list Product) (st : NoVat.State) :
  state_ok st -> exists st', NoVat.run st products = Done st' /\ state_ok st'.
Proof.
  revert st. induction products as [| p rest IH]; intros st H; simpl.
  - now exists st.
  - destruct (NoVat_step_done st p H) as (st1 & E1 & H1).
    rewrite E1. cbn [bind]. now apply IH.
Qed.

(** C5.  For every input the loop of [main] completes (neither of the
    two FAIL-FAST structure checks throws), and in both the full and the
    only-changes import rows every row with a non-empty Variant ID has a
    non-empty Variant Price. *)
Theorem C5_variant_id_implies_price (products : list Product) :
  exists st,
    NoVat.main_loop products = Done st
    /\ (forall r, In r (NoVat.importFullRows st) ->
                  truthy (col_VariantID r) = true ->
                  Text_truthy (col_VariantPrice r) = true)
    /\ (forall r, In r (NoVat.importOnlyChangesRows st) ->
                  truthy (col_VariantID r) = true ->
                  Text_truthy (col_VariantPrice r) = true).
Proof.
  destruct (NoVat_run_done products NoVat.init) as (st & E & Hf & Ho).
  - split; constructor.
  - exists st. split; [exact E|].
    rewrite Forall_forall in Hf, Ho. split; intros r Hr; [apply Hf | apply Ho];
      assumption.
Qed.

(** ** The decision record, field by field *)

Section EngineFacts.
Variable cfg : ClassifierCfg.
Variables (U LM : CostPlus) (STD : StdParams).
Variable net : R -> R.

Local Notation "'dec'" := (decideWith cfg U LM STD net).

Lemma dec_base p : base (dec p) = pick_base (variants p).
Proof. reflexivity. Qed.

Lemma dec_msrpGross p :
  msrpGross (dec p)
  = orElse (match base (dec p) with Some b => compareAt b | None => None end) 0.
Proof. reflexivity. Qed.

Lemma dec_M p :
  M_used (dec p)
  = if Rgtb (msrpGross (dec p)) 0 then net (msrpGross (dec p)) else 0.
Proof. reflexivity. Qed.

Lemma dec_C p :
  C_used (dec p)
  = orElse (match base (dec p) with Some b => cost b | None => None end) 0.
Proof. reflexivity. Qed.

Lemma dec_missingMC p :
  missingMC (dec p) = negb (Rgtb (M_used (dec p)) 0 && Rgtb (C_used (dec p)) 0).
Proof. reflexivity. Qed.

Lemma dec_doDraft p :
  doDraft (dec p)
  = missingMC (dec p) && negb (String.eqb (toLowerCase (status p)) "draft").
Proof. reflexivity. Qed.

Lemma dec_desiredType p :
  desiredType (dec p)
  = if missingMC (dec p) then Skip
    else determineTypeWith cfg (M_used (dec p)) (C_used (dec p)) (tagsArr p).
Proof. reflexivity. Qed.

Lemma dec_pricing p :
  pricing (dec p)
  = if typed (dec p)
    then computePricingWith U LM STD (M_used (dec p)) (C_used (dec p))
           (desiredType (dec p))
    else pricing_not_ok.
Proof. reflexivity. Qed.

Lemma dec_desiredPriceNew p :
  desiredPriceNew (dec p)
  = if ok (pricing (dec p)) then Some (price_new (pricing (dec p))) else None.
Proof. reflexivity. Qed.

Lemma dec_desiredAsLowAs p :
  desiredAsLowAs (dec p)
  = if ok (pricing (dec p)) && Regime_eqb (desiredType (dec p)) Standard
       && Rgtb (as_low_as (pricing (dec p))) 0
    then Some (as_low_as (pricing (dec p))) else None.
Proof. reflexivity. Qed.

Lemma dec_tagDiff p :
  tagDiff (dec p)
  = if typed (dec p)
    then computeTagDiff (tagsArr p) (regime_name (desiredType (dec p)))
    else {| desiredTagsArr := tagsArr p; tags_to_add := [];
            tags_to_remove := []; doTags := false |}.
Proof. reflexivity. Qed.

Lemma dec_variantsToUpdate p :
  variantsToUpdate (dec p)
  = if negb (missingMC (dec p)) && not_null (desiredPriceNew (dec p))
    then map variantId
           (filter (needs_price (desiredPriceNew (dec p))) (variants p))
    else [].
Proof. reflexivity. Qed.

Lemma dec_doPrice p :
  doPrice (dec p) = (0 <? List.length (variantsToUpdate (dec p)))%nat.
Proof. reflexivity. Qed.

Lemma dec_doMetafield p :
  doMetafield (dec p)
  = negb (missingMC (dec p)) && Regime_eqb (desiredType (dec p)) Standard
    && not_null (desiredAsLowAs (dec p))
    && negb (not_null (toNumberOrNull (VText (asLowAsCurrent p)))
             && approxEqualMoney
                  (of_nullable (toNumberOrNull (VText (asLowAsCurrent p))))
                  (of_nullable (desiredAsLowAs (dec p)))).
Proof. reflexivity. Qed.

Lemma dec_needsChange p :
  needsChange (dec p)
  = doDraft (dec p) || doTags (tagDiff (dec p)) || doPrice (dec p)
    || doMetafield (dec p).
Proof. reflexivity. Qed.

(** A scheduled price update has a price to set. *)
Lemma dec_doPrice_has_price p :
  doPrice (dec p) = true -> exists x, desiredPriceNew (dec p) = Some x.
Proof.
  rewrite dec_doPrice, dec_variantsToUpdate.
  destruct (desiredPriceNew (dec p)) as [x |].
  - intros _. now exists x.
  - rewrite andb_false_r. discriminate.
Qed.

End EngineFacts.

(** ** Worked example: a low-margin product with two variants *)

Lemma approxEqualMoney_num (a b : R) :
  approxEqualMoney (VNum a) (VNum b) = Rltb (Rabs (a - b)) (5 / 1000).
Proof. reflexivity. Qed.

Lemma approxEqualMoney_refl (a : R) : approxEqualMoney (VNum a) (VNum a) = true.
Proof.
  rewrite approxEqualMoney_num. apply Rltb_true.
  replace (a - a) with 0 by lra. rewrite Rabs_R0. lra.
Qed.

Lemma approxEqualMoney_far (a b : R) :
  5 / 1000 <= b - a -> approxEqualMoney (VNum a) (VNum b) = false.
Proof.
  intros H. rewrite approxEqualMoney_num. apply Rltb_false.
  rewrite Rabs_minus_sym, Rabs_right; lra.
Qed.

Lemma NoVat_pricing_LM_diag_100 :
  NoVat.computePricing 100 100 LowMargin
  = {| ok := true; price_new := 100; as_low_as := 0 |}.
Proof.
  unfold NoVat.computePricing.
  rewrite computePricingWith_ok by lra. simpl.
  rewrite NoVat_price_raw_LM_diag by lra.
  rewrite Rmin_left by lra.
  rewrite (round2_eval 100 10000) by lra.
  rewrite (round2_eval 0 0) by lra.
  f_equal; lra.
Qed.

Lemma two_variants_decision :
  let d := NoVat.decide two_variants in
  missingMC d = false /\ doDraft d = false /\ desiredType d = LowMargin
  /\ desiredPriceNew d = Some 100 /\ desiredAsLowAs d = None
  /\ desiredTagsArr (tagDiff d) = ["low-margin"] /\ doTags (tagDiff d) = true
  /\ variantsToUpdate d = ["v1"; "v2"] /\ doPrice d = true
  /\ doMetafield d = false /\ needsChange d = true
  /\ NoVat.primaryVariantId two_variants d = "v1".
Proof.
  intros d. unfold d, NoVat.decide.
  set (e := decideWith _ _ _ _ _ two_variants).
  assert (Hb : base e = Some {| variantId := "v1"; pos := 1; price := Some 50;
                                compareAt := Some 100; cost := Some 100 |}).
  { unfold e. rewrite dec_base. unfold pick_base.
    cbn [fold_left pick_base_step variants two_variants pos].
    assert (H : Rltb 2 1 = false) by (apply Rltb_false; lra).
    now rewrite H. }
  assert (Hg : msrpGross e = 100)
    by (unfold e; rewrite dec_msrpGross; fold e; now rewrite Hb).
  assert (H100 : Rgtb 100 0 = true) by (apply Rgtb_true; lra).
  assert (HM : M_used e = 100)
    by (unfold e; rewrite dec_M; fold e; now rewrite Hg, H100).
  assert (HC : C_used e = 100)
    by (unfold e; rewrite dec_C; fold e; now rewrite Hb).
  assert (Hm : missingMC e = false)
    by (unfold e; rewrite dec_missingMC; fold e; now rewrite HM, HC, H100).
  assert (Ht : desiredType e = LowMargin).
  { unfold e; rewrite dec_desiredType; fold e. rewrite Hm, HM, HC.
    apply determineTypeWith_low_margin.
    rewrite NoVat_margin_closed_form. repeat split; try lra. }
  assert (Hty : typed e = true) by (unfold typed; now rewrite Hm, Ht).
  assert (Hp : pricing e = {| ok := true; price_new := 100; as_low_as := 0 |}).
  { unfold e; rewrite dec_pricing; fold e. rewrite Hty, HM, HC, Ht.
    apply NoVat_pricing_LM_diag_100. }
  assert (Hpn : desiredPriceNew e = Some 100)
    by (unfold e; rewrite dec_desiredPriceNew; fold e; now rewrite Hp).
  assert (Hal : desiredAsLowAs e = None)
    by (unfold e; rewrite dec_desiredAsLowAs; fold e; now rewrite Hp, Ht).
  assert (Htd : tagDiff e = computeTagDiff [] "low-margin")
    by (unfold e; rewrite dec_tagDiff; fold e; now rewrite Hty, Ht).
  assert (Hv : variantsToUpdate e = ["v1"; "v2"]).
  { unfold e; rewrite dec_variantsToUpdate; fold e. rewrite Hm, Hpn.
    cbn [negb andb not_null variants two_variants filter needs_price
         variantId price of_nullable truthy].
    rewrite !approxEqualMoney_far by lra. reflexivity. }
  assert (Hdp : doPrice e = true)
    by (unfold e; rewrite dec_doPrice; fold e; now rewrite Hv).
  assert (Hdm : doMetafield e = false)
    by (unfold e; rewrite dec_doMetafield; fold e; now rewrite Hm, Ht).
  assert (Hdd : doDraft e = false)
    by (unfold e; rewrite dec_doDraft; fold e; now rewrite Hm).
  repeat split; try assumption.
  - now rewrite Htd.
  - now rewrite Htd.
  - unfold e; rewrite dec_needsChange; fold e.
    now rewrite Hdd, Hdp, Htd.
  - unfold NoVat.primaryVariantId. now rewrite Hb.
Qed.

(** C6 (counterexample).  The product [two_variants] needs a price
    update for both variants.  The no-VAT script emits a primary row for
    "v1" and a secondary row for "v2"; the secondary row carries the
    current advertised-from value "12.50" in the metafield column, which
    is therefore not empty. *)
Lemma C6_secondary_row_metafield_counterexample :
  exists primary secondary st,
    NoVat.only_changes_rows two_variants (NoVat.decide two_variants)
    = Done [primary; secondary]
    /\ NoVat.main_loop [two_variants] = Done st
    /\ NoVat.importOnlyChangesRows st = [primary; secondary]
    /\ col_VariantID primary = "v1"
    /\ col_VariantID secondary = "v2"
    /\ col_VariantPrice secondary = NumStr 100
    /\ col_Metafield secondary = Lit "12.50"
    /\ Text_truthy (col_Metafield secondary) = true.
Proof.
  destruct two_variants_decision
    as (Hm & Hdd & Ht & Hpn & Hal & Htags & Hdt & Hv & Hdp & Hdm & Hn & Hpv).
  assert (Hrows :
    NoVat.only_changes_rows two_variants (NoVat.decide two_variants)
    = Done [ {| col_ID := "1"; col_Command := "UPDATE";
                col_Tags := "low-margin"; col_TagsCommand := "REPLACE";
                col_Status := ""; col_VariantID := "v1";
                col_VariantCommand := "UPDATE";
                col_VariantPrice := NumStr 100;
                col_Metafield := Lit "12.50" |};
             {| col_ID := "1"; col_Command := "UPDATE";
                col_Tags := ""; col_TagsCommand := "";
                col_Status := ""; col_VariantID := "v2";
                col_VariantCommand := "UPDATE";
                col_VariantPrice := NumStr 100;
                col_Metafield := Lit "12.50" |} ]).
  { unfold NoVat.only_changes_rows, NoVat.secondary_row, NoVat.mfCell.
    rewrite Hm, Hdd, Ht, Hpn, Hal, Htags, Hdt, Hv, Hdp, Hpv. reflexivity. }
  do 2 eexists.
  assert (Hfull := NoVat_full_rows_done two_variants (NoVat.decide two_variants)).
  destruct Hfull as (full & Ef & _).
  eexists. split; [exact Hrows|].
  split.
  { unfold NoVat.main_loop. cbn [NoVat.run]. unfold NoVat.step.
    replace (hasCnfdnt (tagsArr two_variants)) with false by reflexivity.
    rewrite Ef, Hn, Hrows. cbn [bind negb]. reflexivity. }
  cbn. repeat split.
Qed.

Lemma secondary_rows_shape (p : Product) (d : Decision) (pvid : string)
  (primary : Row) (x : R) :
  desiredPriceNew d = Some x ->
  col_ID primary = productId p ->
  forall r,
    In r (map (Vat.secondary_row p d (col_Metafield primary))
              (filter (fun vid => negb (negb (truthy vid) || String.eqb vid pvid))
                      (variantsToUpdate d))) ->
    secondary_shape d pvid primary r.
Proof.
  intros Hx Hid r Hr.
  apply in_map_iff in Hr. destruct Hr as (vid & <- & Hv).
  apply filter_In in Hv. destruct Hv as [Hin Hc].
  apply negb_true_iff, orb_false_iff in Hc. destruct Hc as [Ht Hne].
  apply negb_false_iff in Ht. apply String.eqb_neq in Hne.
  unfold secondary_shape, Vat.secondary_row; cbn.
  repeat split; try assumption; try (now symmetry).
  - intros ->. discriminate Ht.
  - exists x. rewrite Hx. now split.
Qed.

(** C6 (amended).  For every product, each secondary row has empty
    Tags, Tags Command and Status, names a variant that needs a price
    update other than the primary one, carries the UPDATE command and
    the new price, and repeats the advertised-from cell of the primary
    row (the new value or the current one), which need not be empty.
    There is one such row per remaining variant to update, in order.
    This holds in the no-VAT script and in its VAT predecessor. *)
Theorem C6_secondary_rows (p : Product) :
  (exists primary rest,
     NoVat.only_changes_rows p (NoVat.decide p) = Done (primary :: rest)
     /\ col_Metafield primary = NoVat.mfCell p (NoVat.decide p)
     /\ map col_VariantID rest
        = filter (fun vid =>
                    negb (negb (truthy vid)
                          || String.eqb vid
                               (NoVat.primaryVariantId p (NoVat.decide p))))
                 (variantsToUpdate (NoVat.decide p))
     /\ forall r, In r rest ->
          secondary_shape (NoVat.decide p)
            (NoVat.primaryVariantId p (NoVat.decide p)) primary r)
  /\ (exists primary rest,
        Vat.only_changes_rows p (Vat.decide p) = primary :: rest
        /\ col_Metafield primary = Vat.mfCell p (Vat.decide p)
        /\ map col_VariantID rest
           = filter (fun vid =>
                       negb (negb (truthy vid)
                             || String.eqb vid
                                  (Vat.primaryVariantId p (Vat.decide p))))
                    (variantsToUpdate (Vat.decide p))
        /\ forall r, In r rest ->
             secondary_shape (Vat.decide p)
               (Vat.primaryVariantId p (Vat.decide p)) primary r).
Proof.
  split.
  - unfold NoVat.only_changes_rows.
    set (d := NoVat.decide p).
    set (pvid := NoVat.primaryVariantId p d).
    set (flag := doPrice d && truthy pvid && includes (variantsToUpdate d) pvid).
    assert (Hthrow :
      truthy (if flag then pvid else "")
      && negb (Text_truthy (if flag
                            then String_ (of_nullable (desiredPriceNew d))
                            else Lit "")) = false).
    { destruct flag; [| reflexivity].
      now rewrite String_of_nullable_truthy, andb_false_r. }
    rewrite Hthrow.
    do 2 eexists. split; [reflexivity|].
    split; [reflexivity|].
    destruct (doPrice d) eqn:Hdp.
    + split.
      * rewrite map_map. cbn [NoVat.secondary_row col_VariantID].
        now rewrite map_id.
      * destruct (dec_doPrice_has_price _ _ _ _ _ p Hdp) as (x & Hx).
        intros r Hr.
        apply (secondary_rows_shape p d pvid _ x Hx); [reflexivity|].
        exact Hr.
    + split; [| intros r []].
      unfold d, NoVat.decide in Hdp. rewrite dec_doPrice in Hdp.
      fold NoVat.decide in Hdp. fold d in Hdp.
      destruct (variantsToUpdate d); [reflexivity | discriminate Hdp].
  - unfold Vat.only_changes_rows.
    set (d := Vat.decide p).
    set (pvid := Vat.primaryVariantId p d).
    do 2 eexists. split; [reflexivity|].
    split; [reflexivity|].
    destruct (doPrice d) eqn:Hdp.
    + split.
      * rewrite map_map. cbn [Vat.secondary_row col_VariantID].
        now rewrite map_id.
      * destruct (dec_doPrice_has_price _ _ _ _ _ p Hdp) as (x & Hx).
        intros r Hr.
        apply (secondary_rows_shape p d pvid _ x Hx); [reflexivity|].
        exact Hr.
    + split; [| intros r []].
      unfold d, Vat.decide in Hdp. rewrite dec_doPrice in Hdp.
      fold Vat.decide in Hdp. fold d in Hdp.
      destruct (variantsToUpdate d); [reflexivity | discriminate Hdp].
Qed.

Lemma C6_secondary_rows_witness :
  exists primary rest,
    NoVat.only_changes_rows two_variants (NoVat.decide two_variants)
    = Done (primary :: rest)
    /\ forall r, In r rest ->
         secondary_shape (NoVat.decide two_variants)
           (NoVat.primaryVariantId two_variants (NoVat.decide two_variants))
           primary r.
Proof.
  destruct (C6_secondary_rows two_variants)
    as [(primary & rest & H1 & _ & _ & H2) _].
  exists primary, rest. split; [exact H1 | exact H2].
Defined.

(** ** Idempotence *)

Lemma set_price_pos vids o v : pos (set_price vids o v) = pos v.
Proof. unfold set_price. now destruct (includes vids (variantId v)). Qed.

Lemma set_price_compareAt vids o v :
  compareAt (set_price vids o v) = compareAt v.
Proof. unfold set_price. now destruct (includes vids (variantId v)). Qed.

Lemma set_price_cost vids o v : cost (set_price vids o v) = cost v.
Proof. unfold set_price. now destruct (includes vids (variantId v)). Qed.

(** Updating prices does not change which variant is the base. *)
Lemma pick_base_set_price vids o (vs : list Variant) :
  pick_base (map (set_price vids o) vs)
  = option_map (set_price vids o) (pick_base vs).
Proof.
  unfold pick_base.
  change (@None Variant) with (option_map (set_price vids o) None) at 1.
  generalize (@None Variant) as best.
  induction vs as [| v vs IH]; intros best; cbn [map fold_left].
  - reflexivity.
  - rewrite <- IH. f_equal.
    destruct best as [b |]; cbn [option_map pick_base_step]; [| reflexivity].
    rewrite !set_price_pos. now destruct (Rltb (pos v) (pos b)).
Qed.

(** A gateway marker is not a type tag, so cleaning the type tags and
    appending one leaves the gateway test unchanged. *)
Lemma hasUsedGateway_reconciled (cur : list string) (t : string) :
  In t TYPE_TAGS ->
  hasUsedGateway (filter not_type_tag cur ++ [t]) = hasUsedGateway cur.
Proof.
  intros Ht. apply eq_true_iff_eq. rewrite !hasUsedGateway_spec. split.
  - intros (u & Hu & Hn). apply in_app_or in Hu. destruct Hu as [Hu | Hu].
    + apply filter_In in Hu. exists u. tauto.
    + destruct Hu as [<- | []]. exfalso.
      rewrite (normTag_type_tag t Ht) in Hn.
      apply TYPE_TAGS_cases in Ht.
      destruct Hn as [-> | ->]; destruct Ht as [Ht | [Ht | Ht]];
        discriminate Ht.
  - intros (u & Hu & Hn). exists u. split; [| exact Hn].
    apply in_or_app. left. apply filter_In. split; [exact Hu|].
    unfold not_type_tag. apply negb_true_iff, includes_false.
    rewrite TYPE_TAGS_cases.
    destruct Hn as [-> | ->]; intros [H | [H | H]]; discriminate H.
Qed.

(** The classifier reads the tags only through the gateway test. *)
Lemma determineTypeWith_tags cfg (M C : R) (tags1 tags2 : list string) :
  hasUsedGateway tags1 = hasUsedGateway tags2 ->
  determineTypeWith cfg M C tags1 = determineTypeWith cfg M C tags2.
Proof. intros H. unfold determineTypeWith. now rewrite H. Qed.

(** Reconciled tags need no further tag change. *)
Lemma computeTagDiff_reconciled (cur : list string) (t : string) :
  In t TYPE_TAGS ->
  doTags (computeTagDiff (filter not_type_tag cur ++ [t]) t) = false.
Proof.
  intros Ht. rewrite computeTagDiff_typed by assumption. cbv zeta.
  cbn [doTags].
  assert (Hin : includes (map normTag (filter not_type_tag cur ++ [t])) t = true).
  { apply includes_map_normTag. exists t. split.
    - apply in_or_app. right. now left.
    - now apply normTag_type_tag. }
  assert (Hrm : other_type_tags
                  (map normTag (filter not_type_tag cur ++ [t])) t = []).
  { apply no_member_nil. intros u Hu.
    apply other_type_tags_spec in Hu. destruct Hu as (Hu & Hne & Hc).
    rewrite map_app in Hc. apply in_app_or in Hc. destruct Hc as [Hc | Hc].
    - apply includes_In in Hc.
      now rewrite (cleaned_has_no_type_tag cur u Hu) in Hc.
    - cbn [map] in Hc. rewrite (normTag_type_tag t Ht) in Hc.
      destruct Hc as [Hc | []]. now apply Hne. }
  now rewrite Hin, Hrm.
Qed.

Lemma approxEqualMoney_nullable_refl (o : option R) :
  approxEqualMoney (of_nullable o) (of_nullable o) = true.
Proof.
  destruct o as [x |]; [apply approxEqualMoney_refl|].
  unfold approxEqualMoney. cbn. apply Rltb_true.
  replace (0 - 0) with 0 by lra. rewrite Rabs_R0. lra.
Qed.

(** Once the scheduled variants carry the new price, no variant needs
    a price update. *)
Lemma needs_price_after_update (o : option R) (vs : list Variant) :
  filter (needs_price o)
         (map (set_price (map variantId (filter (needs_price o) vs)) o) vs)
  = [].
Proof.
  set (vids := map variantId (filter (needs_price o) vs)).
  assert (H : forall v, In v vs -> needs_price o (set_price vids o v) = false).
  { intros v Hv. unfold set_price.
    destruct (includes vids (variantId v)) eqn:E.
    - unfold needs_price. cbn [price variantId].
      now rewrite approxEqualMoney_nullable_refl, andb_false_r.
    - destruct (needs_price o v) eqn:En; [| reflexivity].
      exfalso. apply includes_false in E. apply E.
      unfold vids. apply in_map, filter_In. now split. }
  clearbody vids. induction vs as [| v vs IH]; [reflexivity|].
  cbn [map filter]. rewrite H by now left.
  apply IH. intros w Hw. apply H. now right.
Qed.

Arguments decideWith : simpl never.

Section SecondRun.
Variable cfg : ClassifierCfg.
Variables (U LM : CostPlus) (STD : StdParams).
Variable net : R -> R.
Variables (tagsAlways mfAlways : bool) (p : Product).

Local Notation "'dec'" := (decideWith cfg U LM STD net).
Local Notation "'first_run'" := (decideWith cfg U LM STD net p).
Local Notation "'applied'" :=
  (apply_instructions tagsAlways mfAlways p (decideWith cfg U LM STD net p)).
Local Notation "'second_run'" :=
  (decideWith cfg U LM STD net
     (apply_instructions tagsAlways mfAlways p (decideWith cfg U LM STD net p))).

Lemma typed_name_in (d : Decision) :
  typed d = true -> In (regime_name (desiredType d)) TYPE_TAGS.
Proof.
  unfold typed. rewrite andb_true_iff. intros [_ H]. now apply includes_In.
Qed.

Lemma second_base :
  base second_run
  = option_map (set_price (variantsToUpdate first_run)
                          (desiredPriceNew first_run))
               (base first_run).
Proof.
  rewrite (dec_base _ _ _ _ _ applied), (dec_base _ _ _ _ _ p).
  unfold apply_instructions at 1. cbn [variants].
  apply pick_base_set_price.
Qed.

Lemma second_msrpGross : msrpGross second_run = msrpGross first_run.
Proof.
  rewrite (dec_msrpGross _ _ _ _ _ applied), (dec_msrpGross _ _ _ _ _ p).
  rewrite second_base.
  destruct (base first_run); cbn [option_map]; [| reflexivity].
  now rewrite set_price_compareAt.
Qed.

Lemma second_C : C_used second_run = C_used first_run.
Proof.
  rewrite (dec_C _ _ _ _ _ applied), (dec_C _ _ _ _ _ p).
  rewrite second_base.
  destruct (base first_run); cbn [option_map]; [| reflexivity].
  now rewrite set_price_cost.
Qed.

Lemma second_M : M_used second_run = M_used first_run.
Proof.
  rewrite (dec_M _ _ _ _ _ applied), (dec_M _ _ _ _ _ p).
  now rewrite second_msrpGross.
Qed.

Lemma second_missingMC : missingMC second_run = missingMC first_run.
Proof.
  rewrite (dec_missingMC _ _ _ _ _ applied), (dec_missingMC _ _ _ _ _ p).
  now rewrite second_M, second_C.
Qed.

Lemma second_doDraft : doDraft second_run = false.
Proof.
  rewrite (dec_doDraft _ _ _ _ _ applied), second_missingMC.
  unfold apply_instructions at 1. cbn [status].
  destruct (doDraft first_run) eqn:E.
  - replace (toLowerCase "Draft" =? "draft")%string with true by reflexivity.
    apply andb_false_r.
  - rewrite (dec_doDraft _ _ _ _ _ p) in E. exact E.
Qed.

(** The tags after the first run: reconciled, or the current ones. *)
Lemma applied_tags :
  tagsArr applied = tagsArr p
  \/ (typed first_run = true
      /\ tagsArr applied
         = filter not_type_tag (tagsArr p)
           ++ [regime_name (desiredType first_run)]).
Proof.
  unfold apply_instructions. cbn [tagsArr].
  destruct (doTags (tagDiff first_run) || tagsAlways); [| now left].
  rewrite (dec_tagDiff _ _ _ _ _ p).
  destruct (typed first_run) eqn:E; [| now left].
  right. split; [reflexivity|].
  rewrite computeTagDiff_typed by now apply typed_name_in.
  reflexivity.
Qed.

Lemma second_gateway :
  hasUsedGateway (tagsArr applied) = hasUsedGateway (tagsArr p).
Proof.
  destruct applied_tags as [-> | [Ht ->]]; [reflexivity|].
  apply hasUsedGateway_reconciled. now apply typed_name_in.
Qed.

Lemma second_desiredType : desiredType second_run = desiredType first_run.
Proof.
  rewrite (dec_desiredType _ _ _ _ _ applied), (dec_desiredType _ _ _ _ _ p).
  rewrite second_missingMC, second_M, second_C.
  destruct (missingMC first_run); [reflexivity|].
  apply determineTypeWith_tags, second_gateway.
Qed.

Lemma second_typed : typed second_run = typed first_run.
Proof.
  unfold typed. now rewrite second_missingMC, second_desiredType.
Qed.

Lemma second_pricing : pricing second_run = pricing first_run.
Proof.
  rewrite (dec_pricing _ _ _ _ _ applied), (dec_pricing _ _ _ _ _ p).
  now rewrite second_typed, second_M, second_C, second_desiredType.
Qed.

Lemma second_desiredPriceNew :
  desiredPriceNew second_run = desiredPriceNew first_run.
Proof.
  rewrite (dec_desiredPriceNew _ _ _ _ _ applied),
    (dec_desiredPriceNew _ _ _ _ _ p).
  now rewrite second_pricing.
Qed.

Lemma second_desiredAsLowAs :
  desiredAsLowAs second_run = desiredAsLowAs first_run.
Proof.
  rewrite (dec_desiredAsLowAs _ _ _ _ _ applied),
    (dec_desiredAsLowAs _ _ _ _ _ p).
  now rewrite second_pricing, second_desiredType.
Qed.

Lemma second_doTags : doTags (tagDiff second_run) = false.
Proof.
  rewrite (dec_tagDiff _ _ _ _ _ applied), second_typed, second_desiredType.
  destruct (typed first_run) eqn:Et; [| reflexivity].
  pose proof (typed_name_in _ Et) as Hn.
  unfold apply_instructions at 1. cbn [tagsArr].
  destruct (doTags (tagDiff first_run) || tagsAlways) eqn:E.
  - rewrite (dec_tagDiff _ _ _ _ _ p), Et.
    rewrite (computeTagDiff_typed (tagsArr p)) by assumption.
    cbv zeta. cbn [desiredTagsArr].
    now apply computeTagDiff_reconciled.
  - apply orb_false_iff in E. destruct E as [E _].
    rewrite (dec_tagDiff _ _ _ _ _ p), Et in E. exact E.
Qed.

Lemma second_variantsToUpdate : variantsToUpdate second_run = [].
Proof.
  rewrite (dec_variantsToUpdate _ _ _ _ _ applied).
  rewrite second_missingMC, second_desiredPriceNew.
  destruct (negb (missingMC first_run) && not_null (desiredPriceNew first_run))
    eqn:E; [| reflexivity].
  unfold apply_instructions at 1. cbn [variants].
  rewrite (dec_variantsToUpdate _ _ _ _ _ p), E.
  now rewrite needs_price_after_update.
Qed.

Lemma second_doPrice : doPrice second_run = false.
Proof.
  now rewrite (dec_doPrice _ _ _ _ _ applied), second_variantsToUpdate.
Qed.

Lemma second_doMetafield : doMetafield second_run = false.
Proof.
  rewrite (dec_doMetafield _ _ _ _ _ applied).
  rewrite second_missingMC, second_desiredType, second_desiredAsLowAs.
  unfold apply_instructions at 1 2. cbn [asLowAsCurrent].
  destruct (doMetafield first_run
            || mfAlways && not_null (desiredAsLowAs first_run)) eqn:E.
  - assert (Hs : exists a, desiredAsLowAs first_run = Some a).
    { destruct (desiredAsLowAs first_run) as [a |] eqn:Ea; [now exists a|].
      exfalso. rewrite (dec_doMetafield _ _ _ _ _ p), Ea in E.
      cbn [not_null] in E.
      rewrite !andb_false_r in E. discriminate E. }
    destruct Hs as (a & ->).
    cbn [of_nullable String_ not_null].
    replace (toNumberOrNull (VText (NumStr a))) with (Some a) by reflexivity.
    cbn [not_null of_nullable].
    rewrite approxEqualMoney_refl. cbn [andb negb]. apply andb_false_r.
  - apply orb_false_iff in E. destruct E as [E _].
    rewrite (dec_doMetafield _ _ _ _ _ p) in E. exact E.
Qed.

(** Run on the product its own instructions produce, the engine finds
    nothing to change. *)
Lemma second_run_quiet :
  doDraft second_run = false
  /\ doTags (tagDiff second_run) = false
  /\ doPrice second_run = false
  /\ doMetafield second_run = false
  /\ needsChange second_run = false.
Proof.
  rewrite (dec_needsChange _ _ _ _ _ applied).
  rewrite second_doDraft, second_doTags, second_doPrice, second_doMetafield.
  repeat split.
Qed.

End SecondRun.

(** C2.  For every product, when the instructions of a first run are
    applied (status Draft when scheduled, tags replaced by desiredTags,
    every scheduled variant set to price_new, the metafield set to the
    new value) and the engine runs again, doDraft, doTags, doPrice and
    doMetafield are all false, hence needsChange is false.  This holds
    whether the tags and the metafield are written only when their
    change is scheduled or whenever the rows carry them. *)
Theorem C2_idempotence (tagsAlways mfAlways : bool) (p : Product) :
  NoVat.flags (NoVat_applied tagsAlways mfAlways p)
  = {| NoVat.f_doDraft := false; NoVat.f_doTags := false;
       NoVat.f_doPrice := false; NoVat.f_doMetafield := false;
       NoVat.f_needsChange := false |}.
Proof.
  unfold NoVat_applied.
  destruct (hasCnfdnt (tagsArr p)) eqn:E.
  - unfold NoVat.flags. now rewrite E.
  - unfold NoVat.flags.
    destruct (hasCnfdnt (tagsArr (apply_instructions _ _ _ _)));
      [reflexivity|].
    unfold NoVat.decide.
    destruct (second_run_quiet NoVat.classifier NoVat.U NoVat.LM NoVat.STD
                (fun x => x) tagsAlways mfAlways p)
      as (H1 & H2 & H3 & H4 & H5).
    now rewrite H1, H2, H3, H4, H5.
Qed.

(** The same holds for the VAT predecessor of the script. *)
Lemma Vat_idempotence (tagsAlways mfAlways : bool) (p : Product) :
  needsChange
    (Vat.decide (apply_instructions tagsAlways mfAlways p (Vat.decide p)))
  = false.
Proof.
  unfold Vat.decide. apply second_run_quiet.
Qed.

(** The first run on [two_variants] does schedule changes: the
    second-run statement is not about an engine that never asks for
    anything. *)
Lemma two_variants_first_run_changes :
  NoVat.f_needsChange (NoVat.flags two_variants) = true.
Proof.
  unfold NoVat.flags.
  replace (hasCnfdnt (tagsArr two_variants)) with false by reflexivity.
  cbn [NoVat.f_needsChange]. apply two_variants_decision.
Qed.

(** Worked scenario 4: without a reference price an active product is
    drafted, its regime is [skip], and neither its tags, its prices nor
    its metafield change; the only row written sets the status. *)
Lemma NoVat_scenario_draft :
  let d := NoVat.decide no_reference_price in
  doDraft d = true /\ desiredType d = Skip
  /\ doTags (tagDiff d) = false /\ doPrice d = false
  /\ doMetafield d = false /\ needsChange d = true
  /\ NoVat.only_changes_rows no_reference_price d
     = Done [ {| col_ID := "2"; col_Command := "UPDATE"; col_Tags := "";
                 col_TagsCommand := ""; col_Status := "Draft";
                 col_VariantID := ""; col_VariantCommand := "";
                 col_VariantPrice := Lit ""; col_Metafield := Lit "" |} ].
Proof.
  intros d. unfold d, NoVat.decide.
  set (e := decideWith _ _ _ _ _ no_reference_price).
  assert (Hb : base e = Some {| variantId := "v9"; pos := 1; price := Some 20;
                                compareAt := None; cost := Some 10 |})
    by reflexivity.
  assert (Hg : msrpGross e = 0)
    by (unfold e; rewrite dec_msrpGross; fold e; now rewrite Hb).
  assert (H0 : Rgtb 0 0 = false) by (apply Rgtb_false; lra).
  assert (HM : M_used e = 0)
    by (unfold e; rewrite dec_M; fold e; now rewrite Hg, H0).
  assert (Hm : missingMC e = true)
    by (unfold e; rewrite dec_missingMC; fold e; now rewrite HM, H0).
  assert (Ht : desiredType e = Skip)
    by (unfold e; rewrite dec_desiredType; fold e; now rewrite Hm).
  assert (Hty : typed e = false) by (unfold typed; now rewrite Hm).
  assert (Hp : pricing e = pricing_not_ok)
    by (unfold e; rewrite dec_pricing; fold e; now rewrite Hty).
  assert (Hpn : desiredPriceNew e = None)
    by (unfold e; rewrite dec_desiredPriceNew; fold e; now rewrite Hp).
  assert (Hal : desiredAsLowAs e = None)
    by (unfold e; rewrite dec_desiredAsLowAs; fold e; now rewrite Hp).
  assert (Htd : doTags (tagDiff e) = false)
    by (unfold e; rewrite dec_tagDiff; fold e; now rewrite Hty).
  assert (Hv : variantsToUpdate e = [])
    by (unfold e; rewrite dec_variantsToUpdate; fold e; now rewrite Hm).
  assert (Hdp : doPrice e = false)
    by (unfold e; rewrite dec_doPrice; fold e; now rewrite Hv).
  assert (Hdm : doMetafield e = false)
    by (unfold e; rewrite dec_doMetafield; fold e; now rewrite Hm).
  assert (Hdd : doDraft e = true)
    by (unfold e; rewrite dec_doDraft; fold e; now rewrite Hm).
  repeat split; try assumption.
  - unfold e; rewrite dec_needsChange; fold e. now rewrite Hdd.
  - unfold NoVat.only_changes_rows, NoVat.mfCell.
    rewrite Hm, Hdd, Htd, Hdp, Hal. reflexivity.
Qed.

(** * Further properties of the scripts *)

(** ** CSV lines *)

Lemma append_nil_r (s : string) : String.append s EmptyString = s.
Proof. induction s as [| c s IH]; simpl; [reflexivity | now rewrite IH]. Qed.

Lemma append_assoc (a b c : string) :
  String.append (String.append a b) c = String.append a (String.append b c).
Proof. induction a as [| x a IH]; simpl; [reflexivity | now rewrite IH]. Qed.

Lemma complete_loop_cons (c ch : ascii) (rest : string) (inQ : bool) :
  complete_loop (String c (String ch rest)) inQ
  = if Ascii.eqb c dquote then
      if inQ && Ascii.eqb ch dquote then complete_loop rest inQ
      else complete_loop (String ch rest) (negb inQ)
    else complete_loop (String ch rest) inQ.
Proof. reflexivity. Qed.

(** The quote automaton ends outside a quoted field exactly when the
    parity of the quotes read agrees with the state it started in. *)
Lemma complete_loop_parity (s : string) :
  (forall inQ, complete_loop s inQ = negb (xorb inQ (Nat.odd (count_quotes s))))
  /\ (forall c inQ,
        complete_loop (String c s) inQ
        = negb (xorb inQ (Nat.odd (count_quotes (String c s))))).
Proof.
  induction s as [| ch rest [IH1 IH2]].
  - split.
    + intros inQ. simpl. now destruct inQ.
    + intros c inQ. simpl. destruct (Ascii.eqb c dquote), inQ; reflexivity.
  - split; [exact (IH2 ch)|].
    intros c inQ. rewrite complete_loop_cons.
    cbn [count_quotes].
    destruct (Ascii.eqb c dquote) eqn:Ec.
    + destruct (inQ && Ascii.eqb ch dquote) eqn:E.
      * apply andb_true_iff in E. destruct E as [-> Eh].
        rewrite IH1, Eh.
        cbn [Nat.add]. rewrite Nat.odd_succ, Nat.even_succ. reflexivity.
      * rewrite IH2. cbn [count_quotes].
        cbn [Nat.add]. rewrite Nat.odd_succ, <- Nat.negb_odd.
        set (b := Nat.odd _). clearbody b. destruct inQ, b; reflexivity.
    + rewrite IH2. reflexivity.
Qed.

(** X1.  A buffer is a complete record exactly when it holds an even
    number of double quotes. *)
Theorem isCsvRecordComplete_even_quotes (s : string) :
  isCsvRecordComplete s = Nat.even (count_quotes s).
Proof.
  unfold isCsvRecordComplete.
  rewrite (proj1 (complete_loop_parity s)). cbn [xorb].
  now rewrite Nat.negb_odd.
Qed.

Lemma parse_loop_open (delim : ascii) (rest cur : string) (out : list string) :
  parse_loop delim (String dquote rest) cur false out
  = parse_loop delim rest cur true out.
Proof. destruct rest; reflexivity. Qed.

Lemma parse_loop_escaped (delim : ascii) (rest cur : string) (out : list string) :
  parse_loop delim (String dquote (String dquote rest)) cur true out
  = parse_loop delim rest (String.append cur quote_str) true out.
Proof. reflexivity. Qed.

Lemma parse_loop_other (delim ch : ascii) (rest cur : string) (inQ : bool)
  (out : list string) :
  Ascii.eqb ch dquote = false ->
  parse_loop delim (String ch rest) cur inQ out
  = if negb inQ && Ascii.eqb ch delim
    then parse_loop delim rest EmptyString inQ (out ++ [cur])
    else parse_loop delim rest (String.append cur (String ch EmptyString))
           inQ out.
Proof. intros H. cbn [parse_loop]. now rewrite H. Qed.

Lemma parse_loop_close (rest cur : string) (out : list string) :
  field_end rest ->
  parse_loop "," (String dquote rest) cur true out
  = parse_loop "," rest cur false out.
Proof. intros [-> | (r & ->)]; reflexivity. Qed.

(** A field without quote and comma is read as it stands. *)
Lemma parse_plain (s rest cur : string) (out : list string) :
  has_char dquote s = false -> has_char "," s = false ->
  parse_loop "," (String.append s rest) cur false out
  = parse_loop "," rest (String.append cur s) false out.
Proof.
  revert cur. induction s as [| c s IH]; intros cur Hq Hc.
  - simpl. now rewrite append_nil_r.
  - cbn [has_char] in Hq, Hc.
    apply orb_false_iff in Hq, Hc. destruct Hq as [Hq1 Hq2], Hc as [Hc1 Hc2].
    cbn [String.append]. rewrite parse_loop_other by assumption.
    rewrite Hc1. cbn [negb andb].
    rewrite IH by assumption. now rewrite append_assoc.
Qed.

(** Inside the quotes the doubled text is read back, up to the closing
    quote. *)
Lemma parse_quoted_body (s rest cur : string) (out : list string) :
  field_end rest ->
  parse_loop "," (String.append (double_quotes s) (String dquote rest))
    cur true out
  = parse_loop "," rest (String.append cur s) false out.
Proof.
  intros Hr. revert cur. induction s as [| c s IH]; intros cur.
  - cbn [double_quotes String.append]. rewrite append_nil_r.
    now apply parse_loop_close.
  - cbn [double_quotes]. destruct (Ascii.eqb c dquote) eqn:Ec.
    + apply Ascii.eqb_eq in Ec. subst c.
      cbn [String.append]. rewrite parse_loop_escaped, IH.
      unfold quote_str. now rewrite append_assoc.
    + cbn [String.append]. rewrite parse_loop_other by assumption.
      cbn [negb andb]. rewrite IH. now rewrite append_assoc.
Qed.

Lemma parse_field (f rest cur : string) (out : list string) :
  field_end rest ->
  parse_loop "," (String.append (csvEscape f) rest) cur false out
  = parse_loop "," rest (String.append cur f) false out.
Proof.
  intros Hr. unfold csvEscape.
  destruct (has_char dquote f || has_char "," f || has_char LF f
            || has_char CR f || has_char ";" f) eqn:E.
  - cbn [String.append]. rewrite parse_loop_open.
    unfold quote_str. rewrite append_assoc. cbn [String.append].
    now apply parse_quoted_body.
  - repeat (apply orb_false_iff in E; destruct E as [E ?]).
    now apply parse_plain.
Qed.

Lemma csv_line_cons (f g : string) (fs : list string) :
  csv_line (f :: g :: fs)
  = String.append (csvEscape f) (String "," (csv_line (g :: fs))).
Proof. reflexivity. Qed.

Lemma parse_csv_line (f : string) (fs : list string) (out : list string) :
  parse_loop "," (csv_line (f :: fs)) EmptyString false out = out ++ f :: fs.
Proof.
  revert f out. induction fs as [| g fs IH]; intros f out.
  - unfold csv_line. cbn [map String.concat].
    rewrite <- (append_nil_r (csvEscape f)).
    rewrite parse_field by now left. reflexivity.
  - rewrite csv_line_cons.
    rewrite parse_field by (right; eexists; reflexivity).
    cbn [String.append].
    rewrite parse_loop_other by reflexivity.
    cbn [negb andb].
    replace (Ascii.eqb "," ",") with true by reflexivity.
    rewrite IH. now rewrite <- app_assoc.
Qed.

(** X2.  Reading back a line that [writeCsv] wrote gives the cells that
    were written, whatever characters they hold; the line of no cells
    reads back as one empty cell. *)
Theorem parseCsvLine_csv_line (cells : list string) :
  cells <> [] -> parseCsvLine (csv_line cells) "," = cells.
Proof.
  intros H. destruct cells as [| f fs]; [now contradiction H|].
  unfold parseCsvLine. now rewrite parse_csv_line.
Qed.

Lemma parseCsvLine_csv_line_witness :
  parseCsvLine (csv_line ["a,b"; String dquote "x"; ""]) ","
  = ["a,b"; String dquote "x"; ""].
Proof. apply parseCsvLine_csv_line. discriminate. Defined.

Lemma count_quotes_append (a b : string) :
  count_quotes (String.append a b) = (count_quotes a + count_quotes b)%nat.
Proof.
  induction a as [| c a IH]; cbn [String.append count_quotes];
    [reflexivity | rewrite IH; lia].
Qed.

Lemma count_quotes_double (s : string) :
  count_quotes (double_quotes s) = (2 * count_quotes s)%nat.
Proof.
  induction s as [| c s IH]; [reflexivity|].
  cbn [double_quotes count_quotes].
  destruct (Ascii.eqb c dquote) eqn:E; cbn [count_quotes].
  - replace (Ascii.eqb dquote dquote) with true by reflexivity.
    rewrite IH. lia.
  - rewrite E, IH. lia.
Qed.

Lemma has_char_count (s : string) :
  has_char dquote s = false -> count_quotes s = 0%nat.
Proof.
  induction s as [| c s IH]; [reflexivity|].
  cbn [has_char count_quotes]. intros H.
  apply orb_false_iff in H. destruct H as [-> H]. now rewrite IH.
Qed.

Lemma count_quotes_csvEscape (f : string) :
  Nat.even (count_quotes (csvEscape f)) = true.
Proof.
  unfold csvEscape.
  destruct (has_char dquote f || has_char "," f || has_char LF f
            || has_char CR f || has_char ";" f) eqn:E.
  - cbn [count_quotes]. replace (Ascii.eqb dquote dquote) with true by reflexivity.
    rewrite count_quotes_append, count_quotes_double. unfold quote_str.
    cbn [count_quotes]. replace (Ascii.eqb dquote dquote) with true by reflexivity.
    replace (1 + (2 * count_quotes f + (1 + 0)))%nat
      with (2 * (1 + count_quotes f))%nat by lia.
    apply Nat.even_spec. now exists (1 + count_quotes f)%nat.
  - repeat (apply orb_false_iff in E; destruct E as [E ?]).
    now rewrite has_char_count.
Qed.

(** X3.  Every line [writeCsv] builds is a complete record for the
    reader, also when a cell holds line breaks or quotes. *)
Theorem csv_line_complete (cells : list string) :
  isCsvRecordComplete (csv_line cells) = true.
Proof.
  unfold isCsvRecordComplete. rewrite (proj1 (complete_loop_parity _)).
  cbn [xorb]. rewrite Nat.negb_odd. unfold csv_line.
  induction cells as [| f fs IH]; [reflexivity|].
  destruct fs as [| g fs].
  - cbn [map String.concat]. apply count_quotes_csvEscape.
  - change (String.concat "," (map csvEscape (f :: g :: fs)))
      with (String.append (csvEscape f)
              (String "," (String.concat "," (map csvEscape (g :: fs))))).
    rewrite count_quotes_append. cbn [count_quotes].
    replace (Ascii.eqb "," dquote) with false by reflexivity.
    cbn [Nat.add]. rewrite Nat.even_add, count_quotes_csvEscape, IH.
    reflexivity.
Qed.

(** ** Tag cells *)

Lemma trimStart_starts_clean (s : string) : starts_clean (trimStart s).
Proof.
  induction s as [| c s IH]; cbn [trimStart]; [exact I|].
  destruct (is_space c) eqn:E; [exact IH | exact E].
Qed.

Lemma starts_clean_trimStart (s : string) : starts_clean s -> trimStart s = s.
Proof.
  destruct s as [| c s]; [reflexivity|]. cbn [starts_clean trimStart].
  now intros ->.
Qed.

Lemma trimEnd_cons (c : ascii) (r : string) :
  trimEnd (String c r)
  = match trimEnd r with
    | EmptyString => if is_space c then EmptyString else String c EmptyString
    | r' => String c r'
    end.
Proof. reflexivity. Qed.

Lemma trimEnd_starts_clean (s : string) :
  starts_clean s -> starts_clean (trimEnd s).
Proof.
  destruct s as [| c s]; [intros H; exact H|]. cbn [starts_clean]. intros H.
  rewrite trimEnd_cons, H. now destruct (trimEnd s).
Qed.

Lemma trimEnd_idem (s : string) : trimEnd (trimEnd s) = trimEnd s.
Proof.
  induction s as [| c s IH]; [reflexivity|].
  rewrite trimEnd_cons. destruct (trimEnd s) as [| d r'] eqn:E.
  - destruct (is_space c) eqn:Ec; [reflexivity|].
    rewrite trimEnd_cons. cbn [trimEnd]. now rewrite Ec.
  - rewrite trimEnd_cons, IH. reflexivity.
Qed.

Lemma trim_idem (s : string) : trim (trim s) = trim s.
Proof.
  unfold trim.
  rewrite (starts_clean_trimStart (trimEnd (trimStart s)))
    by apply trimEnd_starts_clean, trimStart_starts_clean.
  apply trimEnd_idem.
Qed.

(** A trimmed string starts clean and has no trailing white space. *)
Lemma trimmed_parts (t : string) :
  trim t = t -> starts_clean t /\ trimEnd t = t.
Proof.
  intros H.
  assert (Hs : starts_clean t).
  { rewrite <- H. apply trimEnd_starts_clean, trimStart_starts_clean. }
  split; [exact Hs|].
  unfold trim in H. now rewrite (starts_clean_trimStart t Hs) in H.
Qed.

Lemma has_char_trimStart (c : ascii) (s : string) :
  has_char c s = false -> has_char c (trimStart s) = false.
Proof.
  induction s as [| d s IH]; [reflexivity|]. cbn [has_char trimStart].
  intros H. apply orb_false_iff in H. destruct H as [H1 H2].
  destruct (is_space d); [now apply IH|].
  cbn [has_char]. now rewrite H1, H2.
Qed.

Lemma has_char_trimEnd (c : ascii) (s : string) :
  has_char c s = false -> has_char c (trimEnd s) = false.
Proof.
  induction s as [| d s IH]; [reflexivity|]. cbn [has_char].
  intros H. apply orb_false_iff in H. destruct H as [H1 H2].
  rewrite trimEnd_cons. specialize (IH H2).
  destruct (trimEnd s) as [| e r'].
  - destruct (is_space d); [reflexivity|].
    cbn [has_char]. now rewrite H1.
  - cbn [has_char] in *. now rewrite H1, IH.
Qed.

Lemma has_char_trim (c : ascii) (s : string) :
  has_char c s = false -> has_char c (trim s) = false.
Proof. intros H. now apply has_char_trimEnd, has_char_trimStart. Qed.

(** No piece of a split holds the separator. *)
Lemma split_pieces (sep : ascii) (s p : string) :
  In p (split sep s) -> has_char sep p = false.
Proof.
  revert p. induction s as [| c s IH]; intros p; cbn [split].
  - intros [<- | []]. reflexivity.
  - destruct (Ascii.eqb c sep) eqn:E.
    + intros [<- | H]; [reflexivity | now apply IH].
    + destruct (split sep s) as [| h t] eqn:Es.
      * intros [<- | []]. cbn [has_char]. now rewrite E.
      * intros [<- | H].
        -- cbn [has_char]. rewrite E. apply IH. now left.
        -- apply IH. now right.
Qed.

(** X4.  Every tag [parseTags] returns is non-empty, trimmed and free
    of commas, whatever the cell holds; a blank cell gives no tag. *)
Theorem parseTags_tags_ok (tagsCell : string) :
  (forall t, In t (parseTags tagsCell) -> tag_ok t)
  /\ (trim tagsCell = EmptyString -> parseTags tagsCell = []).
Proof.
  unfold parseTags. split.
  - intros t. destruct (negb (truthy (trim tagsCell))); [intros []|].
    rewrite filter_In, in_map_iff. intros [(p & <- & Hp) Ht].
    repeat split.
    + intros E. rewrite E in Ht. discriminate Ht.
    + apply trim_idem.
    + apply has_char_trim. now apply split_pieces in Hp.
  - now intros ->.
Qed.

Lemma split_plain (sep : ascii) (a : string) :
  has_char sep a = false -> split sep a = [a].
Proof.
  induction a as [| c a IH]; [reflexivity|]. cbn [has_char split].
  intros H. apply orb_false_iff in H. destruct H as [H1 H2].
  now rewrite H1, IH.
Qed.

Lemma split_append (sep : ascii) (a b : string) :
  has_char sep a = false ->
  split sep (String.append a (String sep b)) = a :: split sep b.
Proof.
  induction a as [| c a IH]; cbn [has_char String.append split].
  - intros _. now rewrite Ascii.eqb_refl.
  - intros H. apply orb_false_iff in H. destruct H as [H1 H2].
    now rewrite H1, IH.
Qed.

Lemma join_tags_cons (t u : string) (us : list string) :
  join_tags (t :: u :: us)
  = String.append t (String "," (String " " (join_tags (u :: us)))).
Proof. reflexivity. Qed.

Lemma split_join_tags (t : string) (ts : list string) :
  Forall (fun u => has_char "," u = false) (t :: ts) ->
  split "," (join_tags (t :: ts)) = t :: map (String " ") ts.
Proof.
  revert t. induction ts as [| u us IH]; intros t H.
  - inversion H; subst. now apply split_plain.
  - inversion H as [| ? ? Ht Hr]; subst.
    rewrite join_tags_cons, split_append by assumption.
    f_equal. cbn [split].
    replace (Ascii.eqb " " ",") with false by reflexivity.
    now rewrite (IH u Hr).
Qed.

Lemma trimEnd_append (a b : string) :
  trimEnd b = b -> b <> EmptyString ->
  trimEnd (String.append a b) = String.append a b.
Proof.
  intros Hb Hn. induction a as [| c a IH]; [exact Hb|].
  cbn [String.append]. rewrite trimEnd_cons, IH.
  destruct (String.append a b) eqn:E; [| reflexivity].
  destruct a; [now contradiction Hn | discriminate E].
Qed.

Lemma join_tags_nonempty (t : string) (ts : list string) :
  t <> EmptyString -> join_tags (t :: ts) <> EmptyString.
Proof.
  intros H. destruct ts as [| u us].
  - exact H.
  - rewrite join_tags_cons. destruct t; [now contradiction H | discriminate].
Qed.

Lemma trimEnd_join_tags (t : string) (ts : list string) :
  Forall tag_ok (t :: ts) -> trimEnd (join_tags (t :: ts)) = join_tags (t :: ts).
Proof.
  revert t. induction ts as [| u us IH]; intros t H.
  - inversion H as [| ? ? (_ & Ht & _) _]; subst.
    now apply trimmed_parts.
  - inversion H as [| ? ? _ Hr]; subst.
    rewrite join_tags_cons.
    change (String.append t (String "," (String " " (join_tags (u :: us)))))
      with (String.append t
              (String.append ", " (join_tags (u :: us)))).
    rewrite <- append_assoc.
    apply trimEnd_append; [now apply IH|].
    inversion Hr as [| ? ? (Hu & _) _]; subst.
    now apply join_tags_nonempty.
Qed.

Lemma trim_join_tags (t : string) (ts : list string) :
  Forall tag_ok (t :: ts) -> trim (join_tags (t :: ts)) = join_tags (t :: ts).
Proof.
  intros H. unfold trim.
  assert (Hs : starts_clean (join_tags (t :: ts))).
  { inversion H as [| ? ? (Hn & Ht & _) _]; subst.
    apply trimmed_parts in Ht. destruct Ht as [Ht _].
    destruct t as [| c t]; [now contradiction Hn|].
    destruct ts; exact Ht. }
  rewrite (starts_clean_trimStart _ Hs). now apply trimEnd_join_tags.
Qed.

(** A well-formed tag list survives the Tags cell: joined with ", "
    and parsed again it is the same list. *)
Lemma parseTags_join_tags (l : list string) :
  Forall tag_ok l -> parseTags (join_tags l) = l.
Proof.
  intros H. destruct l as [| t ts]; [reflexivity|].
  unfold parseTags. rewrite trim_join_tags by assumption.
  assert (Hn : truthy (join_tags (t :: ts)) = true).
  { inversion H as [| ? ? (Hn & _) _]; subst.
    pose proof (join_tags_nonempty t ts Hn) as Hj.
    now destruct (join_tags (t :: ts)). }
  rewrite Hn. cbn [negb].
  rewrite split_join_tags
    by (eapply Forall_impl; [| exact H]; now intros a (_ & _ & Ha)).
  cbn [map]. rewrite map_map.
  assert (Hm : forall l', Forall tag_ok l' ->
                 filter truthy (map trim l') = l'
                 /\ filter truthy (map (fun x => trim (String " " x)) l') = l').
  { induction l' as [| a l' IH]; intros Hl; [now split|].
    inversion Hl as [| ? ? (Ha & Hta & _) Hr]; subst.
    destruct (IH Hr) as [IH1 IH2].
    assert (Hsp : trim (String " " a) = a) by exact Hta.
    cbn [map filter]. rewrite Hsp, Hta.
    destruct a; [now contradiction Ha|].
    cbn [truthy]. now rewrite IH1, IH2. }
  inversion H as [| ? ? Ht Hr]; subst.
  destruct (Hm [t] ltac:(now constructor)) as [H1 _].
  destruct (Hm ts Hr) as [_ H2].
  cbn [map filter] in H1 |- *.
  destruct (truthy (trim t)); [| discriminate H1].
  injection H1 as H1. now rewrite H1, H2.
Qed.

Lemma type_tag_ok (t : string) : In t TYPE_TAGS -> tag_ok t.
Proof.
  rewrite TYPE_TAGS_cases.
  intros [-> | [-> | ->]]; repeat split; discriminate.
Qed.

(** X5.  The Tags cell the engine writes reads back as the tags it
    wanted: for tags parsed from any cell and any type regime,
    [parseTags(desiredTags.join(", "))] is [desiredTags], and so is any
    joined list of non-empty, trimmed, comma-free tags. *)
Theorem parseTags_round_trip (tagsCell desiredType : string) :
  In desiredType TYPE_TAGS ->
  let desired :=
    desiredTagsArr (computeTagDiff (parseTags tagsCell) desiredType) in
  parseTags (join_tags desired) = desired
  /\ (forall l, Forall tag_ok l -> parseTags (join_tags l) = l).
Proof.
  intros Ht desired. split; [| exact parseTags_join_tags].
  apply parseTags_join_tags. unfold desired.
  rewrite computeTagDiff_typed by assumption. cbv zeta. cbn [desiredTagsArr].
  apply Forall_app. split.
  - apply Forall_forall. intros t Hin. apply filter_In in Hin.
    destruct Hin as [Hin _].
    unfold parseTags in Hin.
    destruct (negb (truthy (trim tagsCell))); [destruct Hin|].
    rewrite filter_In, in_map_iff in Hin. destruct Hin as [(p & <- & Hp) Hn].
    repeat split.
    + intros E. rewrite E in Hn. discriminate Hn.
    + apply trim_idem.
    + apply has_char_trim. now apply split_pieces in Hp.
  - constructor; [now apply type_tag_ok | constructor].
Qed.

Lemma parseTags_round_trip_witness :
  parseTags (join_tags ["Sale"; "New in"; "low-margin"])
  = ["Sale"; "New in"; "low-margin"]
  /\ desiredTagsArr (computeTagDiff (parseTags " Sale ,standard,, New in")
                       "low-margin")
     = ["Sale"; "New in"; "low-margin"].
Proof.
  destruct (parseTags_round_trip " Sale ,standard,, New in" "low-margin"
              ltac:(simpl; tauto)) as [H1 H2].
  split; [| reflexivity].
  apply H2. repeat constructor; discriminate.
Defined.

(** ** Numbers read from cells *)

Lemma replace_comma_nil (s : string) :
  replace_comma s = EmptyString -> s = EmptyString.
Proof.
  destruct s as [| c s]; [reflexivity|]. cbn [replace_comma].
  destruct (Ascii.eqb c ","); discriminate.
Qed.

Lemma is_space_comma (c : ascii) : Ascii.eqb c "," = true -> is_space c = false.
Proof. intros H. apply Ascii.eqb_eq in H. now subst. Qed.

Lemma trimStart_replace_comma (s : string) :
  trimStart (replace_comma s) = replace_comma (trimStart s).
Proof.
  induction s as [| c s IH]; [reflexivity|].
  cbn [replace_comma trimStart].
  destruct (Ascii.eqb c ",") eqn:E.
  - rewrite (is_space_comma c E). cbn [trimStart replace_comma].
    now rewrite E.
  - cbn [trimStart]. destruct (is_space c); [exact IH|].
    cbn [replace_comma]. now rewrite E.
Qed.

Lemma trimEnd_replace_comma (s : string) :
  trimEnd (replace_comma s) = replace_comma (trimEnd s).
Proof.
  induction s as [| c s IH]; [reflexivity|].
  cbn [replace_comma]. destruct (Ascii.eqb c ",") eqn:E.
  - rewrite !trimEnd_cons, (is_space_comma c E).
    replace (is_space ".") with false by reflexivity.
    destruct (trimEnd s); cbn [replace_comma]; now rewrite E.
  - rewrite !trimEnd_cons, IH.
    destruct (trimEnd s) as [| e r'] eqn:Et.
    + cbn [replace_comma]. destruct (is_space c); [reflexivity|].
      cbn [replace_comma]. now rewrite E.
    + destruct (replace_comma (String e r')) eqn:Er.
      * apply replace_comma_nil in Er. discriminate Er.
      * cbn [replace_comma] in Er |- *. now rewrite E, Er.
Qed.

Lemma trim_replace_comma (s : string) :
  trim (replace_comma s) = replace_comma (trim s).
Proof.
  unfold trim. now rewrite trimStart_replace_comma, trimEnd_replace_comma.
Qed.

(** [Number] ignores white space around its argument. *)
Lemma Number_of_string_trim (s : string) :
  Number_of_string (trim s) = Number_of_string s.
Proof. unfold Number_of_string. now rewrite trim_idem. Qed.

(** X6.  The two [toNumberOrNull] helpers differ on blank cells only:
    on a cell that is not blank they return the same value, on a blank
    one the helper of the no-VAT script returns 0 and the helper of
    [src/matrixify-run.mjs] returns [null]. *)
Theorem toNumberOrNull_helpers_agree (s : string) :
  (trim s <> EmptyString ->
   MatrixifyRun.toNumberOrNull (VStr s) = toNumberOrNull (VStr s))
  /\ (trim s = EmptyString ->
      toNumberOrNull (VStr s) = Some 0
      /\ MatrixifyRun.toNumberOrNull (VStr s) = None).
Proof.
  unfold MatrixifyRun.toNumberOrNull, toNumberOrNull.
  cbn [nullish VStr String_ Text_trim Text_truthy Text_replace_comma Number_].
  split.
  - intros H. destruct (trim s) eqn:E; [now contradiction H|].
    cbn [truthy negb]. rewrite <- E, <- trim_replace_comma.
    now rewrite Number_of_string_trim.
  - intros H. rewrite H. cbn [truthy negb]. split; [| reflexivity].
    unfold Number_of_string. rewrite trim_replace_comma, H. reflexivity.
Qed.

Lemma toNumberOrNull_helpers_agree_witness :
  MatrixifyRun.toNumberOrNull (VStr " 12,5 ") = toNumberOrNull (VStr " 12,5 ")
  /\ toNumberOrNull (VStr "  ") = Some 0
  /\ MatrixifyRun.toNumberOrNull (VStr "  ") = None.
Proof.
  split.
  - apply (toNumberOrNull_helpers_agree " 12,5 "). discriminate.
  - apply (toNumberOrNull_helpers_agree "  "). reflexivity.
Defined.

(** ** Pricing: sign and order of the two outputs *)

Lemma ln_10_pos : 0 < ln 10.
Proof. rewrite <- ln_1. apply ln_increasing; lra. Qed.

Lemma ln_le_mono (x y : R) : 0 < x -> x <= y -> ln x <= ln y.
Proof.
  intros Hx [H | ->]; [| lra]. left. now apply ln_increasing.
Qed.

Lemma Math_log10_le (x y : R) :
  0 < x -> x <= y -> Math_log10 x <= Math_log10 y.
Proof.
  intros Hx Hxy. unfold Math_log10.
  pose proof (ln_le_mono x y Hx Hxy). pose proof ln_10_pos.
  apply Rmult_le_compat_r; [| assumption].
  left. now apply Rinv_0_lt_compat.
Qed.

Lemma Math_log10_10 : Math_log10 10 = 1.
Proof. unfold Math_log10. pose proof ln_10_pos. field. lra. Qed.

Lemma Math_log10_hundredth : Math_log10 (/ 100) = -2.
Proof.
  unfold Math_log10. rewrite ln_Rinv by lra.
  replace 100 with (10 * 10) by lra. rewrite ln_mult by lra.
  pose proof ln_10_pos. field. lra.
Qed.

Lemma sM_bounds (P : CostPlus) (M : R) : 0 < sM P M < 1.
Proof.
  unfold sM, Math_exp. pose proof (exp_pos ((M - K0 P) / k_ P)) as He.
  split.
  - apply Rdiv_lt_0_compat; lra.
  - apply Rmult_lt_reg_r with (1 + exp ((M - K0 P) / k_ P)); [lra|].
    unfold Rdiv. rewrite Rmult_assoc, Rinv_l by lra. lra.
Qed.

(** When the cost is at least a hundred times the reference price the
    cost-plus raw price of the no-VAT script is negative. *)
Lemma NoVat_price_raw_negative (M C : R) :
  0 < M -> 100 * M <= C -> 90 <= C ->
  price_raw NoVat.U M C <= - 50 /\ price_raw NoVat.LM M C <= - 1.
Proof.
  intros HM HC H90.
  assert (HL : Math_log10 (M / C) <= -2).
  { rewrite <- Math_log10_hundredth. apply Math_log10_le.
    - apply Rdiv_lt_0_compat; lra.
    - apply Rmult_le_reg_r with C; [lra|].
      unfold Rdiv. rewrite Rmult_assoc, Rinv_l by lra. lra. }
  pose proof (sM_bounds NoVat.U M) as [_ Hs].
  unfold price_raw. cbn [alpha beta gamma N_ NoVat.U NoVat.LM].
  set (L := Math_log10 (M / C)) in *. set (s := sM NoVat.U M) in *.
  split; nra.
Qed.

(** X7.  The cost-plus regimes have no price floor.  In the no-VAT
    script a product whose cost is at least 90 and at least a hundred
    times its reference price is classified used or low-margin, and
    [computePricing] answers [ok] with a negative [price_new]. *)
Theorem NoVat_no_price_floor (M C : R) (tags : list string) :
  0 < M -> 100 * M <= C -> 90 <= C ->
  let t := NoVat.determineTypeArigato M C tags in
  (t = Used \/ t = LowMargin)
  /\ ok (NoVat.computePricing M C t) = true
  /\ price_new (NoVat.computePricing M C t) < 0.
Proof.
  intros HM HC H90 t.
  assert (Ht : t = Used \/ t = LowMargin).
  { unfold t, NoVat.determineTypeArigato.
    rewrite determineTypeWith_pos by lra.
    destruct (hasUsedGateway tags); [now left | right].
    assert (HG : Rgeb (margin_G NoVat.classifier M C) 0 = false)
      by (apply Rgeb_false; rewrite NoVat_margin_closed_form; lra).
    now rewrite HG. }
  split; [exact Ht|].
  unfold NoVat.computePricing. rewrite computePricingWith_ok by lra.
  split; [reflexivity|]. cbn [price_new].
  destruct (NoVat_price_raw_negative M C HM HC H90) as [HU HL].
  assert (Hp : price_unrounded NoVat.U NoVat.LM NoVat.STD M C t <= -1).
  { destruct Ht as [-> | ->]; cbn [price_unrounded];
      rewrite Rmin_right by lra; lra. }
  pose proof (round2_bound (price_unrounded NoVat.U NoVat.LM NoVat.STD M C t)).
  lra.
Qed.

Lemma NoVat_no_price_floor_witness :
  price_new (NoVat.computePricing 1 100 (NoVat.determineTypeArigato 1 100 []))
  < 0.
Proof.
  apply (NoVat_no_price_floor 1 100 []); lra.
Defined.

(** The hidden price of the standard regime is positive, in the no-VAT
    script... *)
Lemma NoVat_P_hidden_raw_pos (M C : R) :
  0 < M -> 0 < C -> 0 < P_hidden_raw NoVat.STD M C.
Proof.
  intros HM HC. unfold P_hidden_raw. cbv zeta.
  cbn [d_max mu0 beta_disc gamma_M rho d_ref M_ref NoVat.STD].
  set (d := clamp (1 - C / M) 0 (99 / 100)).
  assert (Hd : 0 <= d <= 99 / 100).
  { unfold d, clamp. split; [apply Rmax_l|].
    apply Rmax_lub; [lra | apply Rmin_l]. }
  set (m := Math_pow (M / 25000) (- (23 / 100))).
  assert (Hm : 0 < m) by (unfold m, Math_pow, Rpower; apply exp_pos).
  set (L := Math_log10 (1 / (1 - d)) - Math_log10 (1 / (1 - 91 / 100))).
  assert (HA : 0 < M * m / (1 - 51 / 100))
    by (apply Rdiv_lt_0_compat; [nra | lra]).
  apply Rmult_lt_0_compat; [exact HA|]. nra.
Qed.

(** ... and with the constants of the VAT scripts. *)
Lemma Vat_P_hidden_raw_pos (M C : R) :
  0 < M -> 0 < C -> 0 < P_hidden_raw Vat.STD M C.
Proof.
  intros HM HC. unfold P_hidden_raw. cbv zeta.
  cbn [d_max mu0 beta_disc gamma_M rho d_ref M_ref Vat.STD].
  set (d := clamp (1 - C / M) 0 (99 / 100)).
  assert (Hd : 0 <= d <= 99 / 100).
  { unfold d, clamp. split; [apply Rmax_l|].
    apply Rmax_lub; [lra | apply Rmin_l]. }
  set (m := Math_pow (M / 25000) (- (23 / 100))).
  assert (Hm : 0 < m) by (unfold m, Math_pow, Rpower; apply exp_pos).
  assert (HLd : 0 <= Math_log10 (1 / (1 - d))).
  { rewrite <- Math_log10_1. apply Math_log10_le; [lra|].
    apply Rmult_le_reg_r with (1 - d); [lra|].
    unfold Rdiv. rewrite Rmult_assoc, Rinv_l by lra. lra. }
  assert (HLr : Math_log10 (1 / (1 - 90 / 100)) = 1).
  { replace (1 / (1 - 90 / 100)) with 10 by lra. apply Math_log10_10. }
  rewrite HLr. set (L := Math_log10 (1 / (1 - d))) in *.
  assert (HA : 0 < M * m / (1 - 50 / 100))
    by (apply Rdiv_lt_0_compat; [nra | lra]).
  apply Rmult_lt_0_compat; [exact HA|]. nra.
Qed.

Lemma round2_0 : round2 0 = 0.
Proof. rewrite (round2_eval 0 0) by lra. lra. Qed.

Lemma standard_outputs_ordered (U LM : CostPlus) (STD : StdParams) (M C : R) :
  0 < M -> 0 < C -> 0 <= d_max STD <= 1 -> 0 < P_hidden_raw STD M C ->
  let r := computePricingWith U LM STD M C Standard in
  0 <= as_low_as r /\ as_low_as r <= price_new r.
Proof.
  intros HM HC Hd Hp r. unfold r.
  rewrite computePricingWith_ok by assumption.
  cbn [as_low_as price_new price_unrounded as_low_as_unrounded].
  assert (Hmin : 0 < Rmin M (P_hidden_raw STD M C))
    by (apply Rmin_glb_lt; assumption).
  split.
  - rewrite <- round2_0. apply round2_le. nra.
  - apply round2_le. nra.
Qed.

(** X8.  For a standard product the advertised-from price is never
    negative and never above the sale price, in the no-VAT script and
    with the constants of the VAT scripts; for every other regime
    [as_low_as] is 0, whatever the constants. *)
Theorem as_low_as_at_most_price (M C : R) :
  0 < M -> 0 < C ->
  (0 <= as_low_as (NoVat.computePricing M C Standard)
   <= price_new (NoVat.computePricing M C Standard))
  /\ (0 <= as_low_as (MatrixifyRun.computePricing M C Standard)
      <= price_new (MatrixifyRun.computePricing M C Standard))
  /\ (forall U LM STD type, type <> Standard ->
        as_low_as (computePricingWith U LM STD M C type) = 0).
Proof.
  intros HM HC. split; [| split].
  - apply (standard_outputs_ordered NoVat.U NoVat.LM NoVat.STD);
      try assumption; [cbn; lra | now apply NoVat_P_hidden_raw_pos].
  - apply (standard_outputs_ordered MatrixifyRun.U MatrixifyRun.LM
             MatrixifyRun.STD); try assumption; [cbn; lra|].
    now apply Vat_P_hidden_raw_pos.
  - intros U LM STD type Ht. rewrite computePricingWith_ok by assumption.
    cbn [as_low_as]. destruct type; try apply round2_0. now contradiction Ht.
Qed.

Lemma as_low_as_at_most_price_witness :
  0 <= as_low_as (NoVat.computePricing 1000 300 Standard)
  <= price_new (NoVat.computePricing 1000 300 Standard).
Proof.
  apply (as_low_as_at_most_price 1000 300); lra.
Defined.

(** ** The base variant *)

Lemma pick_base_from (l : list Variant) (b0 b : Variant) :
  fold_left pick_base_step l (Some b0) = Some b ->
  (b = b0 /\ forall v, In v l -> pos b0 <= pos v)
  \/ (exists before after,
        l = before ++ b :: after
        /\ pos b < pos b0
        /\ (forall v, In v before -> pos b < pos v)
        /\ (forall v, In v after -> pos b <= pos v)).
Proof.
  revert b0. induction l as [| v l IH]; intros b0 H.
  - cbn in H. injection H as <-. left. split; [reflexivity | intros v []].
  - cbn [fold_left pick_base_step] in H.
    destruct (Rltb (pos v) (pos b0)) eqn:E;
      [apply Rltb_true in E | apply Rltb_false in E];
      destruct (IH _ H) as [[-> Hall] | (bf & af & -> & Hlt & Hbf & Haf)].
    + right. exists [], l. repeat split; try assumption. intros w [].
    + right. exists (v :: bf), af. repeat split; try assumption; try lra.
      intros w [<- | Hw]; [assumption | now apply Hbf].
    + left. split; [reflexivity|]. intros w [<- | Hw]; [assumption | now apply Hall].
    + right. exists (v :: bf), af. repeat split; try assumption.
      intros w [<- | Hw]; [lra | now apply Hbf].
Qed.

Lemma pick_base_some (l : list Variant) (b0 : Variant) :
  exists b, fold_left pick_base_step l (Some b0) = Some b.
Proof.
  revert b0. induction l as [| v l IH]; intros b0; cbn [fold_left].
  - now exists b0.
  - cbn [pick_base_step]. destruct (Rltb (pos v) (pos b0)); apply IH.
Qed.

(** X9.  The base variant is the first variant of smallest position:
    every variant before it has a strictly larger position, every
    variant after it a position at least as large; a product has no
    base variant only when it has no variant. *)
Theorem pick_base_first_minimum (vs : list Variant) :
  (pick_base vs = None <-> vs = [])
  /\ (forall b, pick_base vs = Some b ->
        exists before after,
          vs = before ++ b :: after
          /\ (forall v, In v before -> pos b < pos v)
          /\ (forall v, In v after -> pos b <= pos v)).
Proof.
  unfold pick_base. destruct vs as [| v0 l]; cbn [fold_left pick_base_step].
  - split; [tauto | discriminate].
  - split.
    + split; [| discriminate]. intros H.
      destruct (pick_base_some l v0) as (b & Hb). congruence.
    + intros b H.
      destruct (pick_base_from l v0 b H)
        as [[-> Hall] | (bf & af & -> & Hlt & Hbf & Haf)].
      * exists [], l. repeat split; [intros w [] | assumption].
      * exists (v0 :: bf), af. repeat split; try assumption.
        intros w [<- | Hw]; [assumption | now apply Hbf].
Qed.

Lemma insert_by_position_head (v : Variant) (sorted : list Variant) :
  hd_error (MatrixifyRun.insert_by_position v sorted)
  = pick_base_step (hd_error sorted) v.
Proof.
  destruct sorted as [| w rest]; [reflexivity|].
  cbn [MatrixifyRun.insert_by_position hd_error pick_base_step].
  destruct (Rltb (pos w - pos v) 0) eqn:E1;
    [apply Rltb_true in E1 | apply Rltb_false in E1].
  - assert (E : Rltb (pos v) (pos w) = false) by (apply Rltb_false; lra).
    now rewrite E.
  - destruct (Rgtb (pos w - pos v) 0) eqn:E2;
      [apply Rgtb_true in E2 | apply Rgtb_false in E2].
    + assert (E : Rltb (pos v) (pos w) = true) by (apply Rltb_true; lra).
      now rewrite E.
    + assert (E : Rltb (pos v) (pos w) = false) by (apply Rltb_false; lra).
      now rewrite E.
Qed.

(** X10.  Sorting the variants by position and taking the first, as
    [pickBaseVariant] of [src/matrixify-run.mjs] does, selects the same
    base variant as the [reduce] of the other scripts: the stable sort
    keeps the first of several variants of smallest position in front. *)
Theorem pickBaseVariant_is_pick_base (vs : list Variant) :
  MatrixifyRun.pickBaseVariant vs = pick_base vs.
Proof.
  unfold MatrixifyRun.pickBaseVariant, MatrixifyRun.sort_by_position, pick_base.
  assert (H : forall acc,
            hd_error (fold_left
                        (fun sorted v => MatrixifyRun.insert_by_position v sorted)
                        vs acc)
            = fold_left pick_base_step vs (hd_error acc)).
  { induction vs as [| v vs IH]; intros acc; cbn [fold_left];
      [reflexivity|].
    now rewrite IH, insert_by_position_head. }
  specialize (H []). cbn [hd_error] in H. rewrite <- H.
  now destruct (fold_left _ vs []).
Qed.

(** ** Decisions of the engine *)

Section DecisionFacts.
Variable cfg : ClassifierCfg.
Variables (U LM : CostPlus) (STD : StdParams).
Variable net : R -> R.
Variable p : Product.

Local Notation "'d0'" := (decideWith cfg U LM STD net p).

Lemma regime_typed (t : Regime) :
  includes TYPE_TAGS (regime_name t) = negb (Regime_eqb t Skip).
Proof. now destruct t. Qed.

Lemma missing_skips :
  missingMC d0 = true ->
  desiredType d0 = Skip /\ desiredPriceNew d0 = None
  /\ desiredAsLowAs d0 = None /\ tagDiff d0
     = {| desiredTagsArr := tagsArr p; tags_to_add := [];
          tags_to_remove := []; doTags := false |}
  /\ variantsToUpdate d0 = [] /\ doPrice d0 = false /\ doMetafield d0 = false.
Proof.
  intros Hm.
  assert (Ht : desiredType d0 = Skip) by (now rewrite dec_desiredType, Hm).
  assert (Hty : typed d0 = false) by (unfold typed; now rewrite Hm).
  assert (Hp : pricing d0 = pricing_not_ok) by (now rewrite dec_pricing, Hty).
  assert (Hv : variantsToUpdate d0 = [])
    by (now rewrite dec_variantsToUpdate, Hm).
  repeat split; try assumption.
  - now rewrite dec_desiredPriceNew, Hp.
  - now rewrite dec_desiredAsLowAs, Hp.
  - now rewrite dec_tagDiff, Hty.
  - now rewrite dec_doPrice, Hv.
  - now rewrite dec_doMetafield, Hm.
Qed.

Lemma present_prices :
  missingMC d0 = false ->
  doDraft d0 = false /\ desiredType d0 <> Skip
  /\ 0 < M_used d0 /\ 0 < C_used d0
  /\ desiredPriceNew d0
     = Some (price_new (computePricingWith U LM STD (M_used d0) (C_used d0)
                          (desiredType d0))).
Proof.
  intros Hm.
  assert (HMC : 0 < M_used d0 /\ 0 < C_used d0).
  { rewrite dec_missingMC in Hm. apply negb_false_iff, andb_true_iff in Hm.
    destruct Hm as [H1 H2]. now apply Rgtb_true in H1, H2. }
  destruct HMC as [HM HC].
  assert (Ht : desiredType d0 <> Skip).
  { rewrite dec_desiredType, Hm. intros E.
    apply determineTypeWith_skip in E. lra. }
  assert (Hty : typed d0 = true).
  { unfold typed. rewrite Hm, regime_typed.
    now destruct (desiredType d0). }
  repeat split; try assumption.
  - now rewrite dec_doDraft, Hm.
  - rewrite dec_desiredPriceNew, dec_pricing, Hty.
    now rewrite computePricingWith_ok by assumption.
Qed.

Lemma metafield_only_standard :
  doMetafield d0 = true ->
  desiredType d0 = Standard
  /\ exists a, desiredAsLowAs d0 = Some a /\ 0 < a.
Proof.
  rewrite dec_doMetafield. rewrite !andb_true_iff.
  intros [[[_ Ht] Ha] _].
  split; [now destruct (desiredType d0)|].
  rewrite dec_desiredAsLowAs in Ha |- *.
  destruct (ok (pricing d0) && Regime_eqb (desiredType d0) Standard
            && Rgtb (as_low_as (pricing d0)) 0) eqn:E; [| discriminate Ha].
  eexists. split; [reflexivity|].
  apply andb_true_iff in E. destruct E as [_ E]. now apply Rgtb_true in E.
Qed.

Lemma asLowAs_only_standard :
  desiredType d0 <> Standard -> desiredAsLowAs d0 = None.
Proof.
  intros Ht. rewrite dec_desiredAsLowAs.
  destruct (desiredType d0); try now rewrite andb_false_r.
  now contradiction Ht.
Qed.

(** A variant is scheduled exactly when it has an id and its price,
    read as 0 when missing, is off the target by 0.005 or more. *)
Lemma scheduled_iff (vid : string) :
  In vid (variantsToUpdate d0) <->
  exists x v,
    desiredPriceNew d0 = Some x /\ In v (variants p)
    /\ variantId v = vid /\ vid <> EmptyString
    /\ 5 / 1000 <= Rabs (orElse (price v) 0 - x).
Proof.
  rewrite dec_variantsToUpdate.
  destruct (missingMC d0) eqn:Hm.
  - cbn [negb andb]. split; [intros [] |].
    intros (x & v & Hx & _). destruct (missing_skips Hm) as (_ & Hn & _).
    congruence.
  - cbn [negb andb]. destruct (desiredPriceNew d0) as [x |] eqn:Hx.
    + cbn [not_null]. rewrite in_map_iff. split.
      * intros (v & Hv & Hin). apply filter_In in Hin.
        destruct Hin as [Hin Hn]. unfold needs_price in Hn.
        apply andb_true_iff in Hn. destruct Hn as [Hid Hne].
        apply negb_true_iff in Hne.
        exists x, v. repeat split; try assumption.
        -- intros E. rewrite <- Hv, E in *. rewrite Hv in Hid. subst vid.
           discriminate Hid.
        -- destruct (price v) as [y |]; cbn in Hne |- *;
             now apply Rltb_false in Hne.
      * intros (x' & v & Hx' & Hin & Hv & Hne & Hfar).
        injection Hx' as <-.
        exists v. split; [exact Hv|]. apply filter_In. split; [exact Hin|].
        unfold needs_price. apply andb_true_iff. split.
        -- rewrite Hv. destruct vid; [now contradiction Hne | reflexivity].
        -- apply negb_true_iff.
           destruct (price v) as [y |]; cbn in Hfar |- *;
             now apply Rltb_false.
    + cbn [not_null]. split; [intros [] |].
      intros (x & v & Hx' & _). discriminate Hx'.
Qed.

End DecisionFacts.

(** X11.  Drafting and re-pricing exclude each other, whatever the
    constants.  A product with missing [M] or [C] (one of them not
    above zero) has regime [skip], gets no tag, price or metafield
    change, its tags pass through, and it is drafted unless its status
    is draft already; a product with both has a regime other than
    [skip], is never drafted and always has a target price. *)
Theorem draft_excludes_repricing (cfg : ClassifierCfg) (U LM : CostPlus)
  (STD : StdParams) (net : R -> R) (p : Product) :
  let d := decideWith cfg U LM STD net p in
  (missingMC d = true <-> ~ (0 < M_used d /\ 0 < C_used d))
  /\ (missingMC d = true ->
      desiredType d = Skip /\ doTags (tagDiff d) = false
      /\ desiredTagsArr (tagDiff d) = tagsArr p
      /\ doPrice d = false /\ doMetafield d = false
      /\ desiredPriceNew d = None
      /\ (doDraft d = true <-> toLowerCase (status p) <> "draft"))
  /\ (missingMC d = false ->
      desiredType d <> Skip /\ doDraft d = false
      /\ exists x, desiredPriceNew d = Some x).
Proof.
  intros d. unfold d. split; [| split].
  - rewrite dec_missingMC, negb_true_iff, andb_false_iff.
    rewrite !Rgtb_false. split; [lra|].
    intros H.
    destruct (Rle_or_lt (M_used (decideWith cfg U LM STD net p)) 0)
      as [HM | HM]; [now left|].
    destruct (Rle_or_lt (C_used (decideWith cfg U LM STD net p)) 0)
      as [HC | HC]; [now right|].
    exfalso. apply H. now split.
  - intros Hm.
    destruct (missing_skips cfg U LM STD net p Hm)
      as (Ht & Hn & _ & Htd & _ & Hp & Hmf).
    rewrite Htd. repeat split; try assumption.
    + rewrite dec_doDraft, Hm. cbn [andb]. intros H E.
      rewrite E in H. discriminate H.
    + rewrite dec_doDraft, Hm. cbn [andb]. intros H.
      apply negb_true_iff, String.eqb_neq. exact H.
  - intros Hm.
    destruct (present_prices cfg U LM STD net p Hm) as (Hd & Ht & _ & _ & Hx).
    split; [exact Ht|]. split; [exact Hd | eexists; exact Hx].
Qed.

Lemma draft_excludes_repricing_witness :
  missingMC (NoVat.decide two_variants) = false
  /\ doDraft (NoVat.decide two_variants) = false
  /\ exists x, desiredPriceNew (NoVat.decide two_variants) = Some x.
Proof.
  assert (Hm : missingMC (NoVat.decide two_variants) = false)
    by apply two_variants_decision.
  split; [exact Hm|].
  destruct (draft_excludes_repricing NoVat.classifier NoVat.U NoVat.LM
              NoVat.STD (fun x => x) two_variants) as (_ & _ & H).
  destruct (H Hm) as (_ & Hd & Hx). split; [exact Hd | exact Hx].
Defined.

Lemma mfCell_preserves (p : Product) (d : Decision) :
  desiredAsLowAs d = None -> NoVat.mfCell p d = asLowAsCurrent p.
Proof.
  intros H. unfold NoVat.mfCell. rewrite H. cbn [not_null].
  rewrite andb_false_r.
  destruct (asLowAsCurrent p) as [s | x]; [| reflexivity].
  now destruct s.
Qed.

Lemma NoVat_rows_metafield (p : Product) (d : Decision) :
  (forall rows r, NoVat.only_changes_rows p d = Done rows -> In r rows ->
                  col_Metafield r = NoVat.mfCell p d)
  /\ (forall rows r, NoVat.full_rows p d = Done rows -> In r rows ->
                     col_Metafield r = NoVat.mfCell p d).
Proof.
  split; intros rows r H Hin.
  - unfold NoVat.only_changes_rows in H.
    destruct (truthy _ && negb (Text_truthy _)); [discriminate H|].
    injection H as <-. destruct Hin as [<- | Hin]; [reflexivity|].
    destruct (doPrice d); [| destruct Hin].
    apply in_map_iff in Hin. now destruct Hin as (v & <- & _).
  - unfold NoVat.full_rows in H.
    destruct (truthy _ && negb (Text_truthy _)); [discriminate H|].
    injection H as <-. destruct Hin as [<- | Hin]; [reflexivity|].
    destruct (_ && _ && not_null (desiredPriceNew d)); [| destruct Hin].
    apply in_map_iff in Hin. now destruct Hin as (v & <- & _).
Qed.



Lemma two_variants_reference :
  M_used (NoVat.decide two_variants) = 100
  /\ C_used (NoVat.decide two_variants) = 100.
Proof.
  unfold NoVat.decide.
  set (e := decideWith _ _ _ _ _ two_variants).
  assert (Hb : base e = Some {| variantId := "v1"; pos := 1; price := Some 50;
                                compareAt := Some 100; cost := Some 100 |}).
  { unfold e. rewrite dec_base. unfold pick_base.
    cbn [fold_left pick_base_step variants two_variants pos].
    assert (H : Rltb 2 1 = false) by (apply Rltb_false; lra).
    now rewrite H. }
  assert (Hg : msrpGross e = 100)
    by (unfold e; rewrite dec_msrpGross; fold e; now rewrite Hb).
  assert (H100 : Rgtb 100 0 = true) by (apply Rgtb_true; lra).
  split.
  - unfold e; rewrite dec_M; fold e. now rewrite Hg, H100.
  - unfold e; rewrite dec_C; fold e. now rewrite Hb.
Qed.

Lemma two_variants_in_range : priced_in_range (NoVat.decide two_variants).
Proof.
  intros _. destruct two_variants_reference as [-> ->].
  unfold in_range. lra.
Qed.

(** X13.  For a product whose reference price and cost are between
    one cent and a billion, the only-changes rows name exactly the
    variants whose price is off the target: a non-empty Variant ID
    appears on a row if and only if some variant with that id has a
    price that [approxEqualMoney] tells apart from [price_new]. *)
Theorem rows_name_scheduled_variants (p : Product) (vid : string) :
  priced_in_range (NoVat.decide p) ->
  vid <> EmptyString ->
  exists rows,
    NoVat.only_changes_rows p (NoVat.decide p) = Done rows
    /\ ((exists r, In r rows /\ col_VariantID r = vid) <->
        (exists x v,
           desiredPriceNew (NoVat.decide p) = Some x /\ In v (variants p)
           /\ variantId v = vid
           /\ approxEqualMoney (of_nullable (price v)) (VNum x) = false)).
Proof.
  intros _ Hne.
  set (d := NoVat.decide p).
  assert (Hfar : forall (o : option R) (x : R),
    approxEqualMoney (of_nullable o) (VNum x) = false
    <-> 5 / 1000 <= Rabs (orElse o 0 - x)).
  { intros [y |] x; cbn; apply Rltb_false. }
  assert (Hsched :
    In vid (variantsToUpdate d) <->
    (exists x v, desiredPriceNew d = Some x /\ In v (variants p)
                 /\ variantId v = vid
                 /\ approxEqualMoney (of_nullable (price v)) (VNum x)
                    = false)).
  { unfold d, NoVat.decide. rewrite scheduled_iff.
    split; intros (x & v & H); exists x, v; rewrite Hfar in *; tauto. }
  unfold NoVat.only_changes_rows.
  set (pvid := NoVat.primaryVariantId p d).
  set (flag := doPrice d && truthy pvid && includes (variantsToUpdate d) pvid).
  assert (Hthrow :
    truthy (if flag then pvid else "")
    && negb (Text_truthy (if flag
                          then String_ (of_nullable (desiredPriceNew d))
                          else Lit "")) = false).
  { destruct flag; [| reflexivity].
    now rewrite String_of_nullable_truthy, andb_false_r. }
  rewrite Hthrow. eexists. split; [reflexivity|].
  rewrite <- Hsched. clear Hsched.
  assert (Hdp : doPrice d = (0 <? List.length (variantsToUpdate d))%nat)
    by reflexivity.
  split.
  - intros (r & [<- | Hin] & Hid).
    + cbn [col_VariantID] in Hid. destruct flag eqn:Hf.
      * unfold flag in Hf. apply andb_true_iff in Hf. destruct Hf as [_ Hf].
        apply includes_In in Hf. now rewrite <- Hid.
      * now contradiction Hne.
    + destruct (doPrice d); [| destruct Hin].
      apply in_map_iff in Hin. destruct Hin as (v & <- & Hv).
      cbn [NoVat.secondary_row col_VariantID] in Hid. subst v.
      now apply filter_In in Hv.
  - intros Hin.
    assert (Hp : doPrice d = true).
    { rewrite Hdp. destruct (variantsToUpdate d); [destruct Hin | reflexivity]. }
    assert (Htr : truthy vid = true)
      by (destruct vid; [now contradiction Hne | reflexivity]).
    destruct (String.eqb vid pvid) eqn:E.
    + apply String.eqb_eq in E.
      assert (Hf : flag = true).
      { unfold flag. rewrite Hp, <- E, Htr. now apply includes_In. }
      eexists. split; [now left|]. cbn [col_VariantID]. now rewrite Hf.
    + exists (NoVat.secondary_row p d (NoVat.mfCell p d) vid).
      split; [| reflexivity]. right. rewrite Hp.
      apply in_map, filter_In. split; [exact Hin|].
      now rewrite Htr, E.
Qed.

Lemma rows_name_scheduled_variants_witness :
  exists rows,
    NoVat.only_changes_rows two_variants (NoVat.decide two_variants)
    = Done rows
    /\ exists r, In r rows /\ col_VariantID r = "v2".
Proof.
  destruct (rows_name_scheduled_variants two_variants "v2"
              two_variants_in_range ltac:(discriminate))
    as (rows & H & Hiff).
  exists rows. split; [exact H|]. apply Hiff.
  destruct two_variants_decision as (_ & _ & _ & Hx & _).
  exists 100, {| variantId := "v2"; pos := 2; price := Some 60;
                 compareAt := Some 100; cost := Some 100 |}.
  repeat split; [exact Hx | simpl; tauto |].
  cbn [of_nullable price]. apply approxEqualMoney_far. lra.
Defined.

(** ** The output of the main loop *)

Lemma NoVat_run_output (products : list Product) (st : NoVat.State) :
  exists st',
    NoVat.run st products = Done st'
    /\ NoVat.importOnlyChangesRows st'
       = NoVat.importOnlyChangesRows st
         ++ flat_map (fun p => rows_of (NoVat.only_changes_rows p (NoVat.decide p)))
              (filter changes products)
    /\ NoVat.importFullRows st'
       = NoVat.importFullRows st
         ++ flat_map (fun p => rows_of (NoVat.full_rows p (NoVat.decide p)))
              (filter (fun p => negb (hasCnfdnt (tagsArr p))) products)
    /\ map NoVat.ci_productId (NoVat.changeItems st')
       = map NoVat.ci_productId (NoVat.changeItems st)
         ++ map productId (filter changes products)
    /\ NoVat.cnfdntIgnored st'
       = (NoVat.cnfdntIgnored st
          + List.length (filter (fun p => hasCnfdnt (tagsArr p)) products))%nat.
Proof.
  revert st. induction products as [| p rest IH]; intros st.
  - exists st. cbn. rewrite !app_nil_r. repeat split. lia.
  - cbn [NoVat.run]. unfold NoVat.step.
    cbn [filter].
    assert (Hc : changes p = negb (hasCnfdnt (tagsArr p))
                             && needsChange (NoVat.decide p)) by reflexivity.
    rewrite Hc. clear Hc.
    destruct (hasCnfdnt (tagsArr p)) eqn:Ec; cbn [bind negb andb].
    + destruct (IH {| NoVat.importFullRows := NoVat.importFullRows st;
                      NoVat.importOnlyChangesRows := NoVat.importOnlyChangesRows st;
                      NoVat.changeItems := NoVat.changeItems st;
                      NoVat.drafted := NoVat.drafted st;
                      NoVat.cnfdntIgnored := S (NoVat.cnfdntIgnored st) |})
        as (st' & Hr & H1 & H2 & H3 & H4).
      exists st'. cbn in H1, H2, H3, H4.
      repeat split; try assumption. cbn [List.length]. lia.
    + destruct (NoVat_full_rows_done p (NoVat.decide p)) as (full & Ef & _).
      rewrite Ef. cbn [bind rows_of].
      destruct (needsChange (NoVat.decide p)) eqn:En; cbn [negb].
      * destruct (NoVat_only_changes_rows_done p (NoVat.decide p))
          as (only & Eo & _).
        rewrite Eo. cbn [bind rows_of].
        match goal with
        | |- exists st', NoVat.run ?s rest = _ /\ _ =>
            destruct (IH s) as (st' & Hr & H1 & H2 & H3 & H4)
        end.
        exists st'. cbn in H1, H2, H3, H4. cbn [flat_map map rows_of].
        rewrite Eo, Ef. cbn [rows_of].
        rewrite H1, H2, H3, H4, <- !app_assoc, map_app. cbn [map app].
        rewrite <- app_assoc. repeat split; try assumption.
      * cbn [bind].
        match goal with
        | |- exists st', NoVat.run ?s rest = _ /\ _ =>
            destruct (IH s) as (st' & Hr & H1 & H2 & H3 & H4)
        end.
        exists st'. cbn in H1, H2, H3, H4. cbn [flat_map rows_of].
        rewrite Ef. cbn [rows_of].
        rewrite H1, H2, H3, H4, <- !app_assoc. repeat split; try assumption.
Qed.

(** X14.  The loop of [main] writes the files product by product in
    first-encounter order: the only-changes file holds the rows of the
    products that need a change and are not tagged CNFDNT, the full file
    the rows of every product not tagged CNFDNT, and [changeItems] lists
    the changed products in the same order.  A product that needs no
    change, or is tagged CNFDNT, adds no only-changes row. *)
Theorem main_loop_output (products : list Product) :
  exists st,
    NoVat.main_loop products = Done st
    /\ NoVat.importOnlyChangesRows st
       = flat_map (fun p => rows_of (NoVat.only_changes_rows p (NoVat.decide p)))
           (filter changes products)
    /\ NoVat.importFullRows st
       = flat_map (fun p => rows_of (NoVat.full_rows p (NoVat.decide p)))
           (filter (fun p => negb (hasCnfdnt (tagsArr p))) products)
    /\ map NoVat.ci_productId (NoVat.changeItems st)
       = map productId (filter changes products)
    /\ NoVat.cnfdntIgnored st
       = List.length (filter (fun p => hasCnfdnt (tagsArr p)) products).
Proof.
  destruct (NoVat_run_output products NoVat.init) as (st & H & H1 & H2 & H3 & H4).
  exists st. cbn in H1, H2, H3, H4. repeat split; assumption.
Qed.

(** ** The VAT predecessor names a variant without a price *)

Lemma Vat_pricing_LM_diag_100 :
  Vat.computePricing 100 100 LowMargin
  = {| ok := true; price_new := 100; as_low_as := 0 |}.
Proof.
  unfold Vat.computePricing. rewrite computePricingWith_ok by lra.
  cbn [price_unrounded as_low_as_unrounded].
  assert (Hraw : 100 <= price_raw Vat.LM 100 100).
  { unfold price_raw. cbn [alpha beta gamma N_ Vat.LM].
    replace (100 / 100) with 1 by lra. rewrite Math_log10_1.
    pose proof (sM_bounds Vat.LM 100) as [Hs _].
    set (s := sM Vat.LM 100) in *. nra. }
  rewrite Rmin_left by exact Hraw.
  rewrite (round2_eval 100 10000) by lra. rewrite round2_0.
  f_equal; lra.
Qed.

Lemma tag_only_decision :
  let d := Vat.decide tag_only in
  needsChange d = true /\ doTags (tagDiff d) = true
  /\ doDraft d = false /\ doPrice d = false /\ variantsToUpdate d = []
  /\ doMetafield d = false /\ Vat.primaryVariantId tag_only d = "v5".
Proof.
  intros d. unfold d, Vat.decide.
  set (e := decideWith _ _ _ _ _ tag_only).
  assert (Hb : base e = Some {| variantId := "v5"; pos := 1; price := Some 100;
                                compareAt := Some 120; cost := Some 100 |})
    by reflexivity.
  assert (Hg : msrpGross e = 120)
    by (unfold e; rewrite dec_msrpGross; fold e; now rewrite Hb).
  assert (H120 : Rgtb 120 0 = true) by (apply Rgtb_true; lra).
  assert (H100 : Rgtb 100 0 = true) by (apply Rgtb_true; lra).
  assert (HM : M_used e = 100).
  { unfold e; rewrite dec_M; fold e. rewrite Hg, H120.
    unfold Vat.T_VAT. lra. }
  assert (HC : C_used e = 100)
    by (unfold e; rewrite dec_C; fold e; now rewrite Hb).
  assert (Hm : missingMC e = false)
    by (unfold e; rewrite dec_missingMC; fold e; now rewrite HM, HC, H100).
  assert (Ht : desiredType e = LowMargin).
  { unfold e; rewrite dec_desiredType; fold e. rewrite Hm, HM, HC.
    apply determineTypeWith_low_margin.
    rewrite Vat_margin_closed_form. repeat split; try lra. }
  assert (Hty : typed e = true) by (unfold typed; now rewrite Hm, Ht).
  assert (Hp : pricing e = {| ok := true; price_new := 100; as_low_as := 0 |}).
  { unfold e; rewrite dec_pricing; fold e. rewrite Hty, HM, HC, Ht.
    apply Vat_pricing_LM_diag_100. }
  assert (Hpn : desiredPriceNew e = Some 100)
    by (unfold e; rewrite dec_desiredPriceNew; fold e; now rewrite Hp).
  assert (Htd : tagDiff e = computeTagDiff ["Sale"] "low-margin")
    by (unfold e; rewrite dec_tagDiff; fold e; now rewrite Hty, Ht).
  assert (Hv : variantsToUpdate e = []).
  { unfold e; rewrite dec_variantsToUpdate; fold e. rewrite Hm, Hpn.
    cbn [negb andb not_null variants tag_only filter needs_price
         variantId price of_nullable truthy].
    now rewrite approxEqualMoney_refl. }
  assert (Hdp : doPrice e = false)
    by (unfold e; rewrite dec_doPrice; fold e; now rewrite Hv).
  assert (Hdm : doMetafield e = false)
    by (unfold e; rewrite dec_doMetafield; fold e; now rewrite Hm, Ht).
  assert (Hdd : doDraft e = false)
    by (unfold e; rewrite dec_doDraft; fold e; now rewrite Hm).
  assert (Hdt : doTags (tagDiff e) = true) by now rewrite Htd.
  assert (Hn : needsChange e = true)
    by (unfold e; rewrite dec_needsChange; fold e; now rewrite Hdd, Hdt).
  assert (Hpv : Vat.primaryVariantId tag_only e = "v5")
    by (unfold Vat.primaryVariantId; now rewrite Hb).
  repeat split; assumption.
Qed.

(** X15.  In the VAT predecessor the primary row of a changed product
    always names the primary variant: when that variant needs no price
    update the row carries its id with an empty Variant Command and an
    empty Variant Price, which is the structure the later script rules
    out. *)
Theorem Vat_primary_row_without_price (p : Product) :
  let d := Vat.decide p in
  needsChange d = true ->
  Vat.primaryVariantId p d <> EmptyString ->
  ~ In (Vat.primaryVariantId p d) (variantsToUpdate d) ->
  exists primary rest,
    Vat.rows p = primary :: rest
    /\ col_VariantID primary = Vat.primaryVariantId p d
    /\ col_VariantCommand primary = EmptyString
    /\ col_VariantPrice primary = Lit EmptyString
    /\ ~ row_ok primary.
Proof.
  intros d Hn Hne Hnot. unfold Vat.rows. fold d. rewrite Hn. cbn [negb].
  unfold Vat.only_changes_rows.
  assert (Hf : doPrice d && truthy (Vat.primaryVariantId p d)
               && includes (variantsToUpdate d) (Vat.primaryVariantId p d)
               = false).
  { apply andb_false_iff. right. now apply includes_false. }
  rewrite Hf. do 2 eexists. split; [reflexivity|].
  cbn [col_VariantID col_VariantCommand col_VariantPrice].
  repeat split. unfold row_ok. cbn [col_VariantID col_VariantPrice].
  intros H. destruct (Vat.primaryVariantId p d); [now contradiction Hne|].
  specialize (H eq_refl). discriminate H.
Qed.

Lemma Vat_primary_row_without_price_witness :
  exists primary rest,
    Vat.rows tag_only = primary :: rest
    /\ col_VariantID primary = "v5"
    /\ col_VariantPrice primary = Lit EmptyString.
Proof.
  destruct tag_only_decision as (Hn & _ & _ & _ & Hv & _ & Hp).
  destruct (Vat_primary_row_without_price tag_only)
    as (primary & rest & H1 & H2 & _ & H4 & _).
  - exact Hn.
  - rewrite Hp. discriminate.
  - rewrite Hv. intros [].
  - exists primary, rest. rewrite Hp in H2. repeat split; assumption.
Defined.

(** ** [src/matrixify-run.mjs]: the row builders *)

Lemma approxEqualMoney_nullable (a b : option R) :
  approxEqualMoney (of_nullable a) (of_nullable b)
  = MatrixifyMain.approxEqualMoney (MatrixifyMain.finite a)
      (MatrixifyMain.finite b).
Proof. destruct a, b; reflexivity. Qed.

Lemma round2_pos_cent (y : R) : 0 < round2 y -> 1 / 100 <= round2 y.
Proof.
  unfold round2, Math_round. set (z := Zfloor (y * 100 + / 2)). intros H.
  assert (H0 : 0 < IZR z) by lra.
  apply lt_IZR in H0.
  assert (H1 : IZR 1 <= IZR z) by (apply IZR_le; lia).
  lra.
Qed.

Lemma cell_number_cases (s : string) :
  (toNumberOrNull (VStr s) = Some 0
   /\ MatrixifyRun.toNumberOrNull (VStr s) = None)
  \/ MatrixifyRun.toNumberOrNull (VStr s) = toNumberOrNull (VStr s).
Proof.
  unfold MatrixifyRun.toNumberOrNull, toNumberOrNull.
  cbn [nullish VStr String_ Text_trim Text_truthy Text_replace_comma Number_].
  destruct (trim s) eqn:E.
  - left. cbn [truthy negb]. split; [| reflexivity].
    unfold Number_of_string. rewrite trim_replace_comma, E. reflexivity.
  - right. cbn [truthy negb]. rewrite <- E, <- trim_replace_comma.
    now rewrite Number_of_string_trim.
Qed.

(** With a new value of at least one cent, the two tests of the
    current metafield value agree: a blank or zero current value is
    always replaced. *)

(** With a new value of at least one cent, the two tests of the
    current metafield value agree: a blank or zero current value is
    always replaced. *)
Lemma metafield_tests_agree (raw : string) (x : R) :
  1 / 100 <= x ->
  MatrixifyMain.falsy_number (MatrixifyRun.toNumberOrNull (VStr raw))
  || negb (MatrixifyMain.approxEqualMoney
             (MatrixifyMain.finite (MatrixifyRun.toNumberOrNull (VStr raw)))
             (Some (Fin x)))
  = negb (not_null (toNumberOrNull (VStr raw))
          && approxEqualMoney (of_nullable (toNumberOrNull (VStr raw)))
                              (of_nullable (Some x))).
Proof.
  intros Hx.
  assert (Hfar : Rltb (Rabs (0 - x)) (5 / 1000) = false).
  { apply Rltb_false. rewrite Rabs_left; lra. }
  destruct (cell_number_cases raw) as [[H1 H2] | H].
  - rewrite H1, H2.
    cbn [MatrixifyMain.falsy_number orb not_null andb of_nullable].
    rewrite approxEqualMoney_num, Hfar. reflexivity.
  - rewrite H. destruct (toNumberOrNull (VStr raw)) as [y |];
      [| reflexivity].
    cbn [MatrixifyMain.falsy_number not_null andb of_nullable].
    rewrite approxEqualMoney_num.
    unfold MatrixifyMain.approxEqualMoney, MatrixifyMain.finite.
    cbn [option_map MatrixifyMain.Number_of_nullable
         MatrixifyMain.Number_isFinite negb orb].
    destruct (Rltb y 0) eqn:E1; [reflexivity|].
    destruct (Rgtb y 0) eqn:E2; [reflexivity|].
    apply Rltb_false in E1. apply Rgtb_false in E2.
    assert (y = 0) by lra. subst y. now rewrite Hfar.
Qed.

Lemma metafield_guard_agree (g : bool) (raw : string) (al : option R) :
  (forall x, al = Some x -> 1 / 100 <= x) ->
  g && not_null al
  && (MatrixifyMain.falsy_number (MatrixifyRun.toNumberOrNull (VStr raw))
      || negb (MatrixifyMain.approxEqualMoney
                 (MatrixifyMain.finite
                    (MatrixifyRun.toNumberOrNull (VStr raw)))
                 (MatrixifyMain.finite al)))
  = g && not_null al
    && negb (not_null (toNumberOrNull (VText (Lit raw)))
             && approxEqualMoney
                  (of_nullable (toNumberOrNull (VText (Lit raw))))
                  (of_nullable al)).
Proof.
  intros H. destruct al as [x |]; [| now rewrite !andb_false_r].
  cbn [MatrixifyMain.finite option_map not_null].
  f_equal. apply metafield_tests_agree. now apply H.
Qed.

Import MatrixifyMain.

(** The variant updates of [main] name a variant and carry the target
    price. *)
Lemma decide_updates (p : MProduct) (vu : VariantUpdate) :
  In vu (c_variantUpdates (decide p)) ->
  vu_variantId vu <> EmptyString
  /\ vu_priceNew vu = c_priceNew (decide p)
  /\ non_null (vu_priceNew vu) = true.
Proof.
  unfold decide. cbv zeta. cbn [c_variantUpdates c_priceNew].
  set (pn := if ok _ then Some _ else None).
  destruct (negb _ && non_null pn) eqn:E; [| intros []].
  apply andb_true_iff in E. destruct E as [_ E].
  rewrite in_map_iff. intros (v & <- & Hv). cbn [vu_variantId vu_priceNew].
  apply filter_In in Hv. destruct Hv as [_ Hv].
  apply andb_true_iff in Hv. destruct Hv as [Hv _].
  split; [| split; [reflexivity | exact E]].
  intros H. rewrite H in Hv. discriminate Hv.
Qed.

(** The price cell is empty exactly for a price that is not finite. *)
Lemma fmt2_empty (n : JSNumber) :
  Cell_empty (fmt2 (Some n)) = true <-> n = NotFinite.
Proof. destruct n; cbn; split; intros H; try reflexivity; discriminate H. Qed.

(** X16.  [buildOnlyChangesRows] returns at least one row, one per
    variant update or a single product row; only the first row carries
    the product fields, every later row has empty Tags, Tags Command,
    Status and metafield.  Without updates the row names no variant;
    otherwise each row names the variant of its update with the UPDATE
    command and the price cell [fmt2(priceNew)], which is empty exactly
    when the price is not a finite number; every update [main] builds
    names a variant and carries the target price. *)
Theorem buildOnlyChangesRows_shape (p : MProduct) (computed : Computed) :
  exists first rest,
    buildOnlyChangesRows p computed = first :: rest
    /\ List.length (first :: rest)
       = Nat.max 1 (List.length (c_variantUpdates computed))
    /\ (forall r, In r rest -> product_fields_empty r)
    /\ (forall r, In r (first :: rest) ->
          mr_ID r = m_id p /\ mr_Command r = "UPDATE")
    /\ (c_variantUpdates computed = [] ->
        rest = [] /\ variant_columns first = ("", "", CLit ""))
    /\ (c_variantUpdates computed <> [] ->
        map variant_columns (first :: rest)
        = map (fun vu => (vu_variantId vu, "UPDATE", fmt2 (vu_priceNew vu)))
              (c_variantUpdates computed))
    /\ (forall n, Cell_empty (fmt2 (Some n)) = true <-> n = NotFinite)
    /\ (forall vu, In vu (c_variantUpdates (decide p)) ->
          vu_variantId vu <> EmptyString
          /\ vu_priceNew vu = c_priceNew (decide p)
          /\ non_null (vu_priceNew vu) = true).
Proof.
  unfold buildOnlyChangesRows.
  destruct (c_variantUpdates computed) as [| vu vus] eqn:E;
    cbn [List.length Nat.ltb Nat.leb on_first].
  - do 2 eexists. split; [reflexivity|].
    split; [reflexivity|]. split; [intros r []|].
    split; [intros r [<- | []]; now split|].
    split; [intros _; now split|].
    split; [intros H; now contradiction H|].
    split; [exact fmt2_empty | exact (decide_updates p)].
  - do 2 eexists. split; [reflexivity|].
    split; [cbn [List.length]; rewrite length_map; lia|].
    split.
    { intros r Hr. apply in_map_iff in Hr. destruct Hr as (x & <- & _).
      repeat split. }
    split.
    { intros r [<- | Hr]; [now split|].
      apply in_map_iff in Hr. destruct Hr as (x & <- & _). now split. }
    split; [intros H; discriminate H|].
    split.
    { intros _. cbn [map]. f_equal. rewrite map_map. reflexivity. }
    split; [exact fmt2_empty | exact (decide_updates p)].
Qed.

Lemma insert_by_position_length (v : Variant) (l : list Variant) :
  List.length (MatrixifyRun.insert_by_position v l) = S (List.length l).
Proof.
  induction l as [| w l IH]; [reflexivity|].
  cbn [MatrixifyRun.insert_by_position].
  destruct (Rltb _ 0); [cbn [List.length]; now rewrite IH|].
  destruct (Rgtb _ 0); [reflexivity | cbn [List.length]; now rewrite IH].
Qed.

Lemma insert_by_position_In (v u : Variant) (l : list Variant) :
  In u (MatrixifyRun.insert_by_position v l) <-> u = v \/ In u l.
Proof.
  induction l as [| w l IH]; [cbn; intuition|].
  cbn [MatrixifyRun.insert_by_position].
  destruct (Rltb _ 0); [cbn [In]; rewrite IH; intuition|].
  destruct (Rgtb _ 0); cbn [In]; [intuition | rewrite IH; intuition].
Qed.

Lemma sort_by_position_facts (l : list Variant) :
  List.length (MatrixifyRun.sort_by_position l) = List.length l
  /\ forall u, In u (MatrixifyRun.sort_by_position l) <-> In u l.
Proof.
  unfold MatrixifyRun.sort_by_position.
  assert (H : forall acc,
    List.length (fold_left (fun s v => MatrixifyRun.insert_by_position v s) l acc)
    = (List.length acc + List.length l)%nat
    /\ forall u, In u (fold_left (fun s v => MatrixifyRun.insert_by_position v s)
                         l acc)
                 <-> In u acc \/ In u l).
  { induction l as [| v l IH]; intros acc; cbn [fold_left].
    - split; [cbn; lia | cbn; intuition].
    - destruct (IH (MatrixifyRun.insert_by_position v acc)) as [H1 H2].
      split.
      + rewrite H1, insert_by_position_length. cbn [List.length]. lia.
      + intros u. rewrite H2, insert_by_position_In. cbn [In]. intuition. }
  destruct (H []) as [H1 H2]. split; [exact H1|].
  intros u. rewrite H2. cbn [In]. intuition.
Qed.


(** X17.  [buildFullFixedRows] returns one row per variant that has an
    id, or a single product row when there is none; only the first row
    carries the product fields.  When there is a target price and the
    product has a type regime, the rows name the variants in the order
    of their positions, each with the UPDATE command and the price cell
    [fmt2(priceNew)], which is empty exactly when the price is not a
    finite number; otherwise no row names a variant. *)
Theorem buildFullFixedRows_shape (p : MProduct) (computed : Computed) :
  let vars := filter (fun v => truthy (variantId v)) (m_variants p) in
  let writes := non_null (c_priceNew computed) && c_canPriceWrite computed in
  exists first rest,
    buildFullFixedRows p computed = first :: rest
    /\ List.length (first :: rest) = Nat.max 1 (List.length vars)
    /\ (forall r, In r rest -> product_fields_empty r)
    /\ (forall r, In r (first :: rest) ->
          mr_ID r = m_id p /\ mr_Command r = "UPDATE")
    /\ (vars <> [] -> writes = true ->
        map variant_columns (first :: rest)
        = map (fun v => (variantId v, "UPDATE", fmt2 (c_priceNew computed)))
              (MatrixifyRun.sort_by_position vars))
    /\ (vars = [] \/ writes = false ->
        forall r, In r (first :: rest) ->
                  variant_columns r = ("", "", CLit ""))
    /\ (forall n, Cell_empty (fmt2 (Some n)) = true <-> n = NotFinite).
Proof.
  intros vars writes. unfold buildFullFixedRows. fold vars. fold writes.
  destruct (sort_by_position_facts vars) as [Hlen Hin].
  destruct (List.length vars =? 0)%nat eqn:E.
  - apply Nat.eqb_eq in E. rewrite E.
    do 2 eexists. split; [reflexivity|].
    split; [reflexivity|]. split; [intros r []|].
    split; [intros r [<- | []]; now split|].
    split.
    { intros Hne. destruct vars; [now contradiction Hne | discriminate E]. }
    split; [| exact fmt2_empty].
    intros _ r [<- | []]. reflexivity.
  - apply Nat.eqb_neq in E.
    destruct (MatrixifyRun.sort_by_position vars) as [| v vs] eqn:Es;
      [cbn in Hlen; lia|].
    cbn [on_first]. do 2 eexists. split; [reflexivity|].
    split; [cbn [List.length] in *; rewrite length_map; lia|].
    split.
    { intros r Hr. apply in_map_iff in Hr. destruct Hr as (x & <- & _).
      destruct writes; repeat split. }
    split.
    { intros r [<- | Hr].
      - destruct writes; now split.
      - apply in_map_iff in Hr. destruct Hr as (x & <- & _).
        destruct writes; now split. }
    split.
    { intros _ ->. cbn [map]. f_equal. rewrite map_map. reflexivity. }
    split; [| exact fmt2_empty].
    intros [Hv | ->].
    + rewrite Hv in E. now contradiction E.
    + intros r [<- | Hr]; [reflexivity|].
      apply in_map_iff in Hr. now destruct Hr as (x & <- & _).
Qed.

Lemma sorted_head_pick_base (vs : list Variant) :
  MatrixifyRun.pickBaseVariant vs = pick_base vs.
Proof.
  unfold MatrixifyRun.pickBaseVariant, MatrixifyRun.sort_by_position, pick_base.
  assert (H : forall acc,
            hd_error (fold_left
                        (fun sorted v => MatrixifyRun.insert_by_position v sorted)
                        vs acc)
            = fold_left pick_base_step vs (hd_error acc)).
  { induction vs as [| v vs IH]; intros acc; cbn [fold_left];
      [reflexivity|].
    now rewrite IH, insert_by_position_head. }
  specialize (H []). cbn [hd_error] in H. rewrite <- H.
  now destruct (fold_left _ vs []).
Qed.


(** X18.  On the same parsed product, the loop body of [main] in
    [src/matrixify-run.mjs] decides what the VAT script decides: the
    same type, reference price and cost, draft flag and tag
    operations, although it picks the base variant by sorting and
    reconciles the tags with [computeTagOps]; and, for a product
    priced between one cent and a billion, the same target price and
    as-low-as value, the same variants to reprice, metafield flag and
    change flag, although it tests the current metafield value by
    truthiness and compares prices behind a finiteness guard. *)
Theorem matrixify_run_decides_as_Vat (p : MProduct) :
  let c := decide p in
  let d := Vat.decide (to_product p) in
  c_type c = desiredType d /\ c_M_net c = M_used d /\ c_C_net c = C_used d
  /\ c_doDraft c = doDraft d
  /\ c_doTags c = doTags (tagDiff d)
  /\ c_tags_to_add c = tags_to_add (tagDiff d)
  /\ c_tags_to_remove c = tags_to_remove (tagDiff d)
  /\ c_desiredTags c = desiredTagsArr (tagDiff d)
  /\ (priced_in_range d ->
      c_priceNew c = finite (desiredPriceNew d)
      /\ c_asLowAsNew c = finite (desiredAsLowAs d)
      /\ map vu_variantId (c_variantUpdates c) = variantsToUpdate d
      /\ c_doMetafield c = doMetafield d
      /\ c_needsChange c = needsChange d).
Proof.
  intros c d. unfold c, d, decide, Vat.decide, decideWith. cbv zeta.
  cbn [c_type c_M_net c_C_net c_doDraft c_doTags c_tags_to_add
       c_tags_to_remove c_desiredTags c_variantUpdates c_priceNew
       c_asLowAsNew c_doMetafield c_needsChange
       desiredType M_used C_used doDraft tagDiff variantsToUpdate
       desiredPriceNew desiredAsLowAs doMetafield needsChange
       to_product variants status tagsArr asLowAsCurrent].
  rewrite sorted_head_pick_base.
  set (mg := match pick_base (m_variants p) with
             | Some b => compareAt b | None => None end).
  set (cn := orElse (match pick_base (m_variants p) with
                     | Some b => cost b | None => None end) 0).
  assert (HM : match mg with
               | Some g => if Rgtb g 0 then g / (1 + MatrixifyRun.T_VAT) else 0
               | None => 0
               end
               = if Rgtb (orElse mg 0) 0 then orElse mg 0 / (1 + Vat.T_VAT)
                 else 0).
  { destruct mg as [g |]; cbn [orElse]; [reflexivity|].
    assert (E : Rgtb 0 0 = false) by (apply Rgtb_false; lra).
    now rewrite E. }
  rewrite HM. clear HM.
  set (M := if Rgtb (orElse mg 0) 0 then _ else 0).
  set (mis := negb (Rgtb M 0 && Rgtb cn 0)).
  change MatrixifyRun.determineTypeArigato with (determineTypeWith Vat.classifier).
  set (ty := if mis then Skip else _).
  change (MatrixifyRun.computePricing M cn ty)
    with (computePricingWith Vat.U Vat.LM Vat.STD M cn ty).
  change ["used"; "standard"; "low-margin"] with TYPE_TAGS.
  set (typed := negb mis && includes TYPE_TAGS (regime_name ty)).
  set (pr := if typed then _ else pricing_not_ok).
  set (pn := if ok pr then Some (price_new pr) else None).
  set (al := if ok pr && Regime_eqb ty Standard && Rgtb (as_low_as pr) 0
             then Some (as_low_as pr) else None).
  assert (Hpn : (if ok pr then Some (Fin (price_new pr)) else None)
                = finite pn) by (unfold pn; now destruct (ok pr)).
  assert (Hal' : (if ok pr && Regime_eqb ty Standard
                     && Rgtb (as_low_as pr) 0
                  then Some (Fin (as_low_as pr)) else None) = finite al)
    by (unfold al; now destruct (_ && _ && _)).
  rewrite Hpn, Hal'. clear Hpn Hal'.
  assert (Hnn : forall o : option R, non_null (finite o) = not_null o)
    by (intros [x |]; reflexivity).
  rewrite !Hnn.
  assert (Htag : (if typed
                  then computeTagOps (splitTags (m_tagsRaw p)) (regime_name ty)
                  else {| desiredTagsArr := splitTags (m_tagsRaw p);
                          tags_to_add := []; tags_to_remove := [];
                          doTags := false |})
                 = (if typed
                    then computeTagDiff (splitTags (m_tagsRaw p))
                           (regime_name ty)
                    else {| desiredTagsArr := splitTags (m_tagsRaw p);
                            tags_to_add := []; tags_to_remove := [];
                            doTags := false |})).
  { destruct typed eqn:E; [| reflexivity].
    apply computeTagOps_typed.
    unfold typed in E. apply andb_true_iff in E. destruct E as [_ E].
    clearbody ty. destruct ty; cbn; auto. discriminate E. }
  rewrite Htag. clear Htag.
  assert (Hvu : map vu_variantId
                  (if negb mis && not_null pn
                   then map (fun v : Variant =>
                               {| vu_variantId := variantId v;
                                  vu_priceNew := finite pn |})
                          (filter (fun v : Variant =>
                                     truthy (variantId v)
                                     && negb (approxEqualMoney
                                                (finite (price v))
                                                (finite pn)))
                                  (m_variants p))
                   else [])
                = (if negb mis && not_null pn
                   then map variantId (filter (needs_price pn) (m_variants p))
                   else [])).
  { destruct (negb mis && not_null pn); [| reflexivity].
    rewrite map_map. cbn [vu_variantId]. f_equal.
    apply filter_ext. intros v. unfold needs_price.
    now rewrite approxEqualMoney_nullable. }
  assert (Hlen : forall l : list VariantUpdate,
            List.length l = List.length (map vu_variantId l))
    by (intros l; now rewrite length_map).
  rewrite (Hlen (if negb mis && not_null pn then _ else [])), Hvu.
  clear Hlen Hvu.
  assert (Hal : forall x, al = Some x -> 1 / 100 <= x).
  { intros x Eal. unfold al in Eal.
    destruct (ok pr && Regime_eqb ty Standard && Rgtb (as_low_as pr) 0)
      eqn:E; [| discriminate Eal].
    injection Eal as <-.
    apply andb_true_iff in E. destruct E as [_ E]. apply Rgtb_true in E.
    revert E. unfold pr. destruct typed; [| cbn; lra].
    unfold computePricingWith.
    destruct (negb (Rgtb M 0) || negb (Rgtb cn 0)); [cbn; lra|].
    cbn [as_low_as]. apply round2_pos_cent. }
  rewrite (metafield_guard_agree (negb mis && Regime_eqb ty Standard)
             (m_asLowAsRaw p) al Hal).
  repeat split.
Qed.

Lemma one_variant_in_range :
  priced_in_range (Vat.decide (to_product one_variant)).
Proof.
  intros _. unfold Vat.decide.
  set (e := decideWith _ _ _ _ _ (to_product one_variant)).
  assert (Hb : base e = Some {| variantId := "v1"; pos := 1; price := Some 50;
                                compareAt := Some 120; cost := Some 60 |})
    by reflexivity.
  assert (Hg : msrpGross e = 120)
    by (unfold e; rewrite dec_msrpGross; fold e; now rewrite Hb).
  assert (H120 : Rgtb 120 0 = true) by (apply Rgtb_true; lra).
  assert (HM : M_used e = 120 / (1 + Vat.T_VAT))
    by (unfold e; rewrite dec_M; fold e; now rewrite Hg, H120).
  assert (HC : C_used e = 60)
    by (unfold e; rewrite dec_C; fold e; now rewrite Hb).
  rewrite HM, HC. unfold in_range, Vat.T_VAT. lra.
Qed.

Lemma matrixify_run_decides_as_Vat_witness :
  let c := decide one_variant in
  let d := Vat.decide (to_product one_variant) in
  c_priceNew c = finite (desiredPriceNew d)
  /\ map vu_variantId (c_variantUpdates c) = variantsToUpdate d
  /\ c_needsChange c = needsChange d.
Proof.
  pose proof (matrixify_run_decides_as_Vat one_variant) as H.
  cbv zeta in H. destruct H as (_ & _ & _ & _ & _ & _ & _ & _ & H).
  destruct (H one_variant_in_range) as (Hp & _ & Hv & _ & Hn).
  cbv zeta. repeat split; assumption.
Defined.

(** ** The tag helpers of the dependency-free CSV processor *)

Lemma sort_length (l : list string) :
  List.length (ProcessorTags.sort l) = List.length l.
Proof.
  assert (H : forall x s, List.length (ProcessorTags.insert_sorted x s)
                          = S (List.length s)).
  { intros x s. induction s as [| y s IH]; [reflexivity|].
    cbn [ProcessorTags.insert_sorted]. destruct (String.leb x y);
      cbn [List.length]; [reflexivity | now rewrite IH]. }
  induction l as [| x l IH]; [reflexivity|].
  cbn [ProcessorTags.sort fold_right]. fold (ProcessorTags.sort l).
  now rewrite H, IH.
Qed.

Lemma sort_In (l : list string) (x : string) :
  In x (ProcessorTags.sort l) <-> In x l.
Proof.
  assert (H : forall y s, In x (ProcessorTags.insert_sorted y s)
                          <-> y = x \/ In x s).
  { intros y s. induction s as [| z s IH]; [cbn; tauto|].
    cbn [ProcessorTags.insert_sorted]. destruct (String.leb y z);
      cbn [In]; [tauto | rewrite IH; tauto]. }
  induction l as [| y l IH]; [cbn; tauto|].
  cbn [ProcessorTags.sort fold_right]. fold (ProcessorTags.sort l).
  rewrite H, IH. cbn [In]. tauto.
Qed.

Lemma filter_drops (A : Type) (f : A -> bool) (l : list A) (x : A) :
  In x l -> f x = false -> (List.length (filter f l) < List.length l)%nat.
Proof.
  intros Hin Hf. induction l as [| y l IH]; [destruct Hin|].
  pose proof (filter_length_le f l) as Hle.
  cbn [filter]. destruct Hin as [-> | Hin].
  - rewrite Hf. cbn [List.length]. lia.
  - specialize (IH Hin). destruct (f y); cbn [List.length]; lia.
Qed.

(** X19.  In the CSV processor a product with a type regime always
    counts as changed in its tags: the tags [computeDesiredTags]
    returns never compare equal to the current ones.  When the current
    tags already hold the desired type tag it is removed with every
    other type tag and not added back, and nothing is reported to add. *)
Theorem computeDesiredTags_always_changes (cur : list string) (d : string) :
  In d TYPE_TAGS ->
  ProcessorTags.tagsChanged cur (ProcessorTags.computeDesiredTags cur d) = true
  /\ (includes (map normTag cur) d = true ->
      ProcessorTags.computeDesiredTags cur d = filter not_type_tag cur
      /\ includes (map normTag (ProcessorTags.computeDesiredTags cur d)) d
         = false
      /\ tags_to_add (ProcessorTags.tagDecision false cur d) = []).
Proof.
  intros Hd.
  assert (Ht : includes TYPE_TAGS d = true) by now apply includes_In.
  assert (Hc : ProcessorTags.tagsChanged cur
                 (ProcessorTags.computeDesiredTags cur d) = true).
  { unfold ProcessorTags.tagsChanged. cbv zeta.
    destruct (list_eq_dec string_dec _ _) as [E |]; [exfalso | reflexivity].
    unfold ProcessorTags.computeDesiredTags in E. cbv zeta in E.
    rewrite Ht in E. cbn [andb] in E.
    destruct (includes (map normTag cur) d) eqn:Hin; cbn [negb] in E.
    - apply (f_equal (@List.length string)) in E.
      rewrite !sort_length, !length_map in E.
      apply includes_In, in_map_iff in Hin. destruct Hin as (t & Hn & Hin).
      assert (Hf : not_type_tag t = false).
      { unfold not_type_tag. now rewrite Hn, Ht. }
      pose proof (filter_drops _ not_type_tag cur t Hin Hf). lia.
    - apply includes_false in Hin. apply Hin.
      apply (sort_In (map normTag cur) d). rewrite E. apply sort_In.
      rewrite map_app, in_app_iff. right. cbn [map In]. left.
      now apply normTag_type_tag. }
  split; [exact Hc|].
  intros Hin.
  assert (He : ProcessorTags.computeDesiredTags cur d = filter not_type_tag cur).
  { unfold ProcessorTags.computeDesiredTags. cbv zeta.
    now rewrite Ht, Hin. }
  split; [exact He|]. split.
  - rewrite He. now apply cleaned_has_no_type_tag.
  - unfold ProcessorTags.tagDecision. cbv zeta. cbn [tags_to_add negb andb].
    rewrite Ht, Hc. unfold ProcessorTags.tagsToAddRemove. cbv zeta.
    cbn [fst]. now rewrite Ht, Hin.
Qed.

Lemma computeDesiredTags_always_changes_witness :
  ProcessorTags.tagsChanged ["Sale"; "Standard"]
    (ProcessorTags.computeDesiredTags ["Sale"; "Standard"] "standard") = true
  /\ ProcessorTags.computeDesiredTags ["Sale"; "Standard"] "standard"
     = filter not_type_tag ["Sale"; "Standard"].
Proof.
  assert (Hd : In "standard" TYPE_TAGS) by (cbn; tauto).
  split.
  - apply (computeDesiredTags_always_changes ["Sale"; "Standard"] "standard" Hd).
  - apply (computeDesiredTags_always_changes ["Sale"; "Standard"] "standard" Hd).
    reflexivity.
Defined.

(** X20.  Applying the tags [computeDesiredTags] returns and running it
    again never settles: the second result differs from the first, by
    exactly the desired type tag at the end, and the third is the first
    again. *)
Theorem computeDesiredTags_alternates (cur : list string) (d : string) :
  In d TYPE_TAGS ->
  let f := fun l => ProcessorTags.computeDesiredTags l d in
  f (f (f cur)) = f cur
  /\ (f cur = filter not_type_tag cur
      /\ f (f cur) = filter not_type_tag cur ++ [d]
      \/ f cur = filter not_type_tag cur ++ [d]
         /\ f (f cur) = filter not_type_tag cur).
Proof.
  intros Hd f.
  assert (Ht : includes TYPE_TAGS d = true) by now apply includes_In.
  assert (Hclean : forall l, f (filter not_type_tag l)
                             = filter not_type_tag l ++ [d]).
  { intros l. unfold f, ProcessorTags.computeDesiredTags. cbv zeta.
    rewrite Ht, (cleaned_has_no_type_tag l d Hd), filter_idem.
    reflexivity. }
  assert (Hwith : forall l, f (filter not_type_tag l ++ [d])
                            = filter not_type_tag l).
  { intros l. unfold f, ProcessorTags.computeDesiredTags. cbv zeta.
    assert (Hin : includes (map normTag (filter not_type_tag l ++ [d])) d
                  = true).
    { apply includes_In. rewrite map_app, in_app_iff. right. left.
      now apply normTag_type_tag. }
    rewrite Ht, Hin. cbn [andb negb].
    rewrite filter_app, filter_idem. cbn [filter].
    rewrite (not_type_tag_type_tag d Hd). apply app_nil_r. }
  assert (Hcur : f cur = filter not_type_tag cur
                 \/ f cur = filter not_type_tag cur ++ [d]).
  { unfold f, ProcessorTags.computeDesiredTags. cbv zeta.
    destruct (includes TYPE_TAGS d && negb (includes (map normTag cur) d));
      [now right | now left]. }
  destruct Hcur as [E | E].
  - split; [| left]; rewrite ?E, ?Hclean, ?Hwith; auto.
  - split; [| right]; rewrite ?E, ?Hwith, ?Hclean; auto.
Qed.

Lemma computeDesiredTags_alternates_witness :
  ProcessorTags.computeDesiredTags
    (ProcessorTags.computeDesiredTags
       (ProcessorTags.computeDesiredTags ["Sale"; "used"] "standard")
       "standard") "standard"
  = ProcessorTags.computeDesiredTags ["Sale"; "used"] "standard".
Proof.
  apply (computeDesiredTags_alternates ["Sale"; "used"] "standard").
  cbn; tauto.
Defined.

(** ** The no-VAT script: grouping the records into products *)

Section IngestFacts.
Import Ingest.
Variable idx : Idx.
Variable delim : ascii.

Local Notation "'rid'" := (row_id idx delim).
Local Notation "'fld'" := (fun r => fields idx (parseCsvLine r delim)).

Lemma key_push (f : Fields) (e : Entry) : key (push f e) = key e.
Proof. reflexivity. Qed.

Lemma get_update (g : Entry -> Entry) (pid k : string) (m : list Entry) :
  (forall e, key (g e) = key e) ->
  get (update pid g m) k
  = if String.eqb k pid then option_map g (get m pid) else get m k.
Proof.
  intros Hg. unfold get. induction m as [| e m IH].
  - cbn. now destruct (String.eqb k pid).
  - cbn [update find]. destruct (String.eqb_spec (key e) pid) as [E | E].
    + cbn [find]. rewrite Hg.
      destruct (String.eqb_spec k pid) as [-> | Hk].
      * rewrite E, String.eqb_refl. reflexivity.
      * destruct (String.eqb_spec (key e) k) as [E' | _]; [| reflexivity].
        congruence.
    + cbn [find]. rewrite IH.
      destruct (String.eqb_spec k pid) as [-> | Hk].
      * destruct (String.eqb_spec (key e) pid); [contradiction | reflexivity].
      * reflexivity.
Qed.

Lemma get_app_new (m : list Entry) (e : Entry) (k : string) :
  get (m ++ [e]) k
  = match get m k with
    | Some x => Some x
    | None => if String.eqb (key e) k then Some e else None
    end.
Proof.
  unfold get. induction m as [| x m IH]; cbn [app find]; [reflexivity|].
  now destruct (String.eqb (key x) k).
Qed.

Lemma has_get (m : list Entry) (k : string) :
  has m k = match get m k with Some _ => true | None => false end.
Proof.
  unfold has, get. induction m as [| x m IH]; cbn [existsb find];
    [reflexivity|].
  now destruct (String.eqb (key x) k).
Qed.

Lemma has_includes (m : list Entry) (k : string) :
  has m k = includes (map key m) k.
Proof.
  destruct (includes (map key m) k) eqn:E.
  - apply includes_In, in_map_iff in E. destruct E as (e & <- & He).
    apply existsb_exists. exists e. split; [exact He | apply String.eqb_refl].
  - apply includes_false in E. apply not_true_is_false. intros H.
    apply existsb_exists in H. destruct H as (e & He & Hk).
    apply String.eqb_eq in Hk. apply E. rewrite <- Hk. now apply in_map.
Qed.

Lemma keys_update (g : Entry -> Entry) (pid : string) (m : list Entry) :
  (forall e, key (g e) = key e) ->
  map key (update pid g m) = map key m.
Proof.
  intros Hg. induction m as [| e m IH]; [reflexivity|].
  cbn [update]. destruct (String.eqb (key e) pid); cbn [map].
  - now rewrite Hg.
  - now rewrite IH.
Qed.

(** One record: where it is filed, and when the loop throws. *)
Lemma ingest_record_cases (m : list Entry) (r : string) :
  (truthy (rid r) = false /\ ingest_record idx delim m r = Done m)
  \/ (truthy (rid r) = true /\ isNumericId (rid r) = false
      /\ exists msg, ingest_record idx delim m r = Throw msg)
  \/ (truthy (rid r) = true /\ isNumericId (rid r) = true
      /\ exists m', ingest_record idx delim m r = Done m'
         /\ map key m' = add_key (map key m) (rid r)
         /\ forall k, get m' k
                      = if String.eqb k (rid r)
                        then absorb k (get m k) (fld r) else get m k).
Proof.
  unfold ingest_record, row_id. cbv zeta.
  set (pid := clean_cell _).
  destruct (truthy pid) eqn:Et; cbn [negb]; [| now left].
  right. destruct (isNumericId pid) eqn:En; cbn [negb].
  - right. split; [reflexivity|]. split; [reflexivity|].
    eexists. split; [reflexivity|]. split.
    + rewrite keys_update by apply key_push.
      unfold add_key. rewrite <- has_includes.
      destruct (has m pid); cbn [negb]; [reflexivity|].
      now rewrite map_app.
    + intros k. rewrite get_update by apply key_push.
      destruct (String.eqb_spec k pid) as [-> | Hk].
      * unfold absorb. rewrite has_get.
        destruct (get m pid) as [e |] eqn:Eg; cbn [negb].
        -- now rewrite Eg.
        -- rewrite get_app_new, Eg.
           assert (Hn : key (new_entry pid
                               (fields idx (parseCsvLine r delim))) = pid)
             by reflexivity.
           rewrite Hn, String.eqb_refl. reflexivity.
      * destruct (has m pid); cbn [negb]; [reflexivity|].
        rewrite get_app_new. destruct (get m k); [reflexivity|].
        assert (Hn : key (new_entry pid
                            (fields idx (parseCsvLine r delim))) = pid)
          by reflexivity.
        rewrite Hn. destruct (String.eqb_spec pid k); [congruence | reflexivity].
  - left. split; [reflexivity|]. split; [reflexivity|]. now eexists.
Qed.

Lemma ingest_invariant (records : list string) :
  forall m0 m,
    ingest idx delim m0 records = Done m ->
    map key m
    = fold_left add_key (filter truthy (map rid records)) (map key m0)
    /\ (forall k, truthy k = true ->
                  get m k
                  = fold_left (absorb k) (rows_of_id idx delim records k)
                      (get m0 k))
    /\ Forall (fun r => truthy (rid r) = true -> isNumericId (rid r) = true)
         records.
Proof.
  unfold rows_of_id.
  induction records as [| r rest IH]; intros m0 m H.
  - cbn in H. injection H as <-. repeat split. constructor.
  - cbn [ingest] in H. cbn [map filter].
    destruct (ingest_record_cases m0 r)
      as [[Et E] | [(Et & En & msg & E) | (Et & En & m1 & E & Hk & Hg)]];
      rewrite E in H; cbn [bind] in H; [| discriminate H |].
    + destruct (IH m0 m H) as (H1 & H2 & H3). rewrite Et.
      split; [exact H1|]. split.
      * intros k Hk. rewrite (H2 k Hk).
        destruct (String.eqb_spec (rid r) k) as [Ek | _]; [| reflexivity].
        rewrite Ek in Et. congruence.
      * constructor; [| exact H3]. intros Ht. congruence.
    + destruct (IH m1 m H) as (H1 & H2 & H3). rewrite Et.
      cbn [fold_left]. rewrite <- Hk.
      split; [exact H1|]. split.
      * intros k Htk. rewrite (H2 k Htk), Hg.
        destruct (String.eqb_spec k (rid r)) as [-> | Hne].
        -- rewrite String.eqb_refl. reflexivity.
        -- destruct (String.eqb_spec (rid r) k); [congruence | reflexivity].
      * constructor; [| exact H3]. intros _. exact En.
Qed.

Lemma ingest_total (records : list string) :
  Forall (fun r => truthy (rid r) = true -> isNumericId (rid r) = true)
    records ->
  forall m0, exists m, ingest idx delim m0 records = Done m.
Proof.
  induction 1 as [| r rest Hr _ IH]; intros m0; [now exists m0|].
  cbn [ingest].
  destruct (ingest_record_cases m0 r)
    as [[Et E] | [(Et & En & msg & E) | (Et & En & m1 & E & _)]];
    rewrite E; cbn [bind].
  - apply IH.
  - rewrite (Hr Et) in En. discriminate En.
  - apply IH.
Qed.

Lemma add_keys_NoDup (l s : list string) :
  NoDup s -> NoDup (fold_left add_key l s).
Proof.
  revert s. induction l as [| k l IH]; intros s Hs; [exact Hs|].
  cbn [fold_left]. apply IH. unfold add_key.
  destruct (includes s k) eqn:E; [exact Hs|].
  apply includes_false in E.
  apply NoDup_app; repeat split; trivial.
  - constructor; [intros [] | constructor].
  - intros x Hx [<- | []]. now apply E.
Qed.

Lemma add_keys_In (l s : list string) (k : string) :
  In k (fold_left add_key l s) <-> In k s \/ In k l.
Proof.
  revert s. induction l as [| x l IH]; intros s; cbn [fold_left In];
    [tauto|].
  rewrite IH. unfold add_key. destruct (includes s x) eqn:E.
  - apply includes_In in E. split; [tauto|].
    intros [H | [<- | H]]; tauto.
  - rewrite in_app_iff. cbn [In]. tauto.
Qed.

Lemma get_In_NoDup (m : list Entry) (e : Entry) :
  NoDup (map key m) -> In e m -> get m (key e) = Some e.
Proof.
  unfold get. induction m as [| x m IH]; intros Hnd Hin; [destruct Hin|].
  cbn [map] in Hnd. apply NoDup_cons_iff in Hnd. destruct Hnd as [Hx Hnd].
  cbn [find]. destruct Hin as [-> | Hin].
  - now rewrite String.eqb_refl.
  - destruct (String.eqb_spec (key x) (key e)) as [E | _]; [| now apply IH].
    exfalso. apply Hx. rewrite E. now apply in_map.
Qed.

Lemma fold_backfill (l : list string) (s : string) :
  fold_left backfill l s = if truthy s then s else first_truthy l.
Proof.
  revert s. induction l as [| x l IH]; intros s; cbn [fold_left].
  - destruct s; reflexivity.
  - rewrite IH. unfold backfill, first_truthy. cbn [filter].
    destruct (truthy s) eqn:Es; cbn [negb andb]; [now rewrite Es|].
    destruct (truthy x) eqn:Ex; [now rewrite Ex | now rewrite Es].
Qed.

Lemma fold_absorb_some (k : string) (l : list Fields) (e : Entry) :
  fold_left (absorb k) l (Some e)
  = Some (fold_left (fun e f => push f e) l e).
Proof.
  revert e. induction l as [| f l IH]; intros e; [reflexivity|].
  cbn [fold_left]. unfold absorb at 2. apply IH.
Qed.

(** What a product holds once records have been pushed onto it. *)
Lemma pushes_fields (l : list Fields) :
  forall e,
    let e' := fold_left (fun e f => push f e) l e in
    key e' = key e
    /\ variants (e_product e') = variants (e_product e) ++ map f_variant l
    /\ status (e_product e')
       = fold_left backfill (map f_status l) (status (e_product e))
    /\ title (e_product e')
       = fold_left backfill (map f_title l) (title (e_product e))
    /\ handle (e_product e')
       = fold_left backfill (map f_handle l) (handle (e_product e))
    /\ e_tagsRaw e' = fold_left backfill (map f_tagsCell l) (e_tagsRaw e)
    /\ (tagsArr (e_product e) = parseTags (e_tagsRaw e) ->
        tagsArr (e_product e') = parseTags (e_tagsRaw e'))
    /\ (forall s, asLowAsCurrent (e_product e) = Lit s ->
        asLowAsCurrent (e_product e')
        = Lit (fold_left backfill (map f_asLowAsCurrent l) s)).
Proof.
  induction l as [| f l IH]; intros e e'.
  - unfold e'. cbn [fold_left map]. rewrite app_nil_r. repeat split; auto.
  - unfold e'. cbn [fold_left map].
    destruct (IH (push f e)) as (H1 & H2 & H3 & H4 & H5 & H6 & H7 & H8).
    rewrite H1, H2, H3, H4, H5, H6.
    split; [reflexivity|].
    split; [cbn [push e_product variants]; now rewrite <- app_assoc|].
    split; [reflexivity|]. split; [reflexivity|]. split; [reflexivity|].
    split; [reflexivity|]. split.
    + intros Ht. rewrite H7; [now rewrite H6|].
      cbn [push e_product tagsArr e_tagsRaw].
      now destruct (negb (truthy (e_tagsRaw e)) && truthy (f_tagsCell f)).
    + intros s Hs. rewrite (H8 (backfill s (f_asLowAsCurrent f)));
        [reflexivity|].
      cbn [push e_product asLowAsCurrent]. rewrite Hs. unfold backfill.
      cbn [Text_truthy].
      now destruct (negb (truthy s) && truthy (f_asLowAsCurrent f)).
Qed.

(** X21.  The reading loop of the no-VAT script files every record
    under its product id: the products come out in the order their ids
    first occur, each id once, non-empty and numeric; a product holds
    one variant per record of its id, in the order of the file, and
    its status, title, handle, tags and metafield value are those of
    the first of its records where the cell is not empty. *)
Theorem ingest_groups_records (records : list string) (m : list Entry) :
  ingest idx delim [] records = Done m ->
  map key m = first_seen (filter truthy (map rid records))
  /\ NoDup (map key m)
  /\ forall e, In e m ->
       let rows := rows_of_id idx delim records (key e) in
       truthy (key e) = true /\ isNumericId (key e) = true
       /\ rows <> []
       /\ variants (e_product e) = map f_variant rows
       /\ status (e_product e) = first_truthy (map f_status rows)
       /\ title (e_product e) = first_truthy (map f_title rows)
       /\ handle (e_product e) = first_truthy (map f_handle rows)
       /\ tagsArr (e_product e)
          = parseTags (first_truthy (map f_tagsCell rows))
       /\ asLowAsCurrent (e_product e)
          = Lit (first_truthy (map f_asLowAsCurrent rows)).
Proof.
  intros H. destruct (ingest_invariant records [] m H) as (Hk & Hg & Hn).
  cbn [map] in Hk. fold (first_seen (filter truthy (map rid records))) in Hk.
  assert (Hnd : NoDup (map key m)).
  { rewrite Hk. apply add_keys_NoDup. constructor. }
  split; [exact Hk|]. split; [exact Hnd|].
  intros e He rows.
  assert (Hin : In (key e) (filter truthy (map rid records))).
  { assert (Hm : In (key e) (map key m)) by now apply in_map.
    rewrite Hk in Hm. apply add_keys_In in Hm. now destruct Hm. }
  apply filter_In in Hin. destruct Hin as [Hin Ht].
  apply in_map_iff in Hin. destruct Hin as (r & Hr & Hrin).
  assert (Hnum : isNumericId (key e) = true).
  { rewrite Forall_forall in Hn. rewrite <- Hr. apply Hn; [exact Hrin|].
    now rewrite Hr. }
  pose proof (get_In_NoDup m e Hnd He) as Hget.
  rewrite (Hg (key e) Ht) in Hget. cbn [get find] in Hget. fold rows in Hget.
  assert (Hrows : rows <> []).
  { intros E. rewrite E in Hget. discriminate Hget. }
  split; [exact Ht|]. split; [exact Hnum|]. split; [exact Hrows|].
  destruct rows as [| f rest]; [now contradiction Hrows|].
  cbn [fold_left] in Hget. unfold absorb at 2 in Hget.
  rewrite fold_absorb_some in Hget. injection Hget as Hget.
  destruct (pushes_fields rest (push f (new_entry (key e) f)))
    as (_ & H2 & H3 & H4 & H5 & H6 & H7 & H8).
  rewrite Hget in H2, H3, H4, H5, H6, H7, H8.
  assert (Hb : forall s, backfill s s = s).
  { intros s. unfold backfill. now destruct (truthy s). }
  assert (Hf : forall s l, fold_left backfill l s = first_truthy (s :: l)).
  { intros s l. rewrite fold_backfill. unfold first_truthy. cbn [filter].
    destruct (truthy s) eqn:Es; [reflexivity|]. reflexivity. }
  cbn [map]. rewrite <- !Hf.
  cbn [push new_entry e_product e_tagsRaw variants status title handle
       tagsArr asLowAsCurrent app] in H2, H3, H4, H5, H6, H7, H8.
  assert (Hif : forall (A : Type) (b : bool) (x : A),
            (if b then x else x) = x) by (intros A b x; now destruct b).
  rewrite !Hb in *. rewrite !Hif in *.
  split; [exact H2|]. split; [exact H3|]. split; [exact H4|].
  split; [exact H5|]. split.
  - rewrite <- H6. now apply H7.
  - now apply H8.
Qed.

(** X22.  The reading loop throws exactly when some record has a
    non-empty id that is not numeric; otherwise every record is read. *)
Theorem ingest_fails_on_non_numeric_id (records : list string) :
  (exists m, ingest idx delim [] records = Done m)
  <-> Forall (fun r => truthy (rid r) = true -> isNumericId (rid r) = true)
        records.
Proof.
  split.
  - intros (m & H). now destruct (ingest_invariant records [] m H) as (_ & _ & Hn).
  - intros H. now apply ingest_total.
Qed.

End IngestFacts.

Lemma ingest_groups_records_witness :
  exists m,
    Ingest.ingest sample_idx "," [] sample_records = Done m
    /\ map Ingest.key m = ["7"; "8"]
    /\ NoDup (map Ingest.key m).
Proof.
  eexists. split; [reflexivity|]. split; [reflexivity|].
  eapply (ingest_groups_records sample_idx "," sample_records). reflexivity.
Defined.

(** ** Writing a CSV file and reading it back *)

Lemma split_nonempty (sep : ascii) (s : string) : split sep s <> [].
Proof.
  destruct s as [| c r]; cbn [split]; [discriminate|].
  destruct (Ascii.eqb c sep); [discriminate|].
  destruct (split sep r); discriminate.
Qed.

Lemma split_cons_other (sep c : ascii) (r : string) :
  Ascii.eqb c sep = false ->
  exists h t, split sep r = h :: t /\ split sep (String c r) = String c h :: t.
Proof.
  intros E. cbn [split]. rewrite E.
  destruct (split sep r) as [| h t] eqn:Es;
    [now destruct (split_nonempty sep r) | now exists h, t].
Qed.

Lemma split_app_sep (sep : ascii) (a b : string) :
  split sep (String.append a (String sep b)) = split sep a ++ split sep b.
Proof.
  induction a as [| c a IH]; cbn [String.append].
  - cbn [split]. now rewrite Ascii.eqb_refl.
  - destruct (Ascii.eqb c sep) eqn:E.
    + cbn [split]. rewrite E, IH. reflexivity.
    + destruct (split_cons_other sep c a E) as (h & t & Ha & Hc).
      rewrite Hc. cbn [split]. rewrite E, IH, Ha. reflexivity.
Qed.

(** Cutting the joined lines gives back the cut lines. *)
Lemma split_concat_lines (r : string) (rs : list string) :
  split LF (String.concat (String LF "") (r :: rs))
  = List.concat (map (split LF) (r :: rs)).
Proof.
  revert r. induction rs as [| r' rs IH]; intros r.
  - cbn [String.concat map List.concat]. now rewrite app_nil_r.
  - change (String.concat (String LF "") (r :: r' :: rs))
      with (String.append r
              (String.append (String LF "")
                             (String.concat (String LF "") (r' :: rs)))).
    cbn [String.append]. rewrite split_app_sep, IH. reflexivity.
Qed.

Lemma well_cut_lf_ok (s : string) (open : bool) :
  well_cut open (split LF s) = lf_ok open s.
Proof.
  revert open. induction s as [| c r IH]; intros open.
  - cbn. now destruct open.
  - cbn [lf_ok]. destruct (Ascii.eqb c LF) eqn:El.
    + assert (Eq : Ascii.eqb c dquote = false).
      { apply Ascii.eqb_eq in El. now subst c. }
      rewrite Eq. cbn [split]. rewrite El.
      pose proof (split_nonempty LF r) as Hne.
      cbn [well_cut count_quotes Nat.odd]. rewrite xorb_false_r.
      destruct (split LF r) as [| h t] eqn:Es; [now contradiction Hne|].
      now rewrite <- IH.
    + destruct (split_cons_other LF c r El) as (h & t & Hr & Hc).
      rewrite Hc. specialize (IH (if Ascii.eqb c dquote then negb open
                                  else open)).
      rewrite Hr in IH.
      assert (Hx : xorb open (Nat.odd (count_quotes (String c h)))
                   = xorb (if Ascii.eqb c dquote then negb open else open)
                          (Nat.odd (count_quotes h))).
      { cbn [count_quotes]. destruct (Ascii.eqb c dquote).
        - rewrite Nat.odd_succ, <- Nat.negb_odd.
          now destruct open, (Nat.odd (count_quotes h)).
        - reflexivity. }
      cbn [well_cut] in IH |- *. rewrite Hx.
      destruct (Ascii.eqb c dquote); exact IH.
Qed.

Lemma lf_ok_plain (a b : string) (open : bool) :
  has_char LF a = false -> has_char dquote a = false ->
  lf_ok open (String.append a b) = lf_ok open b.
Proof.
  induction a as [| c a IH]; [reflexivity|].
  cbn [has_char String.append lf_ok]. intros H1 H2.
  apply orb_false_iff in H1. destruct H1 as [E1 H1].
  apply orb_false_iff in H2. destruct H2 as [E2 H2].
  rewrite E1, E2. now apply IH.
Qed.

Lemma lf_ok_quoted (s b : string) :
  lf_ok true (String.append (double_quotes s) b) = lf_ok true b.
Proof.
  induction s as [| c s IH]; [reflexivity|].
  cbn [double_quotes]. destruct (Ascii.eqb c dquote) eqn:E.
  - cbn [String.append lf_ok].
    replace (Ascii.eqb dquote dquote) with true by reflexivity.
    cbn [negb]. exact IH.
  - cbn [String.append lf_ok]. rewrite E.
    destruct (Ascii.eqb c LF); cbn [andb]; exact IH.
Qed.

Lemma lf_ok_field (f rest : string) :
  lf_ok false (String.append (csvEscape f) rest) = lf_ok false rest.
Proof.
  unfold csvEscape.
  destruct (has_char dquote f || has_char "," f || has_char LF f
            || has_char CR f || has_char ";" f) eqn:E.
  - cbn [String.append lf_ok].
    replace (Ascii.eqb dquote dquote) with true by reflexivity.
    cbn [negb]. unfold quote_str. rewrite append_assoc, lf_ok_quoted.
    cbn [String.append lf_ok].
    replace (Ascii.eqb dquote dquote) with true by reflexivity.
    reflexivity.
  - repeat (apply orb_false_iff in E; destruct E as [E ?]).
    now apply lf_ok_plain.
Qed.

(** In a line of [writeCsv] every line feed is inside a quoted field. *)
Lemma lf_ok_csv_line (cells : list string) :
  lf_ok false (csv_line cells) = true.
Proof.
  destruct cells as [| f fs]; [reflexivity|].
  revert f. induction fs as [| g fs IH]; intros f.
  - unfold csv_line. cbn [map String.concat].
    rewrite <- (append_nil_r (csvEscape f)), lf_ok_field. reflexivity.
  - rewrite csv_line_cons, lf_ok_field. cbn [lf_ok].
    replace (Ascii.eqb "," dquote) with false by reflexivity.
    replace (Ascii.eqb "," LF) with false by reflexivity.
    apply IH.
Qed.

Lemma complete_parity (s : string) :
  isCsvRecordComplete s = negb (Nat.odd (count_quotes s)).
Proof.
  unfold isCsvRecordComplete.
  destruct (complete_loop_parity s) as [H _]. now rewrite H.
Qed.

(** The lines of a record that is under way, up to its last. *)
Lemma read_rest_of_record (lines : list string) :
  forall (records : list string) (pending : string),
    truthy pending = true ->
    Forall (fun l => stripBom l = l) lines ->
    well_cut (Nat.odd (count_quotes pending)) lines = true ->
    fold_left read_line lines (records, pending)
    = (records
         ++ [String.append pending
               (String LF (String.concat (String LF "") lines))], "").
Proof.
  induction lines as [| l rest IH]; intros records pending Hp Hb Hw;
    [discriminate Hw|].
  apply Forall_cons_iff in Hb. destruct Hb as [Hl Hb].
  cbn [fold_left]. unfold read_line at 2. rewrite Hl, Hp. cbn [negb andb].
  assert (Hc : count_quotes (String.append pending (String LF l))
               = (count_quotes pending + count_quotes l)%nat).
  { rewrite count_quotes_append. reflexivity. }
  assert (Hx : Nat.odd (count_quotes pending + count_quotes l)
               = xorb (Nat.odd (count_quotes pending))
                      (Nat.odd (count_quotes l)))
    by apply Nat.odd_add.
  rewrite complete_parity, Hc, Hx, negb_involutive.
  cbn [well_cut] in Hw. destruct rest as [| l' rest'].
  - apply negb_true_iff in Hw. rewrite Hw. reflexivity.
  - apply andb_true_iff in Hw. destruct Hw as [Ho Hw]. rewrite Ho.
    rewrite IH.
    + rewrite append_assoc. reflexivity.
    + now destruct pending.
    + exact Hb.
    + now rewrite Hc, Hx.
Qed.

(** One written row, read from between two records. *)
Lemma read_record (cells : list string) (records : list string) :
  readable cells ->
  fold_left read_line (split LF (csv_line cells)) (records, "")
  = (records ++ [csv_line cells], "").
Proof.
  intros (_ & Hfirst & Hbom).
  pose proof (lf_ok_csv_line cells) as Hok.
  rewrite <- well_cut_lf_ok in Hok.
  assert (Hj : String.concat (String LF "") (split LF (csv_line cells))
               = csv_line cells).
  { generalize (csv_line cells). intros s.
    induction s as [| c r IH]; [reflexivity|].
    destruct (Ascii.eqb c LF) eqn:E.
    - cbn [split]. rewrite E. apply Ascii.eqb_eq in E. subst c.
      pose proof (split_nonempty LF r) as Hne.
      destruct (split LF r) as [| h t]; [now contradiction Hne|].
      change (String.concat (String LF "") ("" :: h :: t))
        with (String LF (String.concat (String LF "") (h :: t))).
      now rewrite IH.
    - destruct (split_cons_other LF c r E) as (h & t & Hr & Hc).
      rewrite Hc. rewrite Hr in IH. destruct t as [| h' t'].
      + cbn [String.concat] in IH |- *. now rewrite IH.
      + change (String.concat (String LF "") (String c h :: h' :: t'))
          with (String c (String.append h
                  (String LF (String.concat (String LF "") (h' :: t'))))).
        change (String.concat (String LF "") (h :: h' :: t'))
          with (String.append h
                  (String LF (String.concat (String LF "") (h' :: t'))))
          in IH.
        now rewrite IH. }
  destruct (split LF (csv_line cells)) as [| l rest] eqn:Es;
    [discriminate Hok|].
  cbn [hd] in Hfirst.
  apply Forall_cons_iff in Hbom. destruct Hbom as [Hl Hbom].
  cbn [fold_left]. unfold read_line at 2. rewrite Hl.
  cbn [truthy negb andb]. rewrite Hfirst. cbn [negb].
  rewrite complete_parity. cbn [well_cut xorb] in Hok.
  destruct rest as [| l' rest'].
  - rewrite Hok. cbn [fold_left String.concat] in Hj |- *. now rewrite Hj.
  - apply andb_true_iff in Hok. destruct Hok as [Ho Hw]. rewrite Ho.
    cbn [negb]. rewrite read_rest_of_record.
    + now rewrite <- Hj.
    + destruct l; [discriminate Hfirst | reflexivity].
    + exact Hbom.
    + exact Hw.
Qed.

Lemma read_records (rows : list (list string)) :
  Forall readable rows ->
  forall records,
    fold_left read_line (List.concat (map (fun c => split LF (csv_line c)) rows))
      (records, "")
    = (records ++ map csv_line rows, "").
Proof.
  induction 1 as [| cells rows Hc _ IH]; intros records.
  - cbn. now rewrite app_nil_r.
  - cbn [map List.concat]. rewrite fold_left_app, (read_record cells records Hc).
    rewrite IH, <- app_assoc. reflexivity.
Qed.

Lemma readable_nonempty (cells : list string) : readable cells -> cells <> [].
Proof. intros (_ & H & _) ->. discriminate H. Qed.

(** X23.  The reading loop takes up what [writeCsv] writes: cut at its
    line feeds, the written text is reassembled into one record per
    row, also where a cell holds a line feed, no text is left pending,
    and [parseCsvLine] reads from each record the cells of its row. *)
Theorem reader_reassembles_written_rows (headers : list string)
  (rows : list RowObject) :
  readable headers ->
  Forall (fun r => readable (row_cells headers r)) rows ->
  let out := read_lines (split LF (writeCsv headers rows)) in
  out = (csv_line headers
           :: map (fun r => csv_line (row_cells headers r)) rows, "")
  /\ map (fun record => parseCsvLine record ",") (fst out)
     = headers :: map (row_cells headers) rows.
Proof.
  intros Hh Hr out.
  assert (Hall : Forall readable (headers :: map (row_cells headers) rows)).
  { constructor; [exact Hh|]. now apply Forall_map. }
  assert (Hout : out = (map csv_line (headers :: map (row_cells headers) rows),
                        "")).
  { unfold out, read_lines, writeCsv. rewrite split_concat_lines.
    pose proof (read_records _ Hall []) as H.
    cbn [app] in H. rewrite <- H. f_equal.
    cbn [map]. rewrite !map_map. reflexivity. }
  split.
  - rewrite Hout. cbn [map]. now rewrite map_map.
  - rewrite Hout. cbn [fst]. rewrite map_map.
    clear Hout. induction Hall as [| cells l Hc _ IH]; [reflexivity|].
    cbn [map]. rewrite IH. f_equal.
    pose proof (readable_nonempty cells Hc) as Hne.
    destruct cells as [| f fs]; [now contradiction Hne|].
    unfold parseCsvLine. apply (parse_csv_line f fs []).
Qed.

Lemma reader_reassembles_written_rows_witness :
  map (fun record => parseCsvLine record ",")
    (fst (read_lines (split LF (writeCsv ["ID"; "Title"] [two_line_title]))))
  = [["ID"; "Title"]; ["7"; String "a" (String LF "b")]].
Proof.
  assert (H1 : readable ["ID"; "Title"]).
  { repeat split; vm_compute; repeat constructor. }
  assert (H2 : Forall (fun r => readable (row_cells ["ID"; "Title"] r))
                 [two_line_title]).
  { constructor; [| constructor].
    repeat split; vm_compute; repeat constructor. }
  apply (reader_reassembles_written_rows ["ID"; "Title"] [two_line_title] H1 H2).
Defined.

(** ** The delimiter of a header line *)

Lemma count_char_append (c : ascii) (a b : string) :
  count_char c (String.append a b) = (count_char c a + count_char c b)%nat.
Proof.
  induction a as [| x a IH]; cbn [String.append count_char];
    [reflexivity | rewrite IH; lia].
Qed.

Lemma count_char_absent (c : ascii) (s : string) :
  has_char c s = false -> count_char c s = 0%nat.
Proof.
  induction s as [| x s IH]; [reflexivity|].
  cbn [has_char count_char]. intros H.
  apply orb_false_iff in H. destruct H as [-> H]. now rewrite IH.
Qed.

Lemma count_char_double_quotes (c : ascii) (s : string) :
  Ascii.eqb dquote c = false ->
  count_char c (double_quotes s) = count_char c s.
Proof.
  intros Hc. induction s as [| x s IH]; [reflexivity|].
  cbn [double_quotes]. destruct (Ascii.eqb x dquote) eqn:E.
  - apply Ascii.eqb_eq in E. subst x. cbn [count_char].
    rewrite Hc, IH. reflexivity.
  - cbn [count_char]. now rewrite IH.
Qed.

Lemma count_semis_csvEscape (f : string) :
  has_char ";" f = false -> count_char ";" (csvEscape f) = 0%nat.
Proof.
  intros H. unfold csvEscape.
  destruct (has_char dquote f || has_char "," f || has_char LF f
            || has_char CR f || has_char ";" f).
  - cbn [count_char].
    replace (Ascii.eqb dquote ";") with false by reflexivity.
    rewrite count_char_append, count_char_double_quotes by reflexivity.
    rewrite (count_char_absent _ _ H). reflexivity.
  - now apply count_char_absent.
Qed.

Lemma count_semis_csv_line (cells : list string) :
  Forall (fun h => has_char ";" h = false) cells ->
  count_char ";" (csv_line cells) = 0%nat.
Proof.
  destruct cells as [| f fs]; [reflexivity|].
  revert f. induction fs as [| g fs IH]; intros f H;
    apply Forall_cons_iff in H; destruct H as [Hf H].
  - unfold csv_line. cbn [map String.concat].
    now apply count_semis_csvEscape.
  - rewrite csv_line_cons, count_char_append. cbn [count_char].
    replace (Ascii.eqb "," ";") with false by reflexivity.
    rewrite (count_semis_csvEscape f Hf), (IH g H). reflexivity.
Qed.

(** X24.  On a header line written by [writeCsv] whose headers hold no
    semicolon, [detectDelimiter] finds the comma, and [parseCsvLine]
    with the delimiter found reads the headers back. *)
Theorem detectDelimiter_of_written_header (headers : list string) :
  headers <> [] ->
  Forall (fun h => has_char ";" h = false) headers ->
  detectDelimiter (csv_line headers) = ","%char
  /\ parseCsvLine (csv_line headers) (detectDelimiter (csv_line headers))
     = headers.
Proof.
  intros Hne Hs.
  assert (Hd : detectDelimiter (csv_line headers) = ","%char).
  { unfold detectDelimiter. cbv zeta.
    rewrite (count_semis_csv_line headers Hs).
    now destruct (count_char "," (csv_line headers)). }
  split; [exact Hd|]. rewrite Hd.
  destruct headers as [| f fs]; [now contradiction Hne|].
  unfold parseCsvLine. apply (parse_csv_line f fs []).
Qed.

Lemma detectDelimiter_of_written_header_witness :
  detectDelimiter (csv_line ["ID"; "Tags, all"]) = ","%char.
Proof.
  apply (detectDelimiter_of_written_header ["ID"; "Tags, all"]).
  - discriminate.
  - repeat constructor.
Defined.
